(** * Replica access layer and healing loop of the distributed file store

    A shallow embedding of [minioService.js] (the variant with upload
    failover and probe timeouts) and of [healingService.js], followed by
    the properties of the replica-aware storage layer.

    Conventions.
    - JavaScript strings are [string]s whose characters are read as code
      units below 256.
    - A number produced by [Number.parseInt] is an [option Z]: [None] is
      [NaN]; values are exact integers (the source's doubles agree with them
      below 2^53).
    - A rejected promise or a thrown value is an [Error] carrying the two
      fields the source inspects, [code] and [message], either of which may
      be [undefined]. *)

From Stdlib Require Import Bool Arith ZArith List String Ascii Lia.
Import ListNotations.
Local Open Scope string_scope.

Set Implicit Arguments.

(* ================================================================== *)
(** ** JavaScript string primitives used by the sources *)
(* ================================================================== *)

Module JsString.

(** White space recognised by [String.prototype.trim] and by the prefix
    skipping of [parseInt], restricted to code units below 256:
    TAB, LF, VT, FF, CR, SP and NBSP. *)
Definition is_white (c : ascii) : bool :=
  let n := nat_of_ascii c in
  (Nat.eqb n 9 || Nat.eqb n 10 || Nat.eqb n 11 || Nat.eqb n 12
   || Nat.eqb n 13 || Nat.eqb n 32 || Nat.eqb n 160)%bool.

Fixpoint trimStart (s : string) : string :=
  match s with
  | String c s' => if is_white c then trimStart s' else s
  | EmptyString => EmptyString
  end.

(** [trimEnd] drops the trailing run of white space: a character is kept
    when something is kept after it or when it is not white. *)
Fixpoint trimEnd (s : string) : string :=
  match s with
  | EmptyString => EmptyString
  | String c s' =>
      match trimEnd s' with
      | EmptyString => if is_white c then EmptyString else String c EmptyString
      | r => String c r
      end
  end.

Definition trim (s : string) : string := trimEnd (trimStart s).

(** [s.split(sep)] for a one-character separator: always at least one
    piece. *)
Fixpoint split (sep : ascii) (s : string) : list string :=
  match s with
  | EmptyString => [EmptyString]
  | String c s' =>
      if Ascii.eqb c sep then EmptyString :: split sep s'
      else match split sep s' with
           | p :: ps => String c p :: ps
           | [] => [String c EmptyString]
           end
  end.

(** [hay.includes(needle)]. *)
Fixpoint includes (hay needle : string) : bool :=
  (prefix needle hay
   || match hay with
      | EmptyString => false
      | String _ hay' => includes hay' needle
      end)%bool.

(** Truthiness of a string: [Boolean(s)], [!s] is its negation. *)
Definition truthy (s : string) : bool :=
  match s with EmptyString => false | _ => true end.

Definition is_digit (c : ascii) : bool :=
  let n := nat_of_ascii c in (Nat.leb 48 n && Nat.leb n 57)%bool.

Definition digit_val (c : ascii) : Z := Z.of_nat (nat_of_ascii c - 48).

(** Longest prefix of decimal digits, accumulated left to right;
    [None] when there is no digit at all. *)
Fixpoint digits (acc : option Z) (s : string) : option Z :=
  match s with
  | String c s' =>
      if is_digit c
      then digits (Some (match acc with
                         | Some a => 10 * a + digit_val c
                         | None => digit_val c
                         end)%Z) s'
      else acc
  | EmptyString => acc
  end.

(** [Number.parseInt(s, 10)] on a string: skip white space, read an
    optional sign, then the longest run of digits; the rest is ignored.
    The value is the integer the digits denote; the double the source gets
    is that integer as long as it is below 2^53 in absolute value. *)
Definition parseInt10 (s : string) : option Z :=
  match trimStart s with
  | String "-" r => option_map Z.opp (digits None r)
  | String "+" r => digits None r
  | r => digits None r
  end.

(** [Number.parseInt(x, 10)] where [x] may be [undefined]: the argument is
    first converted to the string "undefined", which has no digits. *)
Definition parseInt (x : option string) : option Z :=
  match x with
  | Some s => parseInt10 s
  | None => parseInt10 "undefined"
  end.

(** Decimal rendering of a number inside a template literal. *)
Fixpoint nat_digits (fuel n : nat) (acc : string) : string :=
  match fuel with
  | O => acc
  | S fuel' =>
      let acc' := String (ascii_of_nat (48 + n mod 10)) acc in
      match n / 10 with
      | O => acc'
      | q => nat_digits fuel' q acc'
      end
  end.

Definition of_nat (n : nat) : string := nat_digits (S n) n EmptyString.

Definition of_Z (z : Z) : string :=
  match z with
  | Z0 => "0"
  | Zpos p => of_nat (Pos.to_nat p)
  | Zneg p => "-" ++ of_nat (Pos.to_nat p)
  end.

End JsString.

(* ================================================================== *)
(** ** Values shared by both services *)
(* ================================================================== *)

(** A thrown value.  [new Error(msg)] has no [code]; errors of the object
    store client may carry one (['NoSuchKey'], ...). *)
Record Error : Type := mkErr {
  code : option string;
  message : option string
}.

Definition newError (msg : string) : Error :=
  {| code := None; message := Some msg |}.

(** [`${e.message}`]: [undefined] is rendered as the word. *)
Definition show_opt (m : option string) : string :=
  match m with Some s => s | None => "undefined" end.

Definition show_port (p : option Z) : string :=
  match p with Some z => JsString.of_Z z | None => "undefined" end.

(** [e.message?.includes(s)] followed by [!]: an absent message yields
    [undefined], whose negation is [true]; so the positive test reads
    [false] there. *)
Definition message_includes (e : Error) (s : string) : bool :=
  match message e with
  | Some m => JsString.includes m s
  | None => false
  end.

(** Result of running a piece of code: it returns or it throws. *)
Inductive Outcome (A : Type) : Type :=
| Returned (a : A)
| Thrown (e : Error).
Arguments Returned {A} a.
Arguments Thrown {A} e.

Definition is_returned {A} (o : Outcome A) : bool :=
  match o with Returned _ => true | Thrown _ => false end.

Definition thrown_error {A} (o : Outcome A) : option Error :=
  match o with Returned _ => None | Thrown e => Some e end.

(** [xs.map(f)] where [f] may throw: elements are visited left to right and
    the first throw aborts the whole map. *)
Fixpoint mapOutcome {A B} (f : A -> Outcome B) (xs : list A) : Outcome (list B) :=
  match xs with
  | [] => Returned []
  | x :: xs' =>
      match f x with
      | Thrown e => Thrown e
      | Returned y =>
          match mapOutcome f xs' with
          | Thrown e => Thrown e
          | Returned ys => Returned (y :: ys)
          end
      end
  end.

(** The part of [process.env] read by the storage service. *)
Record Env : Type := mkEnv {
  MINIO_NODES : option string;
  MINIO_ENDPOINT : option string;
  MINIO_BUCKET_NAME : option string
}.

(** [v || d] on an environment variable: unset and empty both give [d]. *)
Definition or_default (v : option string) (d : string) : string :=
  match v with
  | Some s => if JsString.truthy s then s else d
  | None => d
  end.

Definition BUCKET_NAME (env : Env) : string :=
  or_default (MINIO_BUCKET_NAME env) "distributed-files".

(** Node Descriptor. *)
Record NodeConfig : Type := mkNode {
  endpoint : string;
  port : Z
}.

(* ================================================================== *)
(** ** Node registry: [parseMinioNodes] *)
(* ================================================================== *)

(** [const [host, portStr] = entry.split(':')]: the first piece, and the
    second one when there is one ([undefined] otherwise); further pieces are
    dropped by the destructuring. *)
Definition entryHost (entry : string) : string :=
  nth 0 (JsString.split ":" entry) EmptyString.

Definition entryPortStr (entry : string) : option string :=
  nth_error (JsString.split ":" entry) 1.

Definition invalidEntryError (entry : string) : Error :=
  newError ("Invalid MINIO_NODES entry: '" ++ entry ++ "'. Expected host:port").

(** The callback of the last [map]: [Number.parseInt(portStr, 10)] and the
    validity test [!host || Number.isNaN(port)]. *)
Definition parseEntry (entry : string) : Outcome NodeConfig :=
  let host := entryHost entry in
  let port := JsString.parseInt (entryPortStr entry) in
  match port with
  | Some p =>
      if negb (JsString.truthy host)
      then Thrown (invalidEntryError entry)
      else Returned {| endpoint := host; port := p |}
  | None => Thrown (invalidEntryError entry)
  end.

(** The chain [raw.split(',').map(s => s.trim()).filter(Boolean)]. *)
Definition explicitEntries (raw : string) : list string :=
  filter JsString.truthy (map JsString.trim (JsString.split "," raw)).

(** Local docker-compose defaults: one machine, three mapped ports. *)
Definition defaultNodes (env : Env) : list NodeConfig :=
  let endpoint := or_default (MINIO_ENDPOINT env) "localhost" in
  [ {| endpoint := endpoint; port := 9001 |};
    {| endpoint := endpoint; port := 9003 |};
    {| endpoint := endpoint; port := 9005 |} ].

Definition parseMinioNodes (env : Env) : Outcome (list NodeConfig) :=
  let raw := JsString.trim (match MINIO_NODES env with Some s => s | None => "" end) in
  if JsString.truthy raw
  then mapOutcome parseEntry (explicitEntries raw)
  else Returned (defaultNodes env).

(** A client handle is determined by the node it was built for
    ([new Minio.Client({endPoint, port, ...})]; credentials and the TLS flag
    are the same for every node), so it is identified with that node's
    descriptor. *)
Definition Client : Type := NodeConfig.

Definition getMinioNodeConfigs (env : Env) : Outcome (list NodeConfig) :=
  parseMinioNodes env.

(* ================================================================== *)
(** ** The collaborators and the monad of effects *)
(* ================================================================== *)

Definition Buffer : Type := list Byte.byte.

(** A readable stream as [for await (const chunk of stream)] sees it: the
    chunks it yields and, possibly, the error that ends it. *)
Record Stream : Type := mkStream {
  chunks : list Buffer;
  failure : option Error
}.

(** A metadata record as [listAllFiles] returns it ([id] plus the parsed
    JSON fields the healing service reads). *)
Record FileRecord : Type := mkFile {
  id : string;
  objectName : string;
  filename : string;
  mimetype : option string
}.

(** What a call on a client does once awaited: after [latency] milliseconds
    the promise settles, fulfilled or rejected.  The connection-level
    timeouts of the client library are what makes every call settle. *)
Record Reply (A : Type) : Type := mkReply {
  latency : nat;
  settled : Outcome A
}.

(** The object-store client library and the metadata store are external:
    their behaviour is a parameter.  [W] is the state of the outside world
    (nodes, network, etcd); every call may read and change it.

    - The constructor of a client contacts nobody; it validates the end
      point and the port it is given and throws [clientConfigError node]
      when it rejects them.
    - The four calls on a client take the client, the bucket, the object key
      and, for a put, the bytes and the content type placed in the metadata
      object ([buffer.length] is determined by the buffer).
    - [listAllFiles] is the function of that name of [etcdService.js], which
      answers with whatever etcd holds under the prefix ['files/']. *)
Class ObjectStore (W : Type) : Type := {
  clientConfigError : NodeConfig -> option Error;
  putObject : Client -> string -> string -> Buffer -> string -> W -> Reply unit * W;
  getObject : Client -> string -> string -> W -> Reply Stream * W;
  statObject : Client -> string -> string -> W -> Reply unit * W;
  removeObject : Client -> string -> string -> W -> Reply unit * W;
  listAllFiles : W -> Reply (list FileRecord) * W
}.

Inductive Op : Type := OpPut | OpGet | OpStat | OpRemove.

(** One call made on a client, as recorded by the instrumented semantics:
    which operation, on which client, for which key, and how it settled
    ([ev_error = None] for a fulfilled promise). *)
Record Event : Type := mkEvent {
  ev_op : Op;
  ev_client : Client;
  ev_key : string;
  ev_latency : nat;
  ev_error : option Error
}.

Definition ev_ok (ev : Event) : bool :=
  match ev_error ev with None => true | Some _ => false end.

Inductive Level : Type := LogInfo | LogError.

(** A line written by [console.log] or [console.error]. *)
Record LogLine : Type := mkLog {
  level : Level;
  text : string
}.

(** The second argument of a [console] call with two arguments: a string
    or [undefined] ([error.message]), or the error object itself. *)
Inductive LogArg : Type :=
| TextArg (s : option string)
| ErrorArg (e : Error).

(** What the runtime's console does with its arguments is external too:
    [inspect] is the rendering of an error object ([util.inspect]: its
    stack, then its own properties), [format] the substitution made when the
    first argument holds a format specifier ([util.format]). *)
Class Console : Type := {
  inspect : Error -> string;
  format : string -> LogArg -> string
}.

(** The line printed by [console.error(first, second)] with [first] a
    string.  Without a ['%'] in [first] there is nothing to substitute: the
    two arguments are joined by a space, a string as it is, [undefined] as
    the word, an error object as [inspect] renders it. *)
Definition formatted {con : Console} (first : string) (second : LogArg) : string :=
  if JsString.includes first "%"
  then format first second
  else first ++ " " ++ match second with
                       | TextArg s => show_opt s
                       | ErrorArg e => inspect e
                       end.

Section Effects.

Context {W : Type}.

(** Everything a run of the service can touch: the outside world, the time
    spent waiting, the calls issued so far, the console, and the module-level
    variable [minioClient] of the storage service. *)
Record State : Type := mkState {
  world : W;
  clock : nat;
  calls : list Event;
  console : list LogLine;
  minioClient : option Client
}.

Definition M (A : Type) : Type := State -> Outcome A * State.

Definition ret {A} (a : A) : M A := fun st => (Returned a, st).

Definition throw {A} (e : Error) : M A := fun st => (Thrown e, st).

Definition bind {A B} (m : M A) (k : A -> M B) : M B :=
  fun st =>
    match m st with
    | (Returned a, st') => k a st'
    | (Thrown e, st') => (Thrown e, st')
    end.

(** [try { m } catch (e) { ... }] with the result handed to the code after
    the block. *)
Definition attempt {A} (m : M A) : M (Outcome A) :=
  fun st => let (r, st') := m st in (Returned r, st').

Definition liftOutcome {A} (o : Outcome A) : M A :=
  fun st => (o, st).

Definition log (lvl : Level) (line : string) : M unit :=
  fun st =>
    (Returned tt,
     {| world := world st; clock := clock st; calls := calls st;
        console := console st ++ [ {| level := lvl; text := line |} ];
        minioClient := minioClient st |}).

(** The state after a call has been issued and waited for. *)
Definition afterCall (st : State) (w' : W) (waited : nat) (ev : Event) : State :=
  {| world := w'; clock := clock st + waited; calls := calls st ++ [ev];
     console := console st; minioClient := minioClient st |}.

Definition eventOf {A} (op : Op) (c : Client) (key : string) (r : Reply A) : Event :=
  {| ev_op := op; ev_client := c; ev_key := key;
     ev_latency := latency r; ev_error := thrown_error (settled r) |}.

(** [await call]: issue the call, wait until it settles. *)
Definition await {A} (op : Op) (c : Client) (key : string)
    (call : W -> Reply A * W) : M A :=
  fun st =>
    let (r, w') := call (world st) in
    (settled r, afterCall st w' (latency r) (eventOf op c key r)).

(** [await Promise.race([call, timeout])] where [timeout] rejects with
    [new Error(msg)] after [ms] milliseconds: the call wins when it settles
    before the timer is due. *)
Definition awaitRace {A} (op : Op) (c : Client) (key : string)
    (ms : nat) (msg : string) (call : W -> Reply A * W) : M A :=
  fun st =>
    let (r, w') := call (world st) in
    if Nat.ltb (latency r) ms
    then (settled r, afterCall st w' (latency r) (eventOf op c key r))
    else (Thrown (newError msg), afterCall st w' ms (eventOf op c key r)).

End Effects.

Arguments State W : clear implicits.
Arguments M W A : clear implicits.

Declare Scope js_scope.
Delimit Scope js_scope with js.
Notation "x <- m ;; k" := (bind m (fun x => k))
  (at level 61, m at next level, right associativity) : js_scope.
Notation "m ;;; k" := (bind m (fun _ => k))
  (at level 61, right associativity) : js_scope.
Local Open Scope js_scope.

(* ================================================================== *)
(** ** The storage service: [minioService.js] *)
(* ================================================================== *)

(** Result of [getFileStreamFromReplica]. *)
Record ReadResult : Type := mkRead {
  stream : Stream;
  nodeIndex : nat;
  nodePort : option Z;
  nodeEndpoint : option string
}.

(** Replica Status Record pushed by [deleteFileFromAllReplicas].  The field
    [error] is absent on success and holds [error.message] on failure (an
    absent field and an [undefined] value both read as [None]). *)
Record DeleteResult : Type := mkDelete {
  del_nodeIndex : nat;
  del_nodeEndpoint : option string;
  del_nodePort : option Z;
  success : bool;
  error : option string
}.

(** Entry pushed by [getStorageLocations]. *)
Record Location : Type := mkLocation {
  loc_nodeIndex : nat;
  loc_endpoint : option string;
  loc_port : option Z
}.

(** [nodes[i]?.endpoint] and [nodes[i]?.port]. *)
Definition endpoint_at (nodes : list NodeConfig) (i : nat) : option string :=
  option_map endpoint (nth_error nodes i).

Definition port_at (nodes : list NodeConfig) (i : nat) : option Z :=
  option_map port (nth_error nodes i).

Definition node_label (nodes : list NodeConfig) (i : nat) : string :=
  show_opt (endpoint_at nodes i) ++ ":" ++ show_port (port_at nodes i).

(** The per-node timeout of the location probe, in milliseconds. *)
Definition PROBE_TIMEOUT : nat := 3000.

Section MinioService.

Context {W : Type} {store : ObjectStore W}.
Variable env : Env.

(** [new Minio.Client({endPoint: node.endpoint, port: node.port, ...})]. *)
Definition newClient (node : NodeConfig) : Outcome Client :=
  match clientConfigError node with
  | Some e => Thrown e
  | None => Returned node
  end.

Definition getMinioClients : Outcome (list Client) :=
  match parseMinioNodes env with
  | Returned nodes => mapOutcome newClient nodes
  | Thrown e => Thrown e
  end.

Definition getMinioClient : M W Client :=
  fun st =>
    match minioClient st with
    | Some c => (Returned c, st)
    | None =>
        (Thrown (newError "MinIO client not initialized. Call initializeMinIO() first."), st)
    end.

(** The test guarding the failover of an upload: the message of the primary
    error names one of the three connection failures. *)
Definition isConnectionError (e : Error) : bool :=
  (message_includes e "EHOSTUNREACH"
   || message_includes e "ECONNREFUSED"
   || message_includes e "ETIMEDOUT")%bool.

(** The loop [for (let i = 0; i < clients.length; i++)] of the failover
    branch, entered at index [i] with [rest] the clients from [i] on. *)
Fixpoint uploadLoop (nodes : list NodeConfig) (buffer : Buffer)
    (objectName metaData : string) (i : nat) (rest : list Client)
    (lastError : Error) : M W unit :=
  match rest with
  | [] =>
      throw (newError ("Upload failed on all MinIO nodes. Last error: "
                       ++ show_opt (message lastError)))
  | c :: rest' =>
      r <- attempt (await OpPut c objectName
                      (putObject c (BUCKET_NAME env) objectName buffer metaData)) ;;
      match r with
      | Returned _ =>
          log LogInfo ("Upload succeeded via failover node: " ++ node_label nodes i) ;;;
          ret tt
      | Thrown error => uploadLoop nodes buffer objectName metaData (S i) rest' error
      end
  end.

Definition uploadFileFromBuffer (buffer : Buffer) (objectName : string)
    (contentType : option string) : M W unit :=
  let metaData := or_default contentType "application/octet-stream" in
  r <- attempt (client <- getMinioClient ;;
                await OpPut client objectName
                  (putObject client (BUCKET_NAME env) objectName buffer metaData)) ;;
  match r with
  | Returned _ => ret tt
  | Thrown primaryError =>
      if negb (isConnectionError primaryError)
      then throw primaryError
      else
        clients <- liftOutcome getMinioClients ;;
        nodes <- liftOutcome (getMinioNodeConfigs env) ;;
        uploadLoop nodes buffer objectName metaData 0 clients primaryError
  end.

(** The loop of [getFileStreamFromReplica]. *)
Fixpoint readLoop (nodes : list NodeConfig) (objectName : string) (i : nat)
    (rest : list Client) (lastError : option Error) : M W ReadResult :=
  match rest with
  | [] =>
      throw (match lastError with
             | Some e => e
             | None => newError "File not found in any replica"
             end)
  | c :: rest' =>
      r <- attempt (await OpGet c objectName
                      (getObject c (BUCKET_NAME env) objectName)) ;;
      match r with
      | Returned s =>
          ret {| stream := s; nodeIndex := i;
                 nodePort := port_at nodes i;
                 nodeEndpoint := endpoint_at nodes i |}
      | Thrown error => readLoop nodes objectName (S i) rest' (Some error)
      end
  end.

Definition getFileStreamFromReplica (objectName : string) : M W ReadResult :=
  clients <- liftOutcome getMinioClients ;;
  nodes <- liftOutcome (getMinioNodeConfigs env) ;;
  readLoop nodes objectName 0 clients None.

(** The loop of [deleteFileFromAllReplicas]; [results] is the array being
    filled. *)
Fixpoint deleteLoop (nodes : list NodeConfig) (objectName : string) (i : nat)
    (rest : list Client) (results : list DeleteResult) : M W (list DeleteResult) :=
  match rest with
  | [] => ret results
  | c :: rest' =>
      r <- attempt (await OpRemove c objectName
                      (removeObject c (BUCKET_NAME env) objectName)) ;;
      match r with
      | Returned _ =>
          deleteLoop nodes objectName (S i) rest'
            (results ++ [ {| del_nodeIndex := i;
                             del_nodeEndpoint := endpoint_at nodes i;
                             del_nodePort := port_at nodes i;
                             success := true;
                             error := None |} ])
      | Thrown err =>
          deleteLoop nodes objectName (S i) rest'
            (results ++ [ {| del_nodeIndex := i;
                             del_nodeEndpoint := endpoint_at nodes i;
                             del_nodePort := port_at nodes i;
                             success := false;
                             error := message err |} ])
      end
  end.

Definition deleteFileFromAllReplicas (objectName : string) : M W (list DeleteResult) :=
  clients <- liftOutcome getMinioClients ;;
  nodes <- liftOutcome (getMinioNodeConfigs env) ;;
  deleteLoop nodes objectName 0 clients [].

(** The loop of [getStorageLocations]: each probe races the stat call
    against a timer of [PROBE_TIMEOUT] milliseconds. *)
Fixpoint locateLoop (nodes : list NodeConfig) (objectName : string) (i : nat)
    (rest : list Client) (locations : list Location) : M W (list Location) :=
  match rest with
  | [] => ret locations
  | c :: rest' =>
      r <- attempt (awaitRace OpStat c objectName PROBE_TIMEOUT "Node check timeout"
                      (statObject c (BUCKET_NAME env) objectName)) ;;
      match r with
      | Returned _ =>
          locateLoop nodes objectName (S i) rest'
            (locations ++ [ {| loc_nodeIndex := i;
                               loc_endpoint := endpoint_at nodes i;
                               loc_port := port_at nodes i |} ])
      | Thrown _ => locateLoop nodes objectName (S i) rest' locations
      end
  end.

Definition getStorageLocations (objectName : string) : M W (list Location) :=
  clients <- liftOutcome getMinioClients ;;
  nodes <- liftOutcome (getMinioNodeConfigs env) ;;
  locateLoop nodes objectName 0 clients [].

(** The copy of [getStorageLocations] in [backend/services/minioService.js]
    awaits the stat call directly, without the timer. *)
Fixpoint locateLoopPlain (nodes : list NodeConfig) (objectName : string) (i : nat)
    (rest : list Client) (locations : list Location) : M W (list Location) :=
  match rest with
  | [] => ret locations
  | c :: rest' =>
      r <- attempt (await OpStat c objectName
                      (statObject c (BUCKET_NAME env) objectName)) ;;
      match r with
      | Returned _ =>
          locateLoopPlain nodes objectName (S i) rest'
            (locations ++ [ {| loc_nodeIndex := i;
                               loc_endpoint := endpoint_at nodes i;
                               loc_port := port_at nodes i |} ])
      | Thrown _ => locateLoopPlain nodes objectName (S i) rest' locations
      end
  end.

Definition getStorageLocationsPlain (objectName : string) : M W (list Location) :=
  clients <- liftOutcome getMinioClients ;;
  nodes <- liftOutcome (getMinioNodeConfigs env) ;;
  locateLoopPlain nodes objectName 0 clients [].

End MinioService.

(* ================================================================== *)
(** ** The healing service: one cycle ([healingService.js]) *)
(* ================================================================== *)

Section HealingCycle.

Context {W : Type} {store : ObjectStore W} {con : Console}.
Variable env : Env.

(** [await listAllFiles()]: a call on the metadata service, not on a storage
    client, so no storage event is recorded. *)
Definition awaitMetadata {A} (call : W -> Reply A * W) : M W A :=
  fun st =>
    let (r, w') := call (world st) in
    (settled r,
     {| world := w'; clock := clock st + latency r; calls := calls st;
        console := console st; minioClient := minioClient st |}).

(** The test in the catch block of the detection loop:
    [error.code === 'NoSuchKey' || error.message.includes('not found')].
    When the code differs and the message is [undefined], the method call
    throws a [TypeError]. *)
Definition isNotFound (e : Error) : Outcome bool :=
  if match code e with Some c => String.eqb c "NoSuchKey" | None => false end
  then Returned true
  else match message e with
       | Some m => Returned (JsString.includes m "not found")
       | None => Thrown (newError "Cannot read properties of undefined (reading 'includes')")
       end.

(** First loop of [healFileIfNeeded]: which nodes are missing the file. *)
Fixpoint detectLoop (nodes : list NodeConfig) (objectName : string) (i : nat)
    (rest : list Client) (missingNodes : list nat) : M W (list nat) :=
  match rest with
  | [] => ret missingNodes
  | c :: rest' =>
      r <- attempt (await OpStat c objectName
                      (statObject c (BUCKET_NAME env) objectName)) ;;
      match r with
      | Returned _ => detectLoop nodes objectName (S i) rest' missingNodes
      | Thrown error =>
          nf <- liftOutcome (isNotFound error) ;;
          if nf
          then detectLoop nodes objectName (S i) rest' (missingNodes ++ [i])
          else
            log LogInfo ("Node " ++ node_label nodes i
                         ++ " appears down, skipping healing to it") ;;;
            detectLoop nodes objectName (S i) rest' missingNodes
      end
  end.

(** Second loop: the first node outside [missingNodes] whose stat call
    succeeds becomes the source ([break]); [None] is [sourceClient] left
    [null]. *)
Fixpoint sourceLoop (objectName : string) (missingNodes : list nat) (i : nat)
    (rest : list Client) : M W (option Client) :=
  match rest with
  | [] => ret None
  | c :: rest' =>
      if negb (existsb (Nat.eqb i) missingNodes)
      then
        r <- attempt (await OpStat c objectName
                        (statObject c (BUCKET_NAME env) objectName)) ;;
        match r with
        | Returned _ => ret (Some c)
        | Thrown _ => sourceLoop objectName missingNodes (S i) rest'
        end
      else sourceLoop objectName missingNodes (S i) rest'
  end.

(** [for await (const chunk of stream) chunks.push(chunk)] followed by
    [Buffer.concat(chunks)]. *)
Definition readAll (s : Stream) : M W Buffer :=
  match failure s with
  | Some e => throw e
  | None => ret (List.concat (chunks s))
  end.

(** [copyFileToNode]; [targetClient] is [clients[nodeIndex]], [undefined]
    when the index is out of range, in which case the method call on it
    throws a [TypeError]. *)
Definition copyFileToNode (sourceClient : Client) (targetClient : option Client)
    (objectName : string) (contentType : option string) : M W unit :=
  s <- await OpGet sourceClient objectName
         (getObject sourceClient (BUCKET_NAME env) objectName) ;;
  buffer <- readAll s ;;
  let metaData := or_default contentType "application/octet-stream" in
  match targetClient with
  | Some t =>
      await OpPut t objectName (putObject t (BUCKET_NAME env) objectName buffer metaData)
  | None =>
      throw (newError "Cannot read properties of undefined (reading 'putObject')")
  end.

(** Third loop: [for (const nodeIndex of missingNodes)]. *)
Fixpoint healLoop (nodes : list NodeConfig) (clients : list Client)
    (fileId : string) (metadata : FileRecord) (sourceClient : Client)
    (todo : list nat) : M W unit :=
  match todo with
  | [] => ret tt
  | nodeIndex :: todo' =>
      r <- attempt (copyFileToNode sourceClient (nth_error clients nodeIndex)
                      (objectName metadata) (mimetype metadata) ;;;
                    log LogInfo ("Healed file " ++ fileId ++ " to node "
                                 ++ node_label nodes nodeIndex)) ;;
      match r with
      | Returned _ => healLoop nodes clients fileId metadata sourceClient todo'
      | Thrown error =>
          log LogError (formatted ("Failed to heal file " ++ fileId ++ " to node "
                                   ++ node_label nodes nodeIndex ++ ":")
                                  (TextArg (message error))) ;;;
          healLoop nodes clients fileId metadata sourceClient todo'
      end
  end.

Definition healFileIfNeeded (fileId : string) (metadata : FileRecord) : M W bool :=
  clients <- liftOutcome (getMinioClients env) ;;
  nodes <- liftOutcome (getMinioNodeConfigs env) ;;
  missingNodes <- detectLoop nodes (objectName metadata) 0 clients [] ;;
  if Nat.eqb (List.length missingNodes) 0
  then ret false
  else
    log LogInfo ("File " ++ fileId ++ " (" ++ filename metadata ++ ") missing on "
                 ++ JsString.of_nat (List.length missingNodes) ++ " nodes, healing...") ;;;
    sourceClient <- sourceLoop (objectName metadata) missingNodes 0 clients ;;
    match sourceClient with
    | None =>
        log LogError ("No source node found for file " ++ fileId) ;;;
        ret false
    | Some src =>
        healLoop nodes clients fileId metadata src missingNodes ;;;
        ret true
    end.

(** The loop [for (const file of allFiles)] of [runHealingCycle], carrying
    the two counters. *)
Fixpoint cycleLoop (files : list FileRecord) (healedCount errorCount : nat)
    : M W (nat * nat) :=
  match files with
  | [] => ret (healedCount, errorCount)
  | file :: files' =>
      r <- attempt (healFileIfNeeded (id file) file) ;;
      match r with
      | Returned wasHealed =>
          cycleLoop files' (if wasHealed then S healedCount else healedCount) errorCount
      | Thrown error =>
          log LogError (formatted ("Error healing file " ++ id file ++ ":")
                                  (TextArg (message error))) ;;;
          cycleLoop files' healedCount (S errorCount)
      end
  end.

Definition summaryLine (healedCount errorCount : nat) : string :=
  "Healing cycle completed - healed " ++ JsString.of_nat healedCount
  ++ " files, " ++ JsString.of_nat errorCount ++ " errors".

Definition runHealingCycle : M W unit :=
  r <- attempt (log LogInfo "Starting healing cycle..." ;;;
                allFiles <- awaitMetadata listAllFiles ;;
                log LogInfo ("Found " ++ JsString.of_nat (List.length allFiles)
                             ++ " files to check") ;;;
                counts <- cycleLoop allFiles 0 0 ;;
                log LogInfo (summaryLine (fst counts) (snd counts))) ;;
  match r with
  | Returned _ => ret tt
  | Thrown error =>
      log LogError (formatted "Error in healing cycle:" (ErrorArg error))
  end.

End HealingCycle.

(* ================================================================== *)
(** ** The healing service: life cycle of the [HealingService] object *)
(* ================================================================== *)

(** [start] and [stop] are synchronous; [runHealingCycle] is an async
    function whose call is not awaited, and the callback given to
    [setInterval] calls it again at every tick.  The event loop is modelled
    by a machine whose inputs are the calls made on the service, the ticks
    of registered timers and the completion of a cycle in flight.  Of a
    cycle only its beginning (the synchronous prefix up to the first
    [await]) and its end are observed here; what it does in between is
    [runHealingCycle] above. *)
Module HealingService.

(** The fields set by the constructor. *)
Record Service : Type := mkService {
  isRunning : bool;
  intervalId : option nat;
  healingInterval : Z
}.

Definition constructor : Service :=
  {| isRunning := false; intervalId := None; healingInterval := 5 * 60 * 1000 |}%Z.

(** What a method asks of the runtime, in program order. *)
Inductive Effect : Type :=
| CycleLaunched
| IntervalSet (timer : nat) (ms : Z)
| IntervalCleared (timer : nat).

(** The service object together with the runtime around it: the interval
    timers currently registered, the next timer handle, the number of
    healing cycles begun and not yet finished, the effects so far and the
    console. *)
Record Runtime : Type := mkRuntime {
  this : Service;
  timers : list nat;
  nextTimer : nat;
  cyclesInFlight : nat;
  journal : list Effect;
  output : list LogLine
}.

Definition initial : Runtime :=
  {| this := constructor; timers := []; nextTimer := 1; cyclesInFlight := 0;
     journal := []; output := [] |}.

Definition consoleLog (line : string) (rt : Runtime) : Runtime :=
  {| this := this rt; timers := timers rt; nextTimer := nextTimer rt;
     cyclesInFlight := cyclesInFlight rt; journal := journal rt;
     output := output rt ++ [ {| level := LogInfo; text := line |} ] |}.

Definition setThis (s : Service) (rt : Runtime) : Runtime :=
  {| this := s; timers := timers rt; nextTimer := nextTimer rt;
     cyclesInFlight := cyclesInFlight rt; journal := journal rt;
     output := output rt |}.

(** [this.runHealingCycle()] without [await]: the cycle begins, writes its
    first line and is suspended at [await listAllFiles()]. *)
Definition launchCycle (rt : Runtime) : Runtime :=
  {| this := this rt; timers := timers rt; nextTimer := nextTimer rt;
     cyclesInFlight := S (cyclesInFlight rt);
     journal := journal rt ++ [CycleLaunched];
     output := output rt ++ [ {| level := LogInfo; text := "Starting healing cycle..." |} ] |}.

(** [setInterval(callback, ms)]: registers a timer and returns its handle. *)
Definition setInterval (ms : Z) (rt : Runtime) : nat * Runtime :=
  (nextTimer rt,
   {| this := this rt; timers := timers rt ++ [nextTimer rt];
      nextTimer := S (nextTimer rt);
      cyclesInFlight := cyclesInFlight rt;
      journal := journal rt ++ [IntervalSet (nextTimer rt) ms];
      output := output rt |}).

Definition clearInterval (timer : nat) (rt : Runtime) : Runtime :=
  {| this := this rt;
     timers := filter (fun t => negb (Nat.eqb t timer)) (timers rt);
     nextTimer := nextTimer rt;
     cyclesInFlight := cyclesInFlight rt;
     journal := journal rt ++ [IntervalCleared timer];
     output := output rt |}.

Definition start (rt : Runtime) : Runtime :=
  if isRunning (this rt)
  then consoleLog "Healing service already running" rt
  else
    let rt := consoleLog "Starting background replication healing service..." rt in
    let rt := setThis {| isRunning := true;
                         intervalId := intervalId (this rt);
                         healingInterval := healingInterval (this rt) |} rt in
    let rt := launchCycle rt in
    let (handle, rt) := setInterval (healingInterval (this rt)) rt in
    let rt := setThis {| isRunning := isRunning (this rt);
                         intervalId := Some handle;
                         healingInterval := healingInterval (this rt) |} rt in
    consoleLog ("Healing service started - will run every "
                ++ JsString.of_Z (healingInterval (this rt) / 1000 / 60)%Z
                ++ " minutes") rt.

Definition stop (rt : Runtime) : Runtime :=
  if negb (isRunning (this rt))
  then consoleLog "Healing service not running" rt
  else
    let rt := consoleLog "Stopping background replication healing service..." rt in
    let rt := setThis {| isRunning := false;
                         intervalId := intervalId (this rt);
                         healingInterval := healingInterval (this rt) |} rt in
    match intervalId (this rt) with
    | Some handle =>
        let rt := clearInterval handle rt in
        setThis {| isRunning := isRunning (this rt);
                   intervalId := None;
                   healingInterval := healingInterval (this rt) |} rt
    | None => rt
    end.

(** What can happen next. *)
Inductive Input : Type :=
| CallStart
| CallStop
| TimerFires (timer : nat)
| CycleSettles.

(** One turn of the event loop; [None] when the input cannot occur (a timer
    that is not registered, no cycle in flight). *)
Definition step (rt : Runtime) (i : Input) : option Runtime :=
  match i with
  | CallStart => Some (start rt)
  | CallStop => Some (stop rt)
  | TimerFires timer =>
      if existsb (Nat.eqb timer) (timers rt) then Some (launchCycle rt) else None
  | CycleSettles =>
      match cyclesInFlight rt with
      | S n =>
          Some {| this := this rt; timers := timers rt; nextTimer := nextTimer rt;
                  cyclesInFlight := n; journal := journal rt; output := output rt |}
      | O => None
      end
  end.

Fixpoint run (rt : Runtime) (inputs : list Input) : option Runtime :=
  match inputs with
  | [] => Some rt
  | i :: inputs' =>
      match step rt i with
      | Some rt' => run rt' inputs'
      | None => None
      end
  end.

Definition reachable (rt : Runtime) : Prop :=
  exists inputs, run initial inputs = Some rt.

End HealingService.

(* ================================================================== *)
(** ** A scripted collaborator *)
(* ================================================================== *)

(** An outside world without memory: every call on a client is answered
    according to a fixed assignment of replies to (client, key).  It is the
    instance at which the general statements are evaluated. *)
Record Script : Type := mkScript {
  on_put : Client -> string -> Reply unit;
  on_get : Client -> string -> Reply Stream;
  on_stat : Client -> string -> Reply unit;
  on_remove : Client -> string -> Reply unit;
  on_list : Reply (list FileRecord)
}.

#[export] Instance scripted (s : Script) : ObjectStore unit := {
  clientConfigError _ := None;
  putObject c _ key _ _ w := (on_put s c key, w);
  getObject c _ key w := (on_get s c key, w);
  statObject c _ key w := (on_stat s c key, w);
  removeObject c _ key w := (on_remove s c key, w);
  listAllFiles w := (on_list s, w)
}.

(** The console of the scenarios prints an error object as its name and
    message.  No text logged in the scenarios holds a format specifier, so
    that [format] is not consulted there. *)
#[export] Instance plainConsole : Console := {
  inspect e := "Error: " ++ show_opt (message e);
  format first _ := first
}.

Definition freshState {W} (w : W) (primary : option Client) : State W :=
  {| world := w; clock := 0; calls := []; console := []; minioClient := primary |}.

(* ================================================================== *)
(** ** Scenarios *)
(* ================================================================== *)

(** The local three-node deployment: no variable set, so the registry is
    the docker-compose default. *)
Definition localEnv : Env :=
  {| MINIO_NODES := None; MINIO_ENDPOINT := None; MINIO_BUCKET_NAME := None |}.

Definition node0 : NodeConfig := {| endpoint := "localhost"; port := 9001 |}.
Definition node1 : NodeConfig := {| endpoint := "localhost"; port := 9003 |}.
Definition node2 : NodeConfig := {| endpoint := "localhost"; port := 9005 |}.

Definition sameNode (a b : NodeConfig) : bool :=
  (String.eqb (endpoint a) (endpoint b) && Z.eqb (port a) (port b))%bool.

Definition among (c : Client) (l : list Client) : bool := existsb (sameNode c) l.

(** Errors as the client library reports them. *)
Definition refused (c : Client) : Error :=
  {| code := Some "ECONNREFUSED";
     message := Some ("connect ECONNREFUSED " ++ endpoint c ++ ":"
                      ++ JsString.of_Z (port c)) |}.

Definition noSuchKey : Error :=
  {| code := Some "NoSuchKey"; message := Some "The specified key does not exist." |}.

Definition accessDenied : Error :=
  {| code := Some "AccessDenied"; message := Some "Access Denied." |}.

Definition fulfilled {A} (ms : nat) (a : A) : Reply A :=
  {| latency := ms; settled := Returned a |}.

Definition rejected {A} (ms : nat) (e : Error) : Reply A :=
  {| latency := ms; settled := Thrown e |}.

Definition helloStream : Stream :=
  {| chunks := [ [Byte.x68; Byte.x65]; [Byte.x6c; Byte.x6c; Byte.x6f] ];
     failure := None |}.

Definition fileF1 : FileRecord :=
  {| id := "f1"; objectName := "1700000000-report.pdf"; filename := "report.pdf";
     mimetype := Some "application/pdf" |}.

(** A situation of the cluster: which nodes refuse connections, which hold
    the object, which reject writes, and which answer slowly (after 5 s
    instead of 20 ms). *)
Record Scenario : Type := mkScenario {
  down : list Client;
  holding : list Client;
  writeProtected : list Client;
  slow : list Client;
  listed : list FileRecord
}.

Definition delay (sc : Scenario) (c : Client) : nat :=
  if among c (slow sc) then 5000 else 20.

Definition play (sc : Scenario) : Script :=
  {| on_put c _ :=
       if among c (down sc) then rejected (delay sc c) (refused c)
       else if among c (writeProtected sc) then rejected (delay sc c) accessDenied
       else fulfilled (delay sc c) tt;
     on_get c _ :=
       if among c (down sc) then rejected (delay sc c) (refused c)
       else if among c (holding sc) then fulfilled (delay sc c) helloStream
       else rejected (delay sc c) noSuchKey;
     on_stat c _ :=
       if among c (down sc) then rejected (delay sc c) (refused c)
       else if among c (holding sc) then fulfilled (delay sc c) tt
       else rejected (delay sc c) noSuchKey;
     on_remove c _ :=
       if among c (down sc) then rejected (delay sc c) (refused c)
       else fulfilled (delay sc c) tt;
     on_list := fulfilled 20 (listed sc) |}.

(** Node 0, the primary, refuses connections; the two others are up. *)
Definition primaryDown : Scenario :=
  {| down := [node0]; holding := []; writeProtected := []; slow := [];
     listed := [] |}.

(** *** An in-memory cluster

    A second instance of the collaborators, with memory: each node is on
    line or not and keeps the objects put to it; a remove succeeds whether
    or not the key is present, as an S3 delete does.  It serves to run the
    services end to end. *)
Record NodeState : Type := mkNodeState {
  online : bool;
  objects : list (string * (Buffer * string))
}.

Record Cluster : Type := mkCluster {
  members : list (Client * NodeState);
  catalogue : list FileRecord
}.

Fixpoint nodeState (ms : list (Client * NodeState)) (c : Client) : option NodeState :=
  match ms with
  | [] => None
  | (c', ns) :: ms' => if sameNode c c' then Some ns else nodeState ms' c
  end.

Fixpoint setNode (ms : list (Client * NodeState)) (c : Client) (ns : NodeState)
    : list (Client * NodeState) :=
  match ms with
  | [] => []
  | (c', ns') :: ms' =>
      if sameNode c c' then (c', ns) :: ms' else (c', ns') :: setNode ms' c ns
  end.

Fixpoint lookupObject (objs : list (string * (Buffer * string))) (key : string)
    : option (Buffer * string) :=
  match objs with
  | [] => None
  | (k, v) :: objs' => if String.eqb key k then Some v else lookupObject objs' key
  end.

Definition removeKey (objs : list (string * (Buffer * string))) (key : string)
    : list (string * (Buffer * string)) :=
  filter (fun kv => negb (String.eqb key (fst kv))) objs.

(** Node [c] of the cluster currently stores [key]. *)
Definition holds (w : Cluster) (c : Client) (key : string) : bool :=
  match nodeState (members w) c with
  | Some ns =>
      match lookupObject (objects ns) key with Some _ => true | None => false end
  | None => false
  end.

Definition onNode {A} (w : Cluster) (c : Client)
    (k : NodeState -> Reply A * Cluster) : Reply A * Cluster :=
  match nodeState (members w) c with
  | Some ns => if online ns then k ns else (rejected 20 (refused c), w)
  | None => (rejected 20 (refused c), w)
  end.

Definition storeOn (w : Cluster) (c : Client)
    (objs : list (string * (Buffer * string))) : Cluster :=
  {| members := setNode (members w) c {| online := true; objects := objs |};
     catalogue := catalogue w |}.

#[export] Instance inMemory : ObjectStore Cluster := {
  clientConfigError _ := None;
  putObject c _ key buffer metaData w :=
    onNode w c (fun ns =>
      (fulfilled 20 tt,
       storeOn w c ((key, (buffer, metaData)) :: removeKey (objects ns) key)));
  getObject c _ key w :=
    onNode w c (fun ns =>
      match lookupObject (objects ns) key with
      | Some (buffer, _) => (fulfilled 20 {| chunks := [buffer]; failure := None |}, w)
      | None => (rejected 20 noSuchKey, w)
      end);
  statObject c _ key w :=
    onNode w c (fun ns =>
      match lookupObject (objects ns) key with
      | Some _ => (fulfilled 20 tt, w)
      | None => (rejected 20 noSuchKey, w)
      end);
  removeObject c _ key w :=
    onNode w c (fun ns => (fulfilled 20 tt, storeOn w c (removeKey (objects ns) key)));
  listAllFiles w := (fulfilled 20 (catalogue w), w)
}.

(** Switch a node off or on, keeping what it stores. *)
Definition setOnline (c : Client) (b : bool) (w : Cluster) : Cluster :=
  {| members :=
       match nodeState (members w) c with
       | Some ns => setNode (members w) c {| online := b; objects := objects ns |}
       | None => members w
       end;
     catalogue := catalogue w |}.

(** Three empty nodes, node 0 switched off, one object known to the
    metadata service. *)
Definition threeNodes : Cluster :=
  {| members := [ (node0, {| online := false; objects := [] |});
                  (node1, {| online := true; objects := [] |});
                  (node2, {| online := true; objects := [] |}) ];
     catalogue := [ {| id := "f1"; objectName := "f1"; filename := "f1.txt";
                       mimetype := Some "text/plain" |} ] |}.

(** The outside world changes between two requests. *)
Definition meanwhile (f : Cluster -> Cluster) (st : State Cluster) : State Cluster :=
  {| world := f (world st); clock := clock st; calls := calls st;
     console := console st; minioClient := minioClient st |}.

(** Every node is up and none holds the object listed in the metadata. *)
Definition nobodyHolds : Scenario :=
  {| down := []; holding := []; writeProtected := []; slow := [];
     listed := [fileF1] |}.

(** Node 0 holds the object; nodes 1 and 2 lack it and reject every write. *)
Definition copiesFail : Scenario :=
  {| down := []; holding := [node0]; writeProtected := [node1; node2];
     slow := []; listed := [fileF1] |}.

(** All three nodes refuse connections. *)
Definition allDown : Scenario :=
  {| down := [node0; node1; node2]; holding := []; writeProtected := [];
     slow := []; listed := [] |}.

(** No node holds the object listed in the metadata, and node 1 rejects
    every call with an error that has a code and no message. *)
Definition throttled : Error := {| code := Some "SlowDown"; message := None |}.

Definition nobodyHoldsThrottled : Script :=
  {| on_put c _ := if sameNode c node1 then rejected 20 throttled else fulfilled 20 tt;
     on_get c _ := rejected 20 (if sameNode c node1 then throttled else noSuchKey);
     on_stat c _ := rejected 20 (if sameNode c node1 then throttled else noSuchKey);
     on_remove c _ := if sameNode c node1 then rejected 20 throttled else fulfilled 20 tt;
     on_list := fulfilled 20 [fileF1] |}.

(** Node 0 holds the object, node 1 lacks it and accepts writes, node 2 is
    down. *)
Definition oneMissingOneDown : Scenario :=
  {| down := [node2]; holding := [node0]; writeProtected := []; slow := [];
     listed := [fileF1] |}.

(** Nodes 1 and 2 hold the object; node 0 is down and node 1 is slow. *)
Definition degraded : Scenario :=
  {| down := [node0]; holding := [node1; node2]; writeProtected := [];
     slow := [node1]; listed := [fileF1] |}.

(* ================================================================== *)
(** ** Vocabulary of the statements *)
(* ================================================================== *)

(** The event is a call of operation [op] for [key]. *)
Definition isCallOf (op : Op) (key : string) (ev : Event) : Prop :=
  ev_op ev = op /\ ev_key ev = key.

Definition isGetOf (key : string) (ev : Event) : Prop := isCallOf OpGet key ev.


(** [error.message] of a rejected call, as stored in a status record. *)
Definition reportedError (ev : Event) : option string :=
  match ev_error ev with
  | Some e => message e
  | None => None
  end.

(** On the in-memory cluster: every node whose status record says
    [success: true] is without the key. *)
Definition absentWhereDeleted (nodes : list NodeConfig) (key : string)
    (results : list DeleteResult) (w : Cluster) : Prop :=
  forall r c, In r results -> success r = true ->
              nth_error nodes (del_nodeIndex r) = Some c -> holds w c key = false.

(** What the running flag of the healing service does guarantee: the flag
    and the timer go together. *)
Definition flagMatchesTimer (rt : HealingService.Runtime) : Prop :=
  (HealingService.isRunning (HealingService.this rt) = true /\
   exists t, HealingService.intervalId (HealingService.this rt) = Some t /\
             HealingService.timers rt = [t]%list) \/
  (HealingService.isRunning (HealingService.this rt) = false /\
   HealingService.intervalId (HealingService.this rt) = None /\
   HealingService.timers rt = []%list).

(** Every character of the string is white space (so is the empty string). *)
Fixpoint allWhite (s : string) : bool :=
  match s with
  | EmptyString => true
  | String c s' => (JsString.is_white c && allWhite s')%bool
  end.

(** Character [c] occurs in the string. *)
Fixpoint occurs (c : ascii) (s : string) : bool :=
  match s with
  | EmptyString => false
  | String c' s' => (Ascii.eqb c' c || occurs c s')%bool
  end.

(** [`${node.endpoint}:${node.port}`], the text under which the services
    log a node. *)
Definition labelOf (n : NodeConfig) : string :=
  endpoint n ++ ":" ++ JsString.of_Z (port n).

(** [pieces.join(sep)]. *)
Fixpoint joinWith (sep : string) (pieces : list string) : string :=
  match pieces with
  | [] => ""
  | p :: rest =>
      match rest with
      | [] => p
      | _ :: _ => p ++ sep ++ joinWith sep rest
      end
  end.

(** The registry written out in the format of [MINIO_NODES]: the labels
    [nodes[i].endpoint:nodes[i].port], separated by commas. *)
Definition registryText (nodes : list NodeConfig) : string :=
  joinWith "," (map (node_label nodes) (seq 0 (List.length nodes))).

(** A host name that the list format can carry: not empty, not beginning
    with white space, free of colons and commas. *)
Definition plainHost (h : string) : bool :=
  (match h with
   | EmptyString => false
   | String c _ => negb (JsString.is_white c)
   end && negb (occurs ":" h) && negb (occurs "," h))%bool.

(** [trim] leaves the string as it is, and the string is not empty. *)
Definition tidy (s : string) : Prop :=
  JsString.trimStart s = s /\ JsString.trimEnd s = s /\ s <> "".


(** Counting the effects of one kind in the journal of the healing
    service. *)
Definition intervalsSet (j : list HealingService.Effect) : nat :=
  List.length (filter (fun e => match e with
                                | HealingService.IntervalSet _ _ => true
                                | _ => false
                                end) j).

Definition intervalsCleared (j : list HealingService.Effect) : nat :=
  List.length (filter (fun e => match e with
                                | HealingService.IntervalCleared _ => true
                                | _ => false
                                end) j).

Definition cyclesLaunched (j : list HealingService.Effect) : nat :=
  List.length (filter (fun e => match e with
                                | HealingService.CycleLaunched => true
                                | _ => false
                                end) j).

(** The journal accounts for the timers and the cycles there are. *)
Definition journalBalanced (rt : HealingService.Runtime) : Prop :=
  intervalsSet (HealingService.journal rt)
  = intervalsCleared (HealingService.journal rt)
    + List.length (HealingService.timers rt) /\
  HealingService.cyclesInFlight rt <= cyclesLaunched (HealingService.journal rt).


(** Under an assignment of stat outcomes to clients: the detection loop of
    the healing service records the client as missing the object, that is,
    its stat call is rejected with an error classified as not-found. *)
Definition reportsMissing (answer : Client -> Outcome unit) (c : Client) : bool :=
  match answer c with
  | Returned _ => false
  | Thrown e =>
      match isNotFound e with
      | Returned true => true
      | _ => false
      end
  end.


(* ================================================================== *)
(** ** The storage service: initialisation and the primary-only calls *)
(* ================================================================== *)

(** The two bucket calls of the client library used at start-up; like the
    object calls, their behaviour is a parameter. *)
Class BucketAdmin (W : Type) : Type := {
  bucketExists : Client -> string -> W -> Reply bool * W;
  makeBucket : Client -> string -> string -> W -> Reply unit * W
}.

(** The timeout of the connection test of [initializeMinIO], in
    milliseconds. *)
Definition CONNECT_TIMEOUT : nat := 3000.

Section MinioPrimary.

Context {W : Type} {store : ObjectStore W} {admin : BucketAdmin W}.
Variable env : Env.

(** The assignment [minioClient = testClient]. *)
Definition setMinioClient (c : Client) : M W unit :=
  fun st =>
    (Returned tt,
     {| world := world st; clock := clock st; calls := calls st;
        console := console st; minioClient := Some c |}).

(** [await call] and [await Promise.race([call, timeout])] for a call that
    is not an object call: the journal of object calls is left as it is. *)
Definition awaitQuiet {A} (call : W -> Reply A * W) : M W A :=
  fun st =>
    let (r, w') := call (world st) in
    (settled r,
     {| world := w'; clock := clock st + latency r; calls := calls st;
        console := console st; minioClient := minioClient st |}).

Definition awaitRaceQuiet {A} (ms : nat) (msg : string)
    (call : W -> Reply A * W) : M W A :=
  fun st =>
    let (r, w') := call (world st) in
    if Nat.ltb (latency r) ms
    then (settled r,
          {| world := w'; clock := clock st + latency r; calls := calls st;
             console := console st; minioClient := minioClient st |})
    else (Thrown (newError msg),
          {| world := w'; clock := clock st + ms; calls := calls st;
             console := console st; minioClient := minioClient st |}).

Definition nodeText (node : NodeConfig) : string :=
  endpoint node ++ ":" ++ JsString.of_Z (port node).

Definition attemptLine (node : NodeConfig) : LogLine :=
  {| level := LogInfo;
     text := "Attempting to connect to MinIO at " ++ nodeText node ++ "..." |}.

(** The loop [for (const node of nodes)] of [initializeMinIO]. *)
Fixpoint connectLoop (rest : list NodeConfig) (lastError : option Error)
    : M W Client :=
  match rest with
  | [] =>
      throw (newError ("Failed to connect to any MinIO node. Last error: "
                       ++ show_opt (match lastError with
                                    | Some e => message e
                                    | None => None
                                    end)))
  | node :: rest' =>
      r <- attempt
             (log LogInfo (text (attemptLine node)) ;;;
              testClient <- liftOutcome (newClient node) ;;
              exists_ <- awaitRaceQuiet CONNECT_TIMEOUT "Connection timeout"
                           (bucketExists testClient (BUCKET_NAME env)) ;;
              setMinioClient testClient ;;;
              (if negb exists_
               then awaitQuiet (makeBucket testClient (BUCKET_NAME env) "us-east-1") ;;;
                    log LogInfo ("Bucket '" ++ BUCKET_NAME env ++ "' created successfully")
               else ret tt) ;;;
              log LogInfo ("✓ Connected to MinIO at " ++ nodeText node) ;;;
              ret testClient) ;;
      match r with
      | Returned c => ret c
      | Thrown error =>
          log LogInfo ("Failed to connect to MinIO at " ++ nodeText node ++ ": "
                       ++ show_opt (message error)) ;;;
          connectLoop rest' (Some error)
      end
  end.

Definition initializeMinIO : M W Client :=
  nodes <- liftOutcome (parseMinioNodes env) ;;
  connectLoop nodes None.

(** [getFileStream], [deleteFile] and [getFileInfo]: one call on the
    primary client. *)
Definition getFileStream (objectName : string) : M W Stream :=
  client <- getMinioClient ;;
  await OpGet client objectName (getObject client (BUCKET_NAME env) objectName).

Definition deleteFile (objectName : string) : M W unit :=
  client <- getMinioClient ;;
  await OpRemove client objectName (removeObject client (BUCKET_NAME env) objectName).

Definition getFileInfo (objectName : string) : M W unit :=
  client <- getMinioClient ;;
  await OpStat client objectName (statObject client (BUCKET_NAME env) objectName).

End MinioPrimary.

(** Under assignments of outcomes to the two bucket calls: the node answers
    the connection test in time, and the node can become the primary (it
    answers in time and its bucket is there or can be made). *)
Definition answersInTime {W : Type} {store : ObjectStore W}
    (exists_ : Client -> Reply bool) (c : Client) : bool :=
  match clientConfigError c with
  | Some _ => false
  | None =>
      (Nat.ltb (latency (exists_ c)) CONNECT_TIMEOUT
       && is_returned (settled (exists_ c)))%bool
  end.

Definition canBePrimary {W : Type} {store : ObjectStore W}
    (exists_ : Client -> Reply bool) (made : Client -> Outcome unit)
    (c : Client) : bool :=
  (answersInTime exists_ c
   && match settled (exists_ c) with
      | Returned true => true
      | Returned false => is_returned (made c)
      | Thrown _ => false
      end)%bool.

Definition isAttemptLine (line : LogLine) : bool :=
  prefix "Attempting to connect to MinIO at " (text line).

(** A scripted answer to the bucket calls. *)
#[export] Instance scriptedAdmin (exists_ : Client -> Reply bool)
    (made : Client -> Outcome unit) : BucketAdmin unit := {
  bucketExists c _ w := (exists_ c, w);
  makeBucket c _ _ w := ({| latency := 20; settled := made c |}, w)
}.

(** Node 0 refuses connections, node 1 answers that the bucket is missing
    and then refuses to make it, node 2 has the bucket. *)
Definition startupExists (c : Client) : Reply bool :=
  if sameNode c node0 then rejected 20 (refused c)
  else if sameNode c node1 then fulfilled 20 false
  else fulfilled 20 true.

Definition startupMade (c : Client) : Outcome unit := Thrown accessDenied.


(** As [startupExists], but node 2 refuses connections too. *)
Definition startupExistsNone (c : Client) : Reply bool :=
  if sameNode c node1 then fulfilled 20 false else rejected 20 (refused c).


(* ================================================================== *)
(** ** The user store: [config/database.js] *)
(* ================================================================== *)

(** The array [users] is the state; [Date.now()] and
    [new Date().toISOString()] are read by [create] and given here as
    arguments. *)
Module UserDB.

(** A user object.  The fields copied from [userData] may be missing. *)
Record User : Type := mkUser {
  id : string;
  username : option string;
  email : option string;
  password : option string;
  role : option string;
  createdAt : string
}.

(** The argument of [create]: whatever fields the caller provides; an [id]
    among them replaces the generated one, since [...userData] comes after
    [id] in the object literal. *)
Record UserData : Type := mkUserData {
  given_id : option string;
  given_username : option string;
  given_email : option string;
  given_password : option string;
  given_role : option string
}.

Definition sameText (field : option string) (value : string) : bool :=
  match field with
  | Some s => String.eqb s value
  | None => false
  end.

(** [users.find(u => u.username === username) || null], and the like. *)
Definition findByUsername (users : list User) (name : string) : option User :=
  find (fun u => sameText (username u) name) users.

Definition findByEmail (users : list User) (mail : string) : option User :=
  find (fun u => sameText (email u) mail) users.

Definition findById (users : list User) (ident : string) : option User :=
  find (fun u => String.eqb (id u) ident) users.

Definition findAll (users : list User) : list User := users.

(** [create]: the new user and the array after [users.push(newUser)]. *)
Definition create (now : Z) (iso : string) (userData : UserData)
    (users : list User) : User * list User :=
  let newUser :=
    {| id := match given_id userData with
             | Some i => i
             | None => "user-" ++ JsString.of_Z now
             end;
       username := given_username userData;
       email := given_email userData;
       password := given_password userData;
       role := given_role userData;
       createdAt := iso |} in
  (newUser, (users ++ [newUser])%list).

End UserDB.

(* ================================================================== *)
(** ** The permission checks of [routes/files.js] *)
(* ================================================================== *)

Module FilesRoute.

(** The [permissions] object of a metadata record, as far as the routes
    read it: the lists under [read] and [delete], when present. *)
Record Permissions : Type := mkPermissions {
  perm_read : option (list string);
  perm_delete : option (list string)
}.

(** The fields of a metadata record read by the checks. *)
Record Access : Type := mkAccess {
  ownerId : option string;
  permissions : option Permissions
}.

Definition isAdmin (user : UserDB.User) : bool :=
  UserDB.sameText (UserDB.role user) "admin".

Definition isOwner (user : UserDB.User) (md : Access) : bool :=
  UserDB.sameText (ownerId md) (UserDB.id user).

(** [list && list.includes(req.user.id)] under [metadata.permissions &&]. *)
Definition listed (user : UserDB.User) (l : option (list string)) : bool :=
  match l with
  | Some ids => existsb (String.eqb (UserDB.id user)) ids
  | None => false
  end.

(** Download route. *)
Definition hasReadPermission (user : UserDB.User) (md : Access) : bool :=
  (isAdmin user || isOwner user md
   || match permissions md with
      | Some p => listed user (perm_read p)
      | None => false
      end)%bool.

(** Delete route. *)
Definition hasDeletePermission (user : UserDB.User) (md : Access) : bool :=
  (isAdmin user || isOwner user md
   || match permissions md with
      | Some p => listed user (perm_delete p)
      | None => false
      end)%bool.

(** Info route: the request is refused when
    [req.user.role !== 'admin' && metadata.ownerId !== req.user.id]. *)
Definition infoAllowed (user : UserDB.User) (md : Access) : bool :=
  negb (negb (isAdmin user) && negb (isOwner user md)).

(** The access fields of the metadata the upload route writes for a file
    of [owner]. *)
Definition uploadedAccess (owner : UserDB.User) : Access :=
  {| ownerId := Some (UserDB.id owner);
     permissions := Some {| perm_read := Some [UserDB.id owner];
                            perm_delete := Some [UserDB.id owner] |} |}.

End FilesRoute.


(** Two users of the examples. *)
Definition alice : UserDB.User :=
  {| UserDB.id := "user-1700000000000"; UserDB.username := Some "alice";
     UserDB.email := Some "alice@example.com"; UserDB.password := Some "hash-a";
     UserDB.role := Some "user"; UserDB.createdAt := "2023-11-14T22:13:20.000Z" |}.

Definition bob : UserDB.User :=
  {| UserDB.id := "user-1700000000001"; UserDB.username := Some "bob";
     UserDB.email := Some "bob@example.com"; UserDB.password := Some "hash-b";
     UserDB.role := Some "user"; UserDB.createdAt := "2023-11-14T22:13:20.001Z" |}.

Definition registration (name : string) : UserDB.UserData :=
  {| UserDB.given_id := None; UserDB.given_username := Some name;
     UserDB.given_email := Some (name ++ "@example.com");
     UserDB.given_password := Some "hash"; UserDB.given_role := Some "user" |}.


(* ================================================================== *)
(** ** The metadata service: the listings of [etcdService.js] *)
(* ================================================================== *)

Module EtcdService.

(** What [JSON.parse] returns, as far as the listings look at it: [null],
    a value that is not an object (a number, a string, a boolean), or an
    object, of which the listings read the fields [id] and [ownerId]
    (string-valued when present); [content] stands for the other fields. *)
Inductive Json : Type :=
| JNull
| JOther
| JObject (own_id ownerId : option string) (content : string).

(** An element of a listing: [{ id: key.replace(prefix, ''), ...metadata }].
    An [id] field of the stored object comes later in the literal and
    replaces the one computed from the key. *)
Record Listed : Type := mkListed {
  l_id : string;
  l_value : Json
}.

(** The etcd client: a range read under a prefix, answered with the pairs
    of key and value found; its behaviour is a parameter. *)
Class Etcd (W : Type) : Type := {
  getAllPrefix : string -> W -> Reply (list (string * string)) * W
}.

(** [s.replace(pattern, '')] for a string pattern: the first occurrence is
    removed. *)
Fixpoint dropFirst (pattern s : string) : string :=
  if prefix pattern s
  then substring (String.length pattern) (String.length s - String.length pattern) s
  else match s with
       | EmptyString => EmptyString
       | String c s' => String c (dropFirst pattern s')
       end.

Definition listedId (key : string) (metadata : Json) : string :=
  match metadata with
  | JObject (Some own) _ _ => own
  | _ => dropFirst "files/" key
  end.

(** [metadata.ownerId === userId]; reading a property of [null] throws. *)
Definition ownerIs (metadata : Json) (userId : string) : Outcome bool :=
  match metadata with
  | JNull => Thrown (newError "Cannot read properties of null (reading 'ownerId')")
  | JOther => Returned false
  | JObject _ (Some owner) _ => Returned (String.eqb owner userId)
  | JObject _ None _ => Returned false
  end.

(** [`${kv.key || kv[0]}`] for a pair given as [{key, value}]. *)
Definition keyText (key : string) : string :=
  if JsString.truthy key then key else "undefined".

Section Listings.

Context {W : Type} {etcd : Etcd W} {con : Console}.

(** The module variable [etcdClient] is set or not. *)
Variable etcdClient : bool.

(** [JSON.parse]. *)
Variable JSON_parse : string -> Outcome Json.

Definition getEtcdClient : M W unit :=
  if etcdClient then ret tt
  else throw (newError "etcd client not initialized. Call initializeEtcd() first.").

(** The loops [for (const kv of kvArray)], each turn inside its own
    [try]/[catch]. *)
Fixpoint collectAll (kvs : list (string * string)) (allFiles : list Listed)
    : M W (list Listed) :=
  match kvs with
  | [] => ret allFiles
  | (key, value) :: kvs' =>
      match JSON_parse value with
      | Returned metadata =>
          collectAll kvs'
            (allFiles ++ [ {| l_id := listedId key metadata; l_value := metadata |} ])%list
      | Thrown error =>
          log LogError (formatted ("Error parsing metadata for " ++ keyText key ++ ":")
                                  (ErrorArg error)) ;;;
          collectAll kvs' allFiles
      end
  end.

Fixpoint collectOwned (userId : string) (kvs : list (string * string))
    (userFiles : list Listed) : M W (list Listed) :=
  match kvs with
  | [] => ret userFiles
  | (key, value) :: kvs' =>
      match JSON_parse value with
      | Returned metadata =>
          match ownerIs metadata userId with
          | Returned true =>
              collectOwned userId kvs'
                (userFiles ++ [ {| l_id := listedId key metadata;
                                   l_value := metadata |} ])%list
          | Returned false => collectOwned userId kvs' userFiles
          | Thrown error =>
              log LogError (formatted ("Error parsing metadata for "
                                       ++ keyText key ++ ":")
                                      (ErrorArg error)) ;;;
              collectOwned userId kvs' userFiles
          end
      | Thrown error =>
          log LogError (formatted ("Error parsing metadata for " ++ keyText key ++ ":")
                                  (ErrorArg error)) ;;;
          collectOwned userId kvs' userFiles
      end
  end.

Definition listAllFiles : M W (list Listed) :=
  getEtcdClient ;;;
  r <- attempt (allKVs <- awaitQuiet (getAllPrefix "files/") ;;
                collectAll allKVs []) ;;
  match r with
  | Returned allFiles => ret allFiles
  | Thrown error =>
      log LogError (formatted "Error listing all files:" (ErrorArg error)) ;;;
      ret []
  end.

Definition listUserFiles (userId : string) : M W (list Listed) :=
  getEtcdClient ;;;
  r <- attempt (allKVs <- awaitQuiet (getAllPrefix "files/") ;;
                collectOwned userId allKVs []) ;;
  match r with
  | Returned userFiles => ret userFiles
  | Thrown error =>
      log LogError (formatted "Error listing user files:" (ErrorArg error)) ;;;
      ret []
  end.

End Listings.

(** The element belongs to the user: its stored object names the user as
    owner. *)
Definition ownedBy (userId : string) (file : Listed) : bool :=
  match l_value file with
  | JObject _ (Some owner) _ => String.eqb owner userId
  | _ => false
  end.

(** The records of the pairs whose value parses, one per pair, in the order
    of the pairs; a pair whose value [JSON.parse] rejects gives none. *)
Definition parsedRecords (JSON_parse : string -> Outcome Json)
    (kvs : list (string * string)) : list Listed :=
  flat_map (fun kv => match JSON_parse (snd kv) with
                      | Returned metadata =>
                          [ {| l_id := listedId (fst kv) metadata;
                               l_value := metadata |} ]
                      | Thrown _ => []
                      end) kvs.

End EtcdService.

(** A scripted etcd and a toy parser for the examples: the value "null"
    parses to [null], a value "owner|content" to an object owned by
    "owner", anything else is a syntax error. *)
#[export] Instance scriptedEtcd (answer : Reply (list (string * string)))
    : EtcdService.Etcd unit := {
  EtcdService.getAllPrefix _ w := (answer, w)
}.

Definition toyParse (value : string) : Outcome EtcdService.Json :=
  if String.eqb value "null" then Returned EtcdService.JNull
  else match JsString.split "|" value with
       | [owner; content] =>
           Returned (EtcdService.JObject None (Some owner) content)
       | _ => Thrown (newError "Unexpected token in JSON")
       end.

Definition storedFiles : list (string * string) :=
  [ ("files/a1", "user-1|report.pdf"); ("files/a2", "garbage");
    ("files/a3", "user-2|notes.txt"); ("files/a4", "null");
    ("files/a5", "user-1|photo.png") ].


(* ================================================================== *)
(** * Properties *)
(* ================================================================== *)

Local Open Scope list_scope.

(** ** Node registry *)

Lemma mapOutcome_returned {A B} (f : A -> Outcome B) (xs : list A) (ys : list B) :
  mapOutcome f xs = Returned ys ->
  Forall2 (fun x y => f x = Returned y) xs ys.
Proof.
  revert ys; induction xs as [|x xs IH]; intros ys; simpl.
  - intros H; injection H as <-; constructor.
  - destruct (f x) as [y|e] eqn:Hx; [|discriminate].
    destruct (mapOutcome f xs) as [zs|e]; [|discriminate].
    intros H; injection H as <-.
    constructor; auto.
Qed.

Lemma mapOutcome_all_returned {A B} (f : A -> Outcome B) (xs : list A) :
  (forall x, In x xs -> exists y, f x = Returned y) ->
  exists ys, mapOutcome f xs = Returned ys.
Proof.
  induction xs as [|x xs IH]; intros Hall; simpl.
  - now exists [].
  - destruct (Hall x (or_introl eq_refl)) as [y ->].
    destruct IH as [ys ->]; [intros; apply Hall; now right|].
    now exists (y :: ys).
Qed.

Lemma mapOutcome_thrown {A B} (f : A -> Outcome B) (xs : list A) (e : Error) :
  mapOutcome f xs = Thrown e ->
  exists x, In x xs /\ f x = Thrown e.
Proof.
  induction xs as [|x xs IH]; simpl; [discriminate|].
  destruct (f x) as [y|e'] eqn:Hx.
  - destruct (mapOutcome f xs) as [zs|e'']; [discriminate|].
    intros H; injection H as ->.
    destruct IH as [x' [Hin Hx']]; auto.
    exists x'; auto.
  - intros H; injection H as ->. exists x; auto.
Qed.

Lemma mapOutcome_some_thrown {A B} (f : A -> Outcome B) (xs : list A) (x : A) (e : Error) :
  In x xs -> f x = Thrown e ->
  exists e', mapOutcome f xs = Thrown e'.
Proof.
  induction xs as [|x0 xs IH]; simpl; [tauto|].
  intros [->|Hin] Hx.
  - rewrite Hx. now exists e.
  - destruct (f x0) as [y|e0]; [|now exists e0].
    destruct (IH Hin Hx) as [e' ->]. now exists e'.
Qed.

Lemma parseEntry_thrown (entry : string) (e : Error) :
  parseEntry entry = Thrown e -> e = invalidEntryError entry.
Proof.
  unfold parseEntry.
  destruct (JsString.parseInt (entryPortStr entry)) as [p|];
    [destruct (negb (JsString.truthy (entryHost entry)))|]; congruence.
Qed.

Lemma parseEntry_invalid (entry : string) :
  entryHost entry = "" \/ JsString.parseInt (entryPortStr entry) = None ->
  parseEntry entry = Thrown (invalidEntryError entry).
Proof.
  unfold parseEntry. intros [H|H].
  - rewrite H. simpl. now destruct (JsString.parseInt (entryPortStr entry)).
  - now rewrite H.
Qed.

Lemma parseEntry_valid (entry : string) :
  entryHost entry <> "" ->
  JsString.parseInt (entryPortStr entry) <> None ->
  exists p, JsString.parseInt (entryPortStr entry) = Some p /\
            parseEntry entry = Returned {| endpoint := entryHost entry; port := p |}.
Proof.
  unfold parseEntry. intros Hh Hp.
  destruct (JsString.parseInt (entryPortStr entry)) as [p|]; [|congruence].
  exists p; split; auto.
  destruct (entryHost entry); [congruence|reflexivity].
Qed.

Lemma truthy_true (s : string) : JsString.truthy s = true <-> s <> "".
Proof. destruct s; simpl; split; congruence. Qed.

(** C6, as the code has it.  When [MINIO_NODES] is not blank, the result is
    computed from it alone (the single-host fallback and [MINIO_ENDPOINT]
    play no part).  Pieces that are empty after trimming are dropped; among
    the remaining entries, one whose host part is empty or whose port part
    does not begin with a decimal integer makes the call throw the
    configuration error naming such an entry; when there is none, the
    registry has one node per remaining entry, in order. *)
Theorem parseMinioNodes_explicit_list (env : Env) (raw : string) :
  MINIO_NODES env = Some raw ->
  JsString.trim raw <> "" ->
  let pieces := map JsString.trim (JsString.split "," (JsString.trim raw)) in
  let bad entry :=
    entryHost entry = "" \/ JsString.parseInt (entryPortStr entry) = None in
  (forall env', MINIO_NODES env' = Some raw ->
                parseMinioNodes env' = parseMinioNodes env)
  /\ ((exists entry, In entry pieces /\ entry <> "" /\ bad entry) ->
      exists entry, In entry pieces /\ entry <> "" /\ bad entry /\
                    parseMinioNodes env = Thrown (invalidEntryError entry))
  /\ ((forall entry, In entry pieces -> entry <> "" -> ~ bad entry) ->
      exists nodes,
        parseMinioNodes env = Returned nodes /\
        Forall2 (fun entry node =>
                   endpoint node = entryHost entry /\
                   JsString.parseInt (entryPortStr entry) = Some (port node))
                (filter JsString.truthy pieces) nodes).
Proof.
  intros Hraw Hblank pieces bad.
  assert (Heq : forall env0, MINIO_NODES env0 = Some raw ->
            parseMinioNodes env0 = mapOutcome parseEntry (filter JsString.truthy pieces)).
  { intros env0 H0. unfold parseMinioNodes. rewrite H0.
    destruct (JsString.truthy (JsString.trim raw)) eqn:Ht.
    - reflexivity.
    - apply truthy_true in Hblank. congruence. }
  assert (Hin : forall entry, In entry (filter JsString.truthy pieces) <->
                              In entry pieces /\ entry <> "").
  { intros entry. rewrite filter_In, truthy_true. tauto. }
  split; [|split].
  - intros env' H'. now rewrite (Heq env'), (Heq env).
  - intros [entry [Hp [Hne Hbad]]].
    destruct (mapOutcome_some_thrown parseEntry (filter JsString.truthy pieces)
                entry (e := invalidEntryError entry)) as [e' He'].
    + apply Hin; auto.
    + now apply parseEntry_invalid.
    + destruct (mapOutcome_thrown _ _ He') as [x [Hx Hxe]].
      pose proof (parseEntry_thrown _ Hxe) as ->.
      apply Hin in Hx. destruct Hx as [Hx1 Hx2].
      exists x. repeat split; auto.
      * unfold bad. unfold parseEntry in Hxe.
        destruct (JsString.parseInt (entryPortStr x)) as [p|]; [|now right].
        destruct (entryHost x); [now left|discriminate].
      * now rewrite (Heq env).
  - intros Hgood.
    destruct (mapOutcome_all_returned parseEntry (filter JsString.truthy pieces))
      as [nodes Hnodes].
    + intros x Hx. apply Hin in Hx. destruct Hx as [Hx1 Hx2].
      specialize (Hgood x Hx1 Hx2). unfold bad in Hgood.
      destruct (parseEntry_valid x) as [p [_ Hp]]; [tauto|tauto|].
      eexists; exact Hp.
    + exists nodes. split; [now rewrite (Heq env)|].
      apply mapOutcome_returned in Hnodes.
      eapply Forall2_impl; [|exact Hnodes].
      intros entry node Hpe. simpl in Hpe. unfold parseEntry in Hpe.
      destruct (JsString.parseInt (entryPortStr entry)) as [p|]; [|discriminate].
      destruct (negb (JsString.truthy (entryHost entry))); [discriminate|].
      injection Hpe as <-. auto.
Qed.

Lemma parseMinioNodes_explicit_list_witness :
  exists nodes,
    parseMinioNodes (mkEnv (Some "10.0.0.5:9000, 10.0.0.6:9000,") (Some "ignored") None)
    = Returned nodes /\
    Forall2 (fun entry node =>
               endpoint node = entryHost entry /\
               JsString.parseInt (entryPortStr entry) = Some (port node))
            ["10.0.0.5:9000"; "10.0.0.6:9000"] nodes.
Proof.
  apply (parseMinioNodes_explicit_list
           (mkEnv (Some "10.0.0.5:9000, 10.0.0.6:9000,") (Some "ignored") None)
           (raw := "10.0.0.5:9000, 10.0.0.6:9000,")).
  - reflexivity.
  - vm_compute. discriminate.
  - intros entry Hin Hne.
    vm_compute in Hin.
    destruct Hin as [<-|[<-|[<-|[]]]].
    + vm_compute. intros [H|H]; discriminate.
    + vm_compute. intros [H|H]; discriminate.
    + congruence.
Defined.

(** C6, as stated, fails: an empty entry of a configured list is dropped
    without any error, and the two entries around it are accepted. *)
Lemma parseMinioNodes_skips_empty_entry :
  In "" (map JsString.trim (JsString.split "," "a:1,,b:2")) /\
  parseMinioNodes (mkEnv (Some "a:1,,b:2") None None)
  = Returned [ {| endpoint := "a"; port := 1 |}; {| endpoint := "b"; port := 2 |} ].
Proof. split; [simpl; auto | reflexivity]. Qed.

(** ** Failover read path *)

Lemma newClient_all {W : Type} {store : ObjectStore W} (nodes : list NodeConfig) :
  forall clients, mapOutcome newClient nodes = Returned clients -> clients = nodes.
Proof.
  induction nodes as [|n nodes IH]; intros clients H; simpl in H.
  - now injection H.
  - unfold newClient in H at 1.
    destruct (clientConfigError n); [discriminate|].
    destruct (mapOutcome newClient nodes) as [cs|]; [|discriminate].
    injection H as <-. f_equal. now apply IH.
Qed.

(** The clients are built from the registry, one per node and in the same
    order: when the list of clients exists, it is the registry itself. *)
Lemma getMinioClients_registry {W : Type} {store : ObjectStore W} (env : Env)
    (clients : list Client) :
  getMinioClients env = Returned clients ->
  getMinioNodeConfigs env = Returned clients.
Proof.
  unfold getMinioClients, getMinioNodeConfigs.
  destruct (parseMinioNodes env) as [nodes|e]; [|discriminate].
  intros H. now rewrite (newClient_all _ H).
Qed.

Lemma last_cons_default {A} (x : A) (xs : list A) (d d' : A) :
  last (x :: xs) d = last (x :: xs) d'.
Proof.
  revert x; induction xs as [|y ys IH]; intros x; [reflexivity|].
  change (last (y :: ys) d = last (y :: ys) d'). apply IH.
Qed.

Section ReadPath.

Context {W : Type} {store : ObjectStore W}.
Variable env : Env.
Variable nodes : list NodeConfig.
Variable key : string.

Lemma readLoop_cons (i : nat) (c : Client) (rest : list Client)
    (lastError : option Error) (st : State W) :
  readLoop env nodes key i (c :: rest) lastError st =
  let (r, w') := getObject c (BUCKET_NAME env) key (world st) in
  let st1 := afterCall st w' (latency r) (eventOf OpGet c key r) in
  match settled r with
  | Returned s =>
      (Returned {| stream := s; nodeIndex := i;
                   nodePort := port_at nodes i;
                   nodeEndpoint := endpoint_at nodes i |}, st1)
  | Thrown e => readLoop env nodes key (S i) rest (Some e) st1
  end.
Proof.
  simpl. unfold bind, attempt, await.
  destruct (getObject c (BUCKET_NAME env) key (world st)) as [r w'].
  destruct (settled r); reflexivity.
Qed.

(** When the loop throws, it has called every remaining client once, in
    order, every call was rejected, and the error thrown is the one of the
    last call (the initial [lastError] when there was no call). *)
Lemma readLoop_thrown (rest : list Client) :
  forall i lastError st e st',
    readLoop env nodes key i rest lastError st = (Thrown e, st') ->
    exists evs,
      calls st' = calls st ++ evs /\
      map ev_client evs = rest /\
      Forall (fun ev => isGetOf key ev /\ ev_ok ev = false) evs /\
      e = match last (map ev_error evs) lastError with
          | Some x => x
          | None => newError "File not found in any replica"
          end.
Proof.
  induction rest as [|c rest IH]; intros i lastError st e st' Hrun.
  - simpl in Hrun. unfold throw in Hrun. injection Hrun as <- <-.
    exists []. rewrite app_nil_r. repeat split; auto.
  - rewrite readLoop_cons in Hrun.
    destruct (getObject c (BUCKET_NAME env) key (world st)) as [r w'].
    cbv zeta in Hrun.
    destruct (settled r) as [s|e0] eqn:Hr; [discriminate|].
    apply IH in Hrun. destruct Hrun as [evs [Hc [Hm [Hf He]]]].
    exists (eventOf OpGet c key r :: evs).
    simpl in Hc. rewrite <- app_assoc in Hc. simpl in Hc.
    split; [exact Hc|]. split; [simpl; now rewrite Hm|].
    split.
    + constructor; auto. unfold isGetOf, isCallOf, ev_ok, eventOf; simpl.
      rewrite Hr. simpl. auto.
    + rewrite He. simpl. rewrite Hr. simpl.
      destruct (map ev_error evs) as [|x xs]; [reflexivity|].
      now rewrite (last_cons_default x xs (Some e0) lastError).
Qed.

Variable assigned : Client -> Outcome Stream.

Hypothesis get_assigned :
  forall c w, settled (fst (getObject c (BUCKET_NAME env) key w)) = assigned c.

Lemma readLoop_assigned (rest : list Client) :
  forall i lastError st,
    exists r st' evs,
      readLoop env nodes key i rest lastError st = (r, st') /\
      calls st' = calls st ++ evs /\
      Forall (isGetOf key) evs /\
      match r with
      | Returned res =>
          exists k c,
            nth_error rest k = Some c /\
            nodeIndex res = i + k /\
            assigned c = Returned (stream res) /\
            (forall j c', j < k -> nth_error rest j = Some c' ->
                          is_returned (assigned c') = false) /\
            map ev_client evs = firstn (S k) rest /\
            nodePort res = port_at nodes (i + k) /\
            nodeEndpoint res = endpoint_at nodes (i + k)
      | Thrown _ =>
          (forall c, In c rest -> is_returned (assigned c) = false) /\
          map ev_client evs = rest
      end.
Proof.
  induction rest as [|c rest IH]; intros i lastError st.
  - simpl. unfold throw. do 2 eexists. exists [].
    split; [reflexivity|]. rewrite app_nil_r. repeat split; auto.
    intros c [].
  - rewrite readLoop_cons.
    pose proof (get_assigned c (world st)) as Hc.
    destruct (getObject c (BUCKET_NAME env) key (world st)) as [r w'].
    simpl in Hc. cbv zeta.
    destruct (settled r) as [s|e0] eqn:Hr.
    + do 2 eexists. exists [eventOf OpGet c key r].
      split; [reflexivity|]. split; [reflexivity|].
      split; [repeat constructor|].
      exists 0, c. simpl. rewrite Nat.add_0_r.
      repeat split; auto. intros j c' Hj. lia.
    + destruct (IH (S i) (Some e0)
                  (afterCall st w' (latency r) (eventOf OpGet c key r)))
        as [r' [st' [evs [Hrun [Hcalls [Hall Hres]]]]]].
      exists r', st', (eventOf OpGet c key r :: evs).
      split; [exact Hrun|].
      split; [rewrite Hcalls; simpl; now rewrite <- app_assoc|].
      split; [constructor; [split; reflexivity|exact Hall]|].
      destruct r' as [res|e'].
      * destruct Hres as [k [c0 [Hk [Hi [Ha [Hlow [Hm [Hp He]]]]]]]].
        exists (S k), c0. simpl nth_error.
        replace (i + S k) with (S i + k) by lia.
        repeat split; auto.
        -- intros [|j] c' Hj Hn; simpl in Hn.
           ++ injection Hn as <-. rewrite <- Hc. reflexivity.
           ++ apply (Hlow j); auto. lia.
        -- simpl. simpl in Hm. now rewrite Hm.
      * destruct Hres as [Hfail Hm]. split.
        -- intros c' [<-|Hin]; [rewrite <- Hc; reflexivity|auto].
        -- simpl. now rewrite Hm.
Qed.

End ReadPath.

(** C2.  Whatever outcome each node is assigned for the key, the read path
    issues get calls on a prefix of the registry, in registry order; it
    succeeds exactly when some registered node is assigned a successful
    outcome; on success the serving index is the lowest index of such a
    node, the stream is that node's, and no node after it has been
    contacted. *)
Theorem getFileStreamFromReplica_first_success
    {W : Type} {store : ObjectStore W} (env : Env) (key : string)
    (assigned : Client -> Outcome Stream) (nodes : list NodeConfig)
    (st : State W) :
  getMinioClients env = Returned nodes ->
  (forall c w, settled (fst (getObject c (BUCKET_NAME env) key w)) = assigned c) ->
  exists r st' evs,
    getFileStreamFromReplica env key st = (r, st') /\
    calls st' = calls st ++ evs /\
    Forall (isGetOf key) evs /\
    (is_returned r = true <->
     exists c, In c nodes /\ is_returned (assigned c) = true) /\
    (forall res, r = Returned res ->
       exists c,
         nth_error nodes (nodeIndex res) = Some c /\
         assigned c = Returned (stream res) /\
         (forall j c', j < nodeIndex res -> nth_error nodes j = Some c' ->
                       is_returned (assigned c') = false) /\
         map ev_client evs = firstn (S (nodeIndex res)) nodes /\
         nodePort res = Some (port c) /\
         nodeEndpoint res = Some (endpoint c)) /\
    (forall e, r = Thrown e -> map ev_client evs = nodes).
Proof.
  intros Hparse Hget.
  destruct (readLoop_assigned env nodes key assigned Hget nodes 0 None st)
    as [r [st' [evs [Hrun [Hcalls [Hall Hres]]]]]].
  exists r, st', evs.
  split.
  { unfold getFileStreamFromReplica.
    rewrite Hparse, (getMinioClients_registry _ Hparse).
    unfold bind, liftOutcome. exact Hrun. }
  split; [exact Hcalls|]. split; [exact Hall|].
  destruct r as [res|e]; simpl in Hres.
  - destruct Hres as [k [c [Hk [Hi [Ha [Hlow [Hm [Hp He]]]]]]]].
    change (0 + k) with k in *. subst k.
    split; [|split].
    + split; [intros _|reflexivity].
      exists c. split; [eapply nth_error_In; eauto|now rewrite Ha].
    + intros res' Heq. injection Heq as <-.
      exists c. repeat split; auto.
      * rewrite Hp. unfold port_at, Client in *. now rewrite Hk.
      * rewrite He. unfold endpoint_at, Client in *. now rewrite Hk.
    + discriminate.
  - destruct Hres as [Hfail Hm].
    split; [|split].
    + split; [discriminate|].
      intros [c [Hin Hok]]. rewrite (Hfail c Hin) in Hok. discriminate.
    + discriminate.
    + intros; exact Hm.
Qed.

(** C5.  When the read path fails although the registry could be built,
    every node has been tried once, in registry order, every get was
    rejected, and the error propagated is the one of the last node tried. *)
Theorem getFileStreamFromReplica_last_error
    {W : Type} {store : ObjectStore W} (env : Env) (key : string)
    (nodes : list NodeConfig) (st st' : State W) (e : Error) :
  getMinioClients env = Returned nodes ->
  nodes <> [] ->
  getFileStreamFromReplica env key st = (Thrown e, st') ->
  exists evs,
    calls st' = calls st ++ evs /\
    map ev_client evs = nodes /\
    Forall (fun ev => isGetOf key ev /\ ev_ok ev = false) evs /\
    last (map ev_error evs) None = Some e.
Proof.
  intros Hparse Hne Hrun.
  unfold getFileStreamFromReplica in Hrun.
  rewrite Hparse, (getMinioClients_registry _ Hparse) in Hrun.
  unfold bind, liftOutcome in Hrun.
  apply readLoop_thrown in Hrun.
  destruct Hrun as [evs [Hc [Hm [Hf He]]]].
  exists evs. repeat split; auto.
  destruct evs as [|ev evs]; [simpl in Hm; subst nodes; now contradiction Hne|].
  assert (Hlast : exists x, last (map ev_error (ev :: evs)) None = Some x).
  { assert (Hfe : Forall (fun o => o <> None) (map ev_error (ev :: evs))).
    { apply Forall_map. eapply Forall_impl; [|exact Hf].
      intros ev0 [_ Hok]. unfold ev_ok in Hok.
      destruct (ev_error ev0); congruence. }
    remember (map ev_error (ev :: evs)) as l eqn:Hl.
    assert (Hl' : l <> []) by (subst l; discriminate).
    clear Hl He. induction l as [|x l IHl]; [congruence|].
    inversion Hfe as [|? ? Hx Hrest]; subst.
    destruct l as [|y l].
    - simpl. destruct x; [eauto|congruence].
    - apply IHl; auto. discriminate. }
  destruct Hlast as [x Hx]. rewrite Hx in He. now subst.
Qed.

(** ** Best-effort delete and location discovery *)


Section AllNodesLoops.

Context {W : Type} {store : ObjectStore W}.
Variable env : Env.
Variable nodes : list NodeConfig.
Variable key : string.

Lemma deleteLoop_cons (i : nat) (c : Client) (rest : list Client)
    (results : list DeleteResult) (st : State W) :
  deleteLoop env nodes key i (c :: rest) results st =
  let (r, w') := removeObject c (BUCKET_NAME env) key (world st) in
  let ev := eventOf OpRemove c key r in
  deleteLoop env nodes key (S i) rest
    (results ++ [ {| del_nodeIndex := i;
                     del_nodeEndpoint := endpoint_at nodes i;
                     del_nodePort := port_at nodes i;
                     success := ev_ok ev;
                     error := reportedError ev |} ])
    (afterCall st w' (latency r) ev).
Proof.
  simpl. unfold bind, attempt, await.
  destruct (removeObject c (BUCKET_NAME env) key (world st)) as [r w'].
  unfold ev_ok, reportedError, eventOf. simpl.
  destruct (settled r); reflexivity.
Qed.





End AllNodesLoops.






(** ** Replicated write path *)

Section WritePath.

Context {W : Type} {store : ObjectStore W}.
Variable env : Env.
Variable nodes : list NodeConfig.
Variable buffer : Buffer.
Variable key : string.
Variable metaData : string.

Lemma uploadLoop_cons (i : nat) (c : Client) (rest : list Client)
    (lastError : Error) (st : State W) :
  uploadLoop env nodes buffer key metaData i (c :: rest) lastError st =
  let (r, w') := putObject c (BUCKET_NAME env) key buffer metaData (world st) in
  let st1 := afterCall st w' (latency r) (eventOf OpPut c key r) in
  match settled r with
  | Returned _ =>
      log LogInfo ("Upload succeeded via failover node: " ++ node_label nodes i)%string st1
  | Thrown e => uploadLoop env nodes buffer key metaData (S i) rest e st1
  end.
Proof.
  simpl. unfold bind, attempt, await.
  destruct (putObject c (BUCKET_NAME env) key buffer metaData (world st)) as [r w'].
  destruct (settled r) as [[]|e]; reflexivity.
Qed.

(** The failover loop visits the clients it is given from the first one on,
    stops at the first fulfilled put, and otherwise throws an error whose
    message embeds the message of the last rejection. *)
Lemma uploadLoop_spec (rest : list Client) :
  forall i lastError st,
    exists r st' evs,
      uploadLoop env nodes buffer key metaData i rest lastError st = (r, st') /\
      calls st' = calls st ++ evs /\
      Forall (isCallOf OpPut key) evs /\
      match r with
      | Returned _ =>
          exists k front ev,
            evs = front ++ [ev] /\
            map ev_client evs = firstn (S k) rest /\
            k < List.length rest /\
            Forall (fun ev => ev_ok ev = false) front /\
            ev_ok ev = true
      | Thrown e =>
          map ev_client evs = rest /\
          Forall (fun ev => ev_ok ev = false) evs /\
          exists lastSeen,
            last (map ev_error evs) (Some lastError) = Some lastSeen /\
            e = newError ("Upload failed on all MinIO nodes. Last error: "
                          ++ show_opt (message lastSeen))%string
      end.
Proof.
  induction rest as [|c rest IH]; intros i lastError st.
  - simpl. unfold throw. do 2 eexists. exists [].
    split; [reflexivity|]. rewrite app_nil_r. repeat split; auto.
    exists lastError. split; reflexivity.
  - rewrite uploadLoop_cons.
    destruct (putObject c (BUCKET_NAME env) key buffer metaData (world st)) as [r w'].
    cbv zeta.
    destruct (settled r) as [[]|e0] eqn:Hr.
    + unfold log. do 2 eexists. exists [eventOf OpPut c key r].
      split; [reflexivity|]. split; [reflexivity|].
      split; [repeat constructor|].
      exists 0, [], (eventOf OpPut c key r).
      repeat split; auto.
      * simpl. lia.
      * unfold ev_ok, eventOf. simpl. now rewrite Hr.
    + destruct (IH (S i) e0 (afterCall st w' (latency r) (eventOf OpPut c key r)))
        as [r' [st' [evs [Hrun [Hcalls [Hall Hres]]]]]].
      exists r', st', (eventOf OpPut c key r :: evs).
      assert (Hfail : ev_ok (eventOf OpPut c key r) = false).
      { unfold ev_ok, eventOf. simpl. now rewrite Hr. }
      split; [exact Hrun|].
      split; [rewrite Hcalls; simpl; now rewrite <- app_assoc|].
      split; [constructor; [split; reflexivity|exact Hall]|].
      destruct r' as [u|e'].
      * destruct Hres as [k [front [ev [Hevs [Hm [Hk [Hfront Hev]]]]]]].
        exists (S k), (eventOf OpPut c key r :: front), ev.
        repeat split; auto.
        -- now rewrite Hevs.
        -- simpl. simpl in Hm. now rewrite Hm.
        -- simpl. lia.
      * destruct Hres as [Hm [Hf [lastSeen [Hlast He]]]].
        split; [simpl; now rewrite Hm|].
        split; [constructor; auto|].
        exists lastSeen. split; [|exact He].
        cbn [map]. unfold eventOf at 1. cbn [ev_error]. rewrite Hr.
        cbn [thrown_error].
        destruct (map ev_error evs) as [|x xs]; [exact Hlast|].
        change (last (Some e0 :: x :: xs) (Some lastError))
          with (last (x :: xs) (Some lastError)).
        rewrite <- Hlast. apply last_cons_default.
Qed.

End WritePath.

(** The write path as the code has it.  A fulfilled put on the primary
    client ends the call after that single put.  A rejection whose message
    names no connection failure (or a missing primary client) is rethrown
    without any further put.  After a connection failure of the primary the
    whole registry is walked from index 0 on, the primary's node included;
    the walk ends at the first fulfilled put, which is then the only
    fulfilled put of the call, and when every put is rejected the error
    thrown embeds the message of the last rejection. *)
Lemma uploadFileFromBuffer_spec
    {W : Type} {store : ObjectStore W} (env : Env) (buffer : Buffer)
    (key : string) (contentType : option string) (nodes : list NodeConfig)
    (primary : Client) (st : State W) :
  getMinioClients env = Returned nodes ->
  minioClient st = Some primary ->
  exists r st' first evs,
    uploadFileFromBuffer env buffer key contentType st = (r, st') /\
    calls st' = calls st ++ first :: evs /\
    ev_client first = primary /\
    Forall (isCallOf OpPut key) (first :: evs) /\
    match ev_error first with
    | None => r = Returned tt /\ evs = []
    | Some primaryError =>
        if isConnectionError primaryError
        then
          match r with
          | Returned _ =>
              exists k front ev,
                evs = front ++ [ev] /\
                map ev_client evs = firstn (S k) nodes /\
                Forall (fun ev => ev_ok ev = false) front /\
                ev_ok ev = true
          | Thrown e =>
              map ev_client evs = nodes /\
              Forall (fun ev => ev_ok ev = false) evs /\
              exists lastSeen,
                last (map ev_error evs) (Some primaryError) = Some lastSeen /\
                e = newError ("Upload failed on all MinIO nodes. Last error: "
                              ++ show_opt (message lastSeen))%string
          end
        else r = Thrown primaryError /\ evs = []
    end.
Proof.
  intros Hparse Hprimary.
  unfold uploadFileFromBuffer.
  set (metaData := or_default contentType "application/octet-stream").
  unfold bind at 1. unfold attempt, bind at 1. unfold getMinioClient.
  rewrite Hprimary. unfold await.
  destruct (putObject primary (BUCKET_NAME env) key buffer metaData (world st))
    as [r0 w0].
  set (first := eventOf OpPut primary key r0).
  set (st1 := afterCall st w0 (latency r0) first).
  destruct (settled r0) as [[]|primaryError] eqn:Hr0.
  - exists (Returned tt), st1, first, [].
    repeat split; auto.
    + repeat constructor.
    + unfold first, eventOf. simpl. rewrite Hr0. simpl. auto.
  - assert (Hfirst : ev_error first = Some primaryError).
    { unfold first, eventOf. simpl. now rewrite Hr0. }
    destruct (isConnectionError primaryError) eqn:Hconn; simpl negb; cbv iota.
    + rewrite Hparse, (getMinioClients_registry _ Hparse).
      unfold bind, liftOutcome.
      destruct (uploadLoop_spec env nodes buffer key metaData nodes 0 primaryError st1)
        as [r [st' [evs [Hrun [Hcalls [Hall Hres]]]]]].
      exists r, st', first, evs.
      split; [exact Hrun|].
      split; [rewrite Hcalls; unfold st1; simpl; now rewrite <- app_assoc|].
      split; [reflexivity|].
      split; [constructor; [split; reflexivity|exact Hall]|].
      rewrite Hfirst, Hconn.
      destruct r as [u|e]; [|exact Hres].
      destruct Hres as [k [front [ev [H1 [H2 [_ [H3 H4]]]]]]].
      exists k, front, ev. auto.
    + exists (Thrown primaryError), st1, first, [].
      repeat split; auto.
      * repeat constructor.
      * rewrite Hfirst, Hconn. auto.
Qed.

(** C1 at a failing input.  Node 0 is the primary and refuses connections,
    nodes 1 and 2 are up.  The upload succeeds through node 1, but the
    failover loop has first put to node 0 a second time: the nodes walked
    after the primary's failure are all the nodes, not the remaining ones. *)
Theorem uploadFileFromBuffer_retries_primary :
  let run := uploadFileFromBuffer (store := scripted (play primaryDown)) localEnv
               [Byte.x68; Byte.x69] "f1" None (freshState tt (Some node0)) in
  fst run = Returned tt /\
  map (fun ev => (ev_op ev, ev_client ev, ev_ok ev)) (calls (snd run))
  = [ (OpPut, node0, false); (OpPut, node0, false); (OpPut, node1, true) ].
Proof. vm_compute. split; reflexivity. Qed.

(** ** Healing cycle *)

Section HealingProperties.

Context {W : Type} {store : ObjectStore W} {con : Console}.
Variable env : Env.


Lemma cycleLoop_cons (file : FileRecord) (files : list FileRecord)
    (healedCount errorCount : nat) (st : State W) :
  cycleLoop env (file :: files) healedCount errorCount st =
  match healFileIfNeeded env (id file) file st with
  | (Returned wasHealed, st') =>
      cycleLoop env files (if wasHealed then S healedCount else healedCount)
        errorCount st'
  | (Thrown error, st') =>
      cycleLoop env files healedCount (S errorCount)
        (snd (log LogError (formatted ("Error healing file " ++ id file ++ ":")
                                      (TextArg (message error))) st'))
  end.
Proof.
  simpl. unfold bind at 1. unfold attempt.
  destruct (healFileIfNeeded env (id file) file st) as [[b|e] st']; reflexivity.
Qed.


Variable nodes : list NodeConfig.
Variable key : string.

(** Every stat call on the object is rejected, node [c] answering with the
    error [answer c]. *)
Variable answer : Client -> Error.

Hypothesis stat_rejected :
  forall c w, In c nodes ->
    settled (fst (statObject c (BUCKET_NAME env) key w)) = Thrown (answer c).

Lemma detectLoop_rejected (rest : list Client) :
  (forall c, In c rest -> In c nodes) ->
  (forall c, In c rest -> exists b, isNotFound (answer c) = Returned b) ->
  forall i missingNodes st,
    exists added st',
      detectLoop env nodes key i rest missingNodes st
      = (Returned (missingNodes ++ added), st') /\
      ((exists c, In c rest /\ isNotFound (answer c) = Returned true) ->
       added <> []).
Proof.
  induction rest as [|c rest IH]; intros Hsub Hclass i missingNodes st.
  - exists [], st. simpl. rewrite app_nil_r. split; [reflexivity|].
    intros [c [[] _]].
  - simpl. unfold bind at 1. unfold attempt, await.
    pose proof (stat_rejected c (world st) (Hsub c (or_introl eq_refl))) as Hc.
    destruct (statObject c (BUCKET_NAME env) key (world st)) as [r w'].
    simpl in Hc. rewrite Hc.
    destruct (Hclass c (or_introl eq_refl)) as [b Hb].
    unfold bind at 1. unfold liftOutcome. rewrite Hb.
    assert (Hsub' : forall c0, In c0 rest -> In c0 nodes)
      by (intros; apply Hsub; now right).
    assert (Hclass' : forall c0, In c0 rest ->
              exists b0, isNotFound (answer c0) = Returned b0)
      by (intros; apply Hclass; now right).
    destruct b.
    + match goal with
      | |- context [detectLoop _ _ _ _ _ _ ?st1] =>
          destruct (IH Hsub' Hclass' (S i) (missingNodes ++ [i]) st1)
            as [added [st' [Hrun _]]]
      end.
      exists (i :: added), st'. rewrite Hrun, <- app_assoc.
      split; [reflexivity|discriminate].
    + unfold bind at 1. unfold log.
      match goal with
      | |- context [detectLoop _ _ _ _ _ _ ?st1] =>
          destruct (IH Hsub' Hclass' (S i) missingNodes st1)
            as [added [st' [Hrun Hne]]]
      end.
      exists added, st'. split; [exact Hrun|].
      intros [c0 [[<-|Hin] Hnf]]; [congruence|].
      apply Hne. eauto.
Qed.

Lemma isNotFound_thrown (e e' : Error) :
  isNotFound e = Thrown e' ->
  e' = newError "Cannot read properties of undefined (reading 'includes')".
Proof.
  unfold isNotFound.
  destruct (match code e with Some c => String.eqb c "NoSuchKey" | None => false end);
    [discriminate|].
  destruct (message e); [discriminate|]. now intros [= <-].
Qed.

(** When the error of some node can be classified neither by its code nor
    by its message, the test in the catch block throws at the first such
    node: the detection loop ends there with a [TypeError], having written
    information lines only. *)
Lemma detectLoop_rejected_throws (rest : list Client) :
  (forall c, In c rest -> In c nodes) ->
  forallb (fun c => is_returned (isNotFound (answer c))) rest = false ->
  forall i missingNodes st,
    exists st' lines,
      detectLoop env nodes key i rest missingNodes st
      = (Thrown (newError "Cannot read properties of undefined (reading 'includes')"),
         st') /\
      console st' = console st ++ lines /\
      Forall (fun l => level l = LogInfo) lines.
Proof.
  induction rest as [|c rest IH]; intros Hsub Hsome i missingNodes st;
    [discriminate|].
  assert (Hsub' : forall c0, In c0 rest -> In c0 nodes)
    by (intros; apply Hsub; now right).
  cbn [detectLoop]. unfold bind at 1. unfold attempt, await.
  pose proof (stat_rejected c (world st) (Hsub c (or_introl eq_refl))) as Hc.
  destruct (statObject c (BUCKET_NAME env) key (world st)) as [r w'].
  cbn [fst] in Hc. rewrite Hc.
  unfold bind at 1. unfold liftOutcome.
  cbn [forallb] in Hsome.
  destruct (isNotFound (answer c)) as [b|e'] eqn:Hnf.
  - cbn [is_returned andb] in Hsome. destruct b.
    + match goal with
      | |- context [detectLoop _ _ _ _ _ ?acc ?st1] =>
          destruct (IH Hsub' Hsome (S i) acc st1) as [st' [lines [Hrun [Hcons Hinfo]]]]
      end.
      exists st', lines. split; [exact Hrun|]. split; [exact Hcons|exact Hinfo].
    + unfold bind at 1. unfold log at 1.
      match goal with
      | |- context [detectLoop _ _ _ _ _ ?acc ?st1] =>
          destruct (IH Hsub' Hsome (S i) acc st1) as [st' [lines [Hrun [Hcons Hinfo]]]]
      end.
      eexists st', (_ :: lines). split; [exact Hrun|].
      split; [rewrite Hcons; cbn [console afterCall]; rewrite <- app_assoc; reflexivity|].
      constructor; [reflexivity|exact Hinfo].
  - rewrite (isNotFound_thrown _ Hnf).
    eexists. exists []. split; [reflexivity|].
    split; [cbn [console afterCall]; now rewrite app_nil_r|constructor].
Qed.

Lemma sourceLoop_rejected (missingNodes : list nat) (rest : list Client) :
  (forall c, In c rest -> In c nodes) ->
  forall i st, exists st',
    sourceLoop env key missingNodes i rest st = (Returned None, st').
Proof.
  induction rest as [|c rest IH]; intros Hsub i st.
  - now exists st.
  - assert (Hsub' : forall c0, In c0 rest -> In c0 nodes)
      by (intros; apply Hsub; now right).
    simpl. destruct (negb (existsb (Nat.eqb i) missingNodes)).
    + unfold bind at 1. unfold attempt, await.
      pose proof (stat_rejected c (world st) (Hsub c (or_introl eq_refl))) as Hc.
      destruct (statObject c (BUCKET_NAME env) key (world st)) as [r w'].
      simpl in Hc. rewrite Hc. apply IH; auto.
    + apply IH; auto.
Qed.

End HealingProperties.

(** C8, as the code has it.  Take an object for which every node rejects
    the stat call, at least one of them with a not-found error.  When every
    one of these errors can be classified (it has the code NoSuchKey or it
    carries a message), [healFileIfNeeded] writes the error line "No source
    node found for file ..." to the console and returns [false] without
    throwing, and neither counter of the cycle moves.  When one of them has
    another code and no message, the test [error.message.includes] of the
    detection loop throws a [TypeError]: [healFileIfNeeded] throws it,
    having written information lines only, and the cycle counts one error.
    In both cases the cycle goes on with the remaining objects. *)
Theorem healFileIfNeeded_no_source
    {W : Type} {store : ObjectStore W} {con : Console}
    (env : Env) (file : FileRecord)
    (nodes : list NodeConfig) (answer : Client -> Error) (st : State W) :
  getMinioClients env = Returned nodes ->
  (forall c w, In c nodes ->
     settled (fst (statObject c (BUCKET_NAME env) (objectName file) w))
     = Thrown (answer c)) ->
  (exists c, In c nodes /\ isNotFound (answer c) = Returned true) ->
  if forallb (fun c => is_returned (isNotFound (answer c))) nodes
  then
    exists st',
      healFileIfNeeded env (id file) file st = (Returned false, st') /\
      In {| level := LogError;
            text := ("No source node found for file " ++ id file)%string |}
         (console st') /\
      forall files healedCount errorCount,
        cycleLoop env (file :: files) healedCount errorCount st
        = cycleLoop env files healedCount errorCount st'
  else
    exists st' lines,
      healFileIfNeeded env (id file) file st
      = (Thrown (newError "Cannot read properties of undefined (reading 'includes')"),
         st') /\
      console st' = console st ++ lines /\
      Forall (fun l => level l = LogInfo) lines /\
      forall files healedCount errorCount,
        cycleLoop env (file :: files) healedCount errorCount st
        = cycleLoop env files healedCount (S errorCount)
            (snd (log LogError
                    (formatted ("Error healing file " ++ id file ++ ":")
                       (TextArg (message
                          (newError
                             "Cannot read properties of undefined (reading 'includes')"))))
                    st')).
Proof.
  intros Hparse Hstat Hnf.
  destruct (forallb (fun c => is_returned (isNotFound (answer c))) nodes) eqn:Hall.
  - assert (Hclass : forall c, In c nodes -> exists b, isNotFound (answer c) = Returned b).
    { intros c Hin. rewrite forallb_forall in Hall. specialize (Hall c Hin).
      destruct (isNotFound (answer c)) as [b|e]; [now exists b|discriminate]. }
    destruct (detectLoop_rejected env nodes (objectName file) answer Hstat nodes
                (fun c H => H) Hclass 0 [] st) as [missing [st1 [Hdetect Hne]]].
    specialize (Hne Hnf). simpl in Hdetect.
    assert (Hrun : exists st',
              healFileIfNeeded env (id file) file st = (Returned false, st') /\
              In {| level := LogError;
                    text := ("No source node found for file " ++ id file)%string |}
                 (console st')).
    { unfold healFileIfNeeded.
      rewrite Hparse, (getMinioClients_registry _ Hparse).
      unfold bind at 1 2 3, liftOutcome.
      rewrite Hdetect.
      destruct missing as [|m ms]; [congruence|].
      change (Nat.eqb (List.length (m :: ms)) 0) with false. cbv iota.
      unfold bind at 1. unfold log at 1. unfold bind at 1.
      match goal with
      | |- context [sourceLoop _ _ _ _ _ ?stl] =>
          destruct (sourceLoop_rejected env nodes (objectName file) answer Hstat
                      (m :: ms) nodes (fun c H => H) 0 stl) as [st2 Hsrc]
      end.
      rewrite Hsrc.
      unfold bind, log, ret. eexists. split; [reflexivity|].
      simpl. apply in_or_app. right. now left. }
    destruct Hrun as [st' [Hrun Hlog]].
    exists st'. split; [exact Hrun|]. split; [exact Hlog|].
    intros files h e. rewrite cycleLoop_cons, Hrun. reflexivity.
  - destruct (detectLoop_rejected_throws env nodes (objectName file) answer Hstat nodes
                (fun c H => H) Hall 0 [] st) as [st' [lines [Hdetect [Hcons Hinfo]]]].
    assert (Hrun : healFileIfNeeded env (id file) file st
                   = (Thrown (newError
                        "Cannot read properties of undefined (reading 'includes')"), st')).
    { unfold healFileIfNeeded.
      rewrite Hparse, (getMinioClients_registry _ Hparse).
      unfold bind at 1 2 3, liftOutcome.
      now rewrite Hdetect. }
    exists st', lines. split; [exact Hrun|]. split; [exact Hcons|].
    split; [exact Hinfo|].
    intros files h e. rewrite cycleLoop_cons, Hrun. reflexivity.
Qed.

Lemma healFileIfNeeded_no_source_witness :
  (exists st',
     healFileIfNeeded (store := scripted (play nobodyHolds)) localEnv "f1" fileF1
       (freshState tt None) = (Returned false, st') /\
     In {| level := LogError; text := "No source node found for file f1" |}
        (console st')) /\
  (exists st',
     healFileIfNeeded (store := scripted nobodyHoldsThrottled) localEnv "f1" fileF1
       (freshState tt None)
     = (Thrown (newError "Cannot read properties of undefined (reading 'includes')"),
        st') /\
     forall files healedCount errorCount,
       exists st'',
         cycleLoop (store := scripted nobodyHoldsThrottled) localEnv (fileF1 :: files)
           healedCount errorCount (freshState tt None)
         = cycleLoop (store := scripted nobodyHoldsThrottled) localEnv files
             healedCount (S errorCount) st'').
Proof.
  split.
  - pose proof (healFileIfNeeded_no_source (store := scripted (play nobodyHolds))
                  localEnv fileF1 (nodes := [node0; node1; node2])
                  (fun _ => noSuchKey) (freshState tt None)) as H.
    cbn [forallb] in H.
    change (isNotFound noSuchKey) with (@Returned bool true) in H.
    cbn [is_returned andb] in H.
    destruct H as [st' [Hrun [Hlog _]]].
    + reflexivity.
    + intros c w _. reflexivity.
    + exists node0. split; [simpl; auto|reflexivity].
    + exists st'. split; [exact Hrun|exact Hlog].
  - pose proof (healFileIfNeeded_no_source (store := scripted nobodyHoldsThrottled)
                  localEnv fileF1 (nodes := [node0; node1; node2])
                  (fun c => if sameNode c node1 then throttled else noSuchKey)
                  (freshState tt None)) as H.
    cbn [forallb] in H.
    change (sameNode node0 node1) with false in H.
    change (sameNode node1 node1) with true in H.
    change (sameNode node2 node1) with false in H.
    cbv iota in H.
    change (isNotFound noSuchKey) with (@Returned bool true) in H.
    change (isNotFound throttled)
      with (@Thrown bool (newError
              "Cannot read properties of undefined (reading 'includes')")) in H.
    cbn [is_returned andb] in H.
    destruct H as [st' [lines [Hrun [_ [_ Hcount]]]]].
    + reflexivity.
    + intros c w _. reflexivity.
    + exists node0. split; [simpl; auto|reflexivity].
    + exists st'. split; [exact Hrun|].
      intros files h e. eexists. apply Hcount.
Defined.

(** C8, as stated, fails: with one listed object that no node holds, the
    cycle ends with both counters at zero, and its summary line says so. *)
Lemma runHealingCycle_no_source_not_counted :
  let st := freshState tt None in
  let counted := cycleLoop (store := scripted (play nobodyHolds)) localEnv
                   (listed nobodyHolds) 0 0 st in
  let cycle := runHealingCycle (store := scripted (play nobodyHolds)) localEnv st in
  Forall (fun ev => ev_op ev = OpStat /\ ev_ok ev = false) (calls (snd counted)) /\
  fst counted = Returned (0, 0) /\
  last (map text (console (snd cycle))) ""%string
  = "Healing cycle completed - healed 0 files, 0 errors"%string.
Proof.
  vm_compute. split; [|split; reflexivity].
  repeat constructor.
Qed.

(** Where node 1 answers with an error that has a code and no message, the
    object is counted as an error of the cycle, and no line says that a
    source is missing. *)
Example throttled_counted_as_error :
  let cycle := runHealingCycle (store := scripted nobodyHoldsThrottled) localEnv
                 (freshState tt None) in
  map text (filter (fun l => match level l with LogError => true | LogInfo => false end)
                   (console (snd cycle)))
  = [ "Error healing file f1: Cannot read properties of undefined (reading 'includes')"
    ]%string /\
  last (map text (console (snd cycle))) ""%string
  = "Healing cycle completed - healed 0 files, 1 errors"%string.
Proof. vm_compute. split; reflexivity. Qed.


(** In the scenario of the previous lemma no copy is accepted, and the
    summary of the cycle still reports one healed file. *)
Lemma copiesFail_reported_healed :
  let cycle := runHealingCycle (store := scripted (play copiesFail)) localEnv
                 (freshState tt None) in
  Forall (fun ev => ev_op ev = OpPut -> ev_ok ev = false) (calls (snd cycle)) /\
  map (fun ev => (ev_client ev, ev_ok ev))
      (filter (fun ev => match ev_op ev with OpPut => true | _ => false end)
              (calls (snd cycle)))
  = [ (node1, false); (node2, false) ] /\
  last (map text (console (snd cycle))) ""%string
  = "Healing cycle completed - healed 1 files, 0 errors"%string.
Proof.
  vm_compute. split; [|split; reflexivity].
  repeat constructor; discriminate.
Qed.

(** ** The statements at concrete scenarios *)

Lemma getFileStreamFromReplica_first_success_witness :
  exists r st' evs,
    getFileStreamFromReplica (store := scripted (play degraded)) localEnv "f1"
      (freshState tt None) = (r, st') /\
    calls st' = evs /\
    (is_returned r = true <->
     exists c, In c [node0; node1; node2] /\
               is_returned (settled (on_get (play degraded) c "f1")) = true) /\
    (forall res, r = Returned res ->
       exists c, nth_error [node0; node1; node2] (nodeIndex res) = Some c /\
                 map ev_client evs = firstn (S (nodeIndex res)) [node0; node1; node2]).
Proof.
  destruct (getFileStreamFromReplica_first_success
              (store := scripted (play degraded)) localEnv "f1"
              (fun c => settled (on_get (play degraded) c "f1"))
              (nodes := [node0; node1; node2]) (freshState tt None))
    as [r [st' [evs [Hrun [Hcalls [_ [Hiff [Hres _]]]]]]]].
  - reflexivity.
  - intros c w. reflexivity.
  - exists r, st', evs. split; [exact Hrun|]. split; [exact Hcalls|].
    split; [exact Hiff|].
    intros res Hr. destruct (Hres res Hr) as [c [Hn [_ [_ [Hm _]]]]].
    exists c. split; [exact Hn|exact Hm].
Defined.

Lemma getFileStreamFromReplica_last_error_witness :
  exists evs,
    map ev_client evs = [node0; node1; node2] /\
    last (map ev_error evs) None = Some (refused node2).
Proof.
  pose (run := getFileStreamFromReplica (store := scripted (play allDown)) localEnv
                 "f1" (freshState tt None)).
  destruct (getFileStreamFromReplica_last_error
              (store := scripted (play allDown)) localEnv "f1"
              (nodes := [node0; node1; node2]) (freshState tt None)
              (st' := snd run) (e := refused node2))
    as [evs [_ [Hm [_ Hlast]]]].
  - reflexivity.
  - discriminate.
  - vm_compute. reflexivity.
  - exists evs. split; [exact Hm|exact Hlast].
Defined.




(** The same runs, evaluated.  Node 0 down, node 1 slow, nodes 1 and 2
    holding the object: the read is served by node 1 after one failed get,
    and discovery reports node 2 only, the probe of node 1 having lost the
    race against the timer. *)
Example degraded_read :
  let run := getFileStreamFromReplica (store := scripted (play degraded)) localEnv
               "f1" (freshState tt None) in
  option_map nodeIndex (match fst run with Returned r => Some r | Thrown _ => None end)
  = Some 1 /\
  map (fun ev => (ev_client ev, ev_ok ev)) (calls (snd run))
  = [ (node0, false); (node1, true) ].
Proof. vm_compute. split; reflexivity. Qed.

Example degraded_locate :
  let run := getStorageLocations (store := scripted (play degraded)) localEnv
               "f1" (freshState tt None) in
  fst run = Returned [ {| loc_nodeIndex := 2; loc_endpoint := Some "localhost"%string;
                          loc_port := Some 9005%Z |} ] /\
  clock (snd run) = 20 + 3000 + 20.
Proof. vm_compute. split; reflexivity. Qed.

Example allDown_read :
  fst (getFileStreamFromReplica (store := scripted (play allDown)) localEnv
         "f1" (freshState tt None))
  = Thrown {| code := Some "ECONNREFUSED"%string;
              message := Some "connect ECONNREFUSED localhost:9005"%string |}.
Proof. vm_compute. reflexivity. Qed.

Example primaryDown_delete :
  option_map (map (fun r => (del_nodeIndex r, success r, error r)))
    (match fst (deleteFileFromAllReplicas (store := scripted (play primaryDown))
                  localEnv "f1" (freshState tt None)) with
     | Returned rs => Some rs
     | Thrown _ => None
     end)
  = Some [ (0, false, Some "connect ECONNREFUSED localhost:9001"%string);
           (1, true, None); (2, true, None) ].
Proof. vm_compute. reflexivity. Qed.

(** The elementary string functions at sample inputs. *)
Example trim_ex : JsString.trim "  a:1 , " = "a:1 ,"%string.
Proof. reflexivity. Qed.

Example split_ex : JsString.split "," "a:1,,b:2" = ["a:1"; ""; "b:2"]%string.
Proof. reflexivity. Qed.

Example parseInt_ex1 : JsString.parseInt (Some " 9000abc"%string) = Some 9000%Z.
Proof. reflexivity. Qed.

Example parseInt_ex2 : JsString.parseInt None = None.
Proof. reflexivity. Qed.

Example includes_ex :
  JsString.includes "connect ECONNREFUSED 10.0.0.5:9000" "ECONNREFUSED" = true.
Proof. reflexivity. Qed.

Example lenient_entries :
  parseMinioNodes (mkEnv (Some "h:12ab , g:7:8"%string) None None)
  = Returned [ {| endpoint := "h"; port := 12 |}; {| endpoint := "g"; port := 7 |} ].
Proof. reflexivity. Qed.

Example rejected_entries :
  parseMinioNodes (mkEnv (Some "a:1,b"%string) None None)
  = Thrown (invalidEntryError "b") /\
  parseMinioNodes (mkEnv (Some ":9000"%string) None None)
  = Thrown (invalidEntryError ":9000").
Proof. split; reflexivity. Qed.

(** ** Life cycle of the healing service *)

Import HealingService.

(** C9.  On a stopped service [start] sets the running flag, launches one
    healing cycle and only then registers the periodic timer, whose handle
    it keeps.  On a running service [start] writes one line to the console
    and changes nothing else: no field, no timer, no cycle. *)
Theorem start_from_stopped_and_again (rt : Runtime) :
  (isRunning (this rt) = false ->
   isRunning (this (start rt)) = true /\
   intervalId (this (start rt)) = Some (nextTimer rt) /\
   timers (start rt) = timers rt ++ [nextTimer rt] /\
   cyclesInFlight (start rt) = S (cyclesInFlight rt) /\
   journal (start rt)
   = journal rt ++ [CycleLaunched;
                    IntervalSet (nextTimer rt) (healingInterval (this rt))]) /\
  (isRunning (this rt) = true ->
   this (start rt) = this rt /\
   timers (start rt) = timers rt /\
   nextTimer (start rt) = nextTimer rt /\
   cyclesInFlight (start rt) = cyclesInFlight rt /\
   journal (start rt) = journal rt /\
   output (start rt)
   = output rt ++ [ {| level := LogInfo; text := "Healing service already running" |} ]).
Proof.
  split; intros Hflag; unfold start; rewrite Hflag.
  - cbn. rewrite <- app_assoc. repeat split; reflexivity.
  - cbn. repeat split; reflexivity.
Qed.

Lemma start_from_stopped_and_again_witness :
  (isRunning (this (start initial)) = true /\
   journal (start initial) = [CycleLaunched; IntervalSet 1 300000%Z]) /\
  (cyclesInFlight (start (start initial)) = 1 /\
   timers (start (start initial)) = [1]).
Proof.
  split.
  - destruct (proj1 (start_from_stopped_and_again initial) eq_refl)
      as [H1 [_ [_ [_ H5]]]].
    split; [exact H1|exact H5].
  - destruct (proj2 (start_from_stopped_and_again (start initial)) eq_refl)
      as [_ [H2 [_ [H4 _]]]].
    split; [exact H4|exact H2].
Defined.

Lemma step_preserves_flagMatchesTimer (rt rt' : Runtime) (i : Input) :
  flagMatchesTimer rt -> step rt i = Some rt' -> flagMatchesTimer rt'.
Proof.
  intros Hinv Hstep. destruct i as [| |t|]; simpl in Hstep.
  - injection Hstep as <-.
    destruct Hinv as [[Hr [t [Hi Ht]]]|[Hr [Hi Ht]]]; unfold start; rewrite Hr.
    + left. cbn. eauto.
    + left. cbn. rewrite Ht. eauto.
  - injection Hstep as <-.
    destruct Hinv as [[Hr [t [Hi Ht]]]|[Hr [Hi Ht]]]; unfold stop; rewrite Hr.
    + right. cbn. rewrite Hi. cbn. rewrite Ht. cbn.
      rewrite Nat.eqb_refl. auto.
    + right. cbn. auto.
  - destruct (existsb (Nat.eqb t) (timers rt)); [|discriminate].
    injection Hstep as <-. exact Hinv.
  - destruct (cyclesInFlight rt); [discriminate|].
    injection Hstep as <-. exact Hinv.
Qed.

Lemma run_preserves_flagMatchesTimer (inputs : list Input) :
  forall rt rt',
    flagMatchesTimer rt -> run rt inputs = Some rt' -> flagMatchesTimer rt'.
Proof.
  induction inputs as [|i inputs IH]; intros rt rt' Hinv Hrun; simpl in Hrun.
  - now injection Hrun as <-.
  - destruct (step rt i) as [rt1|] eqn:Hstep; [|discriminate].
    eapply IH; [|exact Hrun].
    eapply step_preserves_flagMatchesTimer; eauto.
Qed.

(** C7, as the code has it.  In every state the service can reach, the
    running flag is set exactly when one interval timer is registered, and
    there is never more than one; a [start] call on a running service
    launches no cycle and registers no timer.  A tick of the registered
    timer launches a cycle whatever the number of cycles in flight. *)
Theorem running_flag_guards_start_only (rt : Runtime) :
  reachable rt ->
  List.length (timers rt) <= 1 /\
  (isRunning (this rt) = true <-> timers rt <> []) /\
  (isRunning (this rt) = true ->
   cyclesInFlight (start rt) = cyclesInFlight rt /\ timers (start rt) = timers rt) /\
  (forall t, In t (timers rt) ->
     exists rt', step rt (TimerFires t) = Some rt' /\
                 cyclesInFlight rt' = S (cyclesInFlight rt)).
Proof.
  intros [inputs Hrun].
  assert (Hinv : flagMatchesTimer rt).
  { eapply run_preserves_flagMatchesTimer; [|exact Hrun].
    right. repeat split. }
  split; [|split; [|split]].
  - destruct Hinv as [[_ [t [_ ->]]]|[_ [_ ->]]]; simpl; lia.
  - destruct Hinv as [[Hr [t [_ Ht]]]|[Hr [_ Ht]]]; rewrite Hr, Ht;
      split; congruence.
  - intros Hr. unfold start. rewrite Hr. split; reflexivity.
  - intros t Hin. simpl.
    assert (Hex : existsb (Nat.eqb t) (timers rt) = true).
    { apply existsb_exists. exists t. split; [exact Hin|apply Nat.eqb_refl]. }
    rewrite Hex. eexists. split; reflexivity.
Qed.

Lemma running_flag_guards_start_only_witness :
  List.length (timers (start initial)) <= 1 /\
  cyclesInFlight (start (start initial)) = cyclesInFlight (start initial).
Proof.
  destruct (running_flag_guards_start_only (rt := start initial))
    as [Hone [_ [Hstart _]]].
  - exists [CallStart]. reflexivity.
  - split; [exact Hone|]. exact (proj1 (Hstart eq_refl)).
Defined.

(** C7, as stated, fails.  A tick of the timer while the first cycle is
    still in flight begins a second one; so does a [start] that follows a
    [stop], both calls made before the first cycle has finished. *)
Lemma healing_cycles_overlap :
  (exists rt, run initial [CallStart; TimerFires 1] = Some rt /\
              cyclesInFlight rt = 2) /\
  (exists rt, run initial [CallStart; CallStop; CallStart] = Some rt /\
              cyclesInFlight rt = 2).
Proof.
  split; eexists; split; reflexivity.
Qed.

(** ** Supplements *)

Lemma locateLoopPlain_agrees
    {W : Type} {store : ObjectStore W} (env : Env) (nodes : list NodeConfig)
    (key : string) (rest : list Client) :
  (forall c w, latency (fst (statObject c (BUCKET_NAME env) key w)) < PROBE_TIMEOUT) ->
  forall i locations st,
    locateLoopPlain env nodes key i rest locations st
    = locateLoop env nodes key i rest locations st.
Proof.
  intros Hfast.
  induction rest as [|c rest IH]; intros i locations st; [reflexivity|].
  simpl. unfold bind, attempt, await, awaitRace.
  pose proof (Hfast c (world st)) as Hc.
  destruct (statObject c (BUCKET_NAME env) key (world st)) as [r w'].
  simpl in Hc. apply Nat.ltb_lt in Hc. rewrite Hc.
  destruct (settled r); apply IH.
Qed.

(** The copy of the discovery without the timer answers as the one with it
    whenever every stat call settles within the timeout window. *)
Lemma getStorageLocationsPlain_agrees
    {W : Type} {store : ObjectStore W} (env : Env) (key : string) (st : State W) :
  (forall c w, latency (fst (statObject c (BUCKET_NAME env) key w)) < PROBE_TIMEOUT) ->
  getStorageLocationsPlain env key st = getStorageLocations env key st.
Proof.
  intros Hfast.
  unfold getStorageLocationsPlain, getStorageLocations, bind, liftOutcome.
  destruct (getMinioClients env) as [clients|e]; [|reflexivity].
  destruct (getMinioNodeConfigs env) as [nodes|e]; [|reflexivity].
  now apply locateLoopPlain_agrees.
Qed.

Lemma sameNode_eq (a b : NodeConfig) : sameNode a b = true <-> a = b.
Proof.
  unfold sameNode. rewrite andb_true_iff, String.eqb_eq, Z.eqb_eq.
  destruct a, b; simpl. split; [intros [-> ->]; reflexivity|].
  intros H; injection H; auto.
Qed.

Lemma lookupObject_removeKey (objs : list (string * (Buffer * string))) (key : string) :
  lookupObject (removeKey objs key) key = None.
Proof.
  induction objs as [|[k v] objs IH]; [reflexivity|].
  unfold removeKey. simpl. destruct (String.eqb key k) eqn:Hk; simpl.
  - exact IH.
  - rewrite Hk. exact IH.
Qed.

Lemma nodeState_setNode (ms : list (Client * NodeState)) (c c' : Client)
    (ns : NodeState) :
  nodeState (setNode ms c ns) c'
  = if sameNode c' c
    then match nodeState ms c with Some _ => Some ns | None => None end
    else nodeState ms c'.
Proof.
  induction ms as [|[c0 ns0] ms IH]; simpl.
  - now destruct (sameNode c' c).
  - destruct (sameNode c c0) eqn:H0; simpl.
    + apply sameNode_eq in H0. subst c0.
      now destruct (sameNode c' c).
    + rewrite IH. destruct (sameNode c' c) eqn:H1.
      * apply sameNode_eq in H1. subst c'. now rewrite H0.
      * reflexivity.
Qed.

(** On the in-memory cluster a fulfilled remove leaves the node without the
    key, and no remove makes any node hold it. *)
Lemma removeObject_inMemory (w : Cluster) (c c' : Client) (bucket key : string) :
  let (r, w') := removeObject c bucket key w in
  (is_returned (settled r) = true -> holds w' c key = false) /\
  (holds w c' key = false -> holds w' c' key = false).
Proof.
  simpl. unfold onNode.
  destruct (nodeState (members w) c) as [ns|] eqn:Hns;
    [destruct (online ns)|]; try (split; [discriminate|auto]).
  split.
  - intros _. unfold holds, storeOn. simpl.
    rewrite nodeState_setNode, Hns.
    assert (Hrefl : sameNode c c = true) by now apply sameNode_eq.
    rewrite Hrefl. simpl. now rewrite lookupObject_removeKey.
  - unfold holds, storeOn. simpl. rewrite nodeState_setNode, Hns.
    destruct (sameNode c' c) eqn:Hc.
    + intros _. simpl. now rewrite lookupObject_removeKey.
    + auto.
Qed.

Lemma deleteLoop_inMemory (env : Env) (nodes : list NodeConfig) (key : string)
    (rest : list Client) :
  forall i results st results' st',
    (forall k c, nth_error rest k = Some c -> nth_error nodes (i + k) = Some c) ->
    absentWhereDeleted nodes key results (world st) ->
    deleteLoop env nodes key i rest results st = (Returned results', st') ->
    absentWhereDeleted nodes key results' (world st').
Proof.
  induction rest as [|c rest IH]; intros i results st results' st' Hsuffix Hinv Hrun.
  - simpl in Hrun. injection Hrun as <- <-. exact Hinv.
  - rewrite deleteLoop_cons in Hrun.
    pose proof (fun c' => removeObject_inMemory (world st) c c' (BUCKET_NAME env) key)
      as Hremove.
    destruct (removeObject c (BUCKET_NAME env) key (world st)) as [r w'].
    cbv zeta in Hrun. apply IH in Hrun; [exact Hrun| |].
    + intros k c0 Hk. replace (S i + k) with (i + S k) by lia.
      now apply Hsuffix.
    + intros rec c0 Hin Hok Hnth. simpl.
      apply in_app_or in Hin. destruct Hin as [Hin|[<-|[]]].
      * apply (proj2 (Hremove c0)). eapply Hinv; eauto.
      * simpl in Hok, Hnth.
        assert (Hc : nth_error nodes i = Some c).
        { specialize (Hsuffix 0 c eq_refl). now rewrite Nat.add_0_r in Hsuffix. }
        unfold Client in *. rewrite Hc in Hnth. injection Hnth as <-.
        apply (proj1 (Hremove c)).
        unfold ev_ok, eventOf in Hok. simpl in Hok.
        destruct (settled r); [reflexivity|discriminate].
Qed.

(** On the in-memory cluster, after [deleteFileFromAllReplicas] every node
    whose record says [success: true] no longer stores the key. *)
Lemma deleteFileFromAllReplicas_removes (env : Env) (key : string)
    (nodes : list NodeConfig) (results : list DeleteResult)
    (st st' : State Cluster) :
  getMinioClients env = Returned nodes ->
  deleteFileFromAllReplicas env key st = (Returned results, st') ->
  absentWhereDeleted nodes key results (world st').
Proof.
  intros Hclients Hrun.
  unfold deleteFileFromAllReplicas in Hrun.
  rewrite Hclients, (getMinioClients_registry _ Hclients) in Hrun.
  unfold bind, liftOutcome in Hrun.
  eapply deleteLoop_inMemory; [| |exact Hrun].
  - intros k c Hk. exact Hk.
  - intros r c [].
Qed.

(** Deleting twice: the second call finds every reachable node already
    without the key and reports success again. *)
Example delete_twice :
  let st0 := freshState (setOnline node0 true threeNodes) (Some node0) in
  let st1 := snd (uploadFileFromBuffer localEnv [Byte.x68; Byte.x69] "f1" None st0) in
  let first := deleteFileFromAllReplicas localEnv "f1" st1 in
  let second := deleteFileFromAllReplicas localEnv "f1" (snd first) in
  option_map (map success)
    (match fst first with Returned rs => Some rs | Thrown _ => None end)
  = Some [true; true; true] /\
  option_map (map success)
    (match fst second with Returned rs => Some rs | Thrown _ => None end)
  = Some [true; true; true].
Proof. vm_compute. split; reflexivity. Qed.

(** Three nodes, node 0 (the primary) switched off.  The upload of "f1"
    succeeds through node 1; discovery then reports node 1 alone; once
    node 0 is back, one healing cycle copies the object to nodes 0 and 2
    and discovery reports the three nodes. *)
Example write_locate_heal_locate :
  let st0 := freshState threeNodes (Some node0) in
  let written := uploadFileFromBuffer localEnv [Byte.x68; Byte.x69] "f1"
                   (Some "text/plain"%string) st0 in
  let located := getStorageLocations localEnv "f1" (snd written) in
  let st3 := meanwhile (setOnline node0 true) (snd located) in
  let healed := runHealingCycle localEnv st3 in
  let relocated := getStorageLocations localEnv "f1" (snd healed) in
  fst written = Returned tt /\
  option_map (map loc_nodeIndex)
    (match fst located with Returned ls => Some ls | Thrown _ => None end)
  = Some [1] /\
  last (map text (console (snd healed))) ""%string
  = "Healing cycle completed - healed 1 files, 0 errors"%string /\
  option_map (map loc_nodeIndex)
    (match fst relocated with Returned ls => Some ls | Thrown _ => None end)
  = Some [0; 1; 2].
Proof. vm_compute. repeat split; reflexivity. Qed.

Example start_console :
  map text (output (start initial))
  = [ "Starting background replication healing service...";
      "Starting healing cycle...";
      "Healing service started - will run every 5 minutes" ]%string.
Proof. vm_compute. reflexivity. Qed.

Example stop_clears_timer :
  option_map (fun rt => (isRunning (this rt), timers rt, journal rt))
    (run initial [CallStart; CallStop])
  = Some (false, [], [CycleLaunched; IntervalSet 1 300000%Z; IntervalCleared 1]).
Proof. vm_compute. reflexivity. Qed.

(* ================================================================== *)
(** * Further properties of the services *)
(* ================================================================== *)

(** ** Replicated write path, continued *)

Lemma uploadFileFromBuffer_spec_witness :
  exists r st' first evs,
    uploadFileFromBuffer (store := scripted (play primaryDown)) localEnv
      [Byte.x68; Byte.x69] "f1" None (freshState tt (Some node0)) = (r, st') /\
    calls st' = first :: evs /\
    ev_client first = node0 /\
    Forall (isCallOf OpPut "f1") (first :: evs).
Proof.
  destruct (uploadFileFromBuffer_spec (store := scripted (play primaryDown))
              localEnv [Byte.x68; Byte.x69] "f1" None
              (nodes := [node0; node1; node2]) (primary := node0)
              (freshState tt (Some node0)))
    as [r [st' [first [evs [Hrun [Hcalls [Hfirst [Hall _]]]]]]]].
  - reflexivity.
  - reflexivity.
  - exists r, st', first, evs. repeat split; assumption.
Defined.

Lemma filter_all_failed (evs : list Event) :
  Forall (fun ev => ev_ok ev = false) evs -> filter ev_ok evs = [].
Proof.
  induction 1 as [|ev evs Hev _ IH]; [reflexivity|].
  simpl. now rewrite Hev.
Qed.

(** Whatever the nodes, the configuration and the primary client are, one
    call of [uploadFileFromBuffer] issues put calls for the given key only,
    at most one of them is fulfilled, and the call returns exactly when one
    is; the fulfilled put is then the last call made. *)
Theorem uploadFileFromBuffer_single_write
    {W : Type} {store : ObjectStore W} (env : Env) (buffer : Buffer)
    (key : string) (contentType : option string) (st : State W) :
  exists r st' evs,
    uploadFileFromBuffer env buffer key contentType st = (r, st') /\
    calls st' = calls st ++ evs /\
    Forall (isCallOf OpPut key) evs /\
    List.length (filter ev_ok evs) <= 1 /\
    (is_returned r = true <-> List.length (filter ev_ok evs) = 1) /\
    (is_returned r = true ->
     exists front ev, evs = front ++ [ev] /\ ev_ok ev = true /\
                      Forall (fun ev => ev_ok ev = false) front).
Proof.
  unfold uploadFileFromBuffer.
  set (metaData := or_default contentType "application/octet-stream").
  unfold bind at 1. unfold attempt, bind at 1. unfold getMinioClient.
  destruct (minioClient st) as [primary|].
  2:{ simpl. unfold throw. do 2 eexists. exists [].
      split; [reflexivity|]. rewrite app_nil_r.
      repeat split; auto; simpl; try lia; discriminate. }
  unfold await.
  destruct (putObject primary (BUCKET_NAME env) key buffer metaData (world st))
    as [r0 w0].
  set (first := eventOf OpPut primary key r0).
  set (st1 := afterCall st w0 (latency r0) first).
  assert (Hcall : isCallOf OpPut key first) by (split; reflexivity).
  destruct (settled r0) as [[]|primaryError] eqn:Hr0.
  - assert (Hok : ev_ok first = true).
    { unfold first, ev_ok, eventOf. simpl. now rewrite Hr0. }
    exists (Returned tt), st1, [first].
    split; [reflexivity|]. split; [reflexivity|].
    split; [repeat constructor; apply Hcall|].
    simpl. rewrite Hok. simpl.
    repeat split; auto.
    intros _. exists [], first. repeat split; auto.
  - assert (Hko : ev_ok first = false).
    { unfold first, ev_ok, eventOf. simpl. now rewrite Hr0. }
    assert (Hfailed : forall e,
              exists r st' evs,
                (Thrown e : Outcome unit, st1) = (r, st') /\
                calls st' = calls st ++ evs /\
                Forall (isCallOf OpPut key) evs /\
                List.length (filter ev_ok evs) <= 1 /\
                (is_returned r = true <-> List.length (filter ev_ok evs) = 1) /\
                (is_returned r = true ->
                 exists front ev, evs = front ++ [ev] /\ ev_ok ev = true /\
                                  Forall (fun ev => ev_ok ev = false) front)).
    { intros e. exists (Thrown e), st1, [first].
      split; [reflexivity|]. split; [reflexivity|].
      split; [repeat constructor; apply Hcall|].
      simpl. rewrite Hko. simpl.
      repeat split; auto; discriminate. }
    destruct (isConnectionError primaryError); simpl negb; cbv iota;
      [|apply Hfailed].
    unfold bind at 1. unfold liftOutcome at 1.
    destruct (getMinioClients env) as [clients|e] eqn:Hclients; [|apply Hfailed].
    unfold bind at 1. unfold liftOutcome.
    rewrite (getMinioClients_registry _ Hclients).
    destruct (uploadLoop_spec env clients buffer key metaData clients 0
                primaryError st1)
      as [r [st' [evs [Hrun [Hcalls [Hall Hres]]]]]].
    exists r, st', (first :: evs).
    split; [exact Hrun|].
    split; [rewrite Hcalls; unfold st1; simpl; now rewrite <- app_assoc|].
    split; [constructor; assumption|].
    simpl filter. rewrite Hko.
    destruct r as [u|e].
    + destruct Hres as [k [front [ev [Hevs [_ [_ [Hfront Hev]]]]]]].
      assert (Hone : filter ev_ok evs = [ev]).
      { rewrite Hevs, filter_app, (filter_all_failed Hfront). simpl.
        now rewrite Hev. }
      rewrite Hone. simpl.
      repeat split; auto.
      intros _. exists (first :: front), ev.
      rewrite Hevs. repeat split; auto.
    + destruct Hres as [_ [Hf _]].
      rewrite (filter_all_failed Hf). simpl.
      repeat split; auto; discriminate.
Qed.

(** Before [initializeMinIO] has set the primary client, an upload throws
    the "not initialized" error at once: that error is not of the
    connection class, so no node is contacted and nothing is logged. *)
Theorem uploadFileFromBuffer_requires_primary
    {W : Type} {store : ObjectStore W} (env : Env) (buffer : Buffer)
    (key : string) (contentType : option string) (st : State W) :
  minioClient st = None ->
  uploadFileFromBuffer env buffer key contentType st
  = (Thrown (newError "MinIO client not initialized. Call initializeMinIO() first."),
     st).
Proof.
  intros Hnone. unfold uploadFileFromBuffer.
  unfold bind at 1. unfold attempt, bind at 1. unfold getMinioClient.
  rewrite Hnone. reflexivity.
Qed.

Lemma uploadFileFromBuffer_requires_primary_witness :
  fst (uploadFileFromBuffer (store := scripted (play primaryDown)) localEnv
         [Byte.x68] "f1" None (freshState tt None))
  = Thrown (newError "MinIO client not initialized. Call initializeMinIO() first.").
Proof.
  rewrite (uploadFileFromBuffer_requires_primary
             (store := scripted (play primaryDown)) localEnv [Byte.x68] "f1" None
             (freshState tt None) eq_refl).
  reflexivity.
Defined.

(** ** Node registry, continued *)

Lemma trimStart_allWhite (s : string) :
  allWhite s = true -> JsString.trimStart s = ""%string.
Proof.
  induction s as [|c s IH]; [reflexivity|].
  simpl. destruct (JsString.is_white c); [exact IH|discriminate].
Qed.

(** An unset, empty or all-white-space [MINIO_NODES] selects the three
    local ports 9001, 9003 and 9005 on [MINIO_ENDPOINT] (on localhost when
    that one is unset or empty); the call does not throw. *)
Theorem parseMinioNodes_fallback (env : Env) :
  match MINIO_NODES env with
  | Some raw => allWhite raw = true
  | None => True
  end ->
  parseMinioNodes env
  = Returned
      (map (fun p => {| endpoint := match MINIO_ENDPOINT env with
                                    | Some h => if String.eqb h "" then "localhost" else h
                                    | None => "localhost"
                                    end%string;
                        port := p |})
           [9001; 9003; 9005]%Z).
Proof.
  intros Hblank. unfold parseMinioNodes.
  assert (Hraw : JsString.trim (match MINIO_NODES env with
                                | Some s => s | None => ""%string end) = ""%string).
  { destruct (MINIO_NODES env) as [raw|]; [|reflexivity].
    unfold JsString.trim. now rewrite (trimStart_allWhite _ Hblank). }
  rewrite Hraw. simpl. unfold defaultNodes, or_default.
  destruct (MINIO_ENDPOINT env) as [h|]; [|reflexivity].
  destruct h; reflexivity.
Qed.

Lemma parseMinioNodes_fallback_witness :
  parseMinioNodes (mkEnv (Some "  "%string) (Some "10.0.0.9"%string) None)
  = Returned [ {| endpoint := "10.0.0.9"; port := 9001 |};
               {| endpoint := "10.0.0.9"; port := 9003 |};
               {| endpoint := "10.0.0.9"; port := 9005 |} ]%Z.
Proof.
  exact (parseMinioNodes_fallback
           (mkEnv (Some "  "%string) (Some "10.0.0.9"%string) None) eq_refl).
Defined.

Lemma occurs_split_piece (sep c : ascii) (s : string) :
  forall p, In p (JsString.split sep s) -> occurs c p = true -> occurs c s = true.
Proof.
  induction s as [|a s IH]; intros p Hin Hp; simpl in Hin.
  - destruct Hin as [<-|[]]. discriminate.
  - destruct (Ascii.eqb a sep).
    + destruct Hin as [<-|Hin]; [discriminate|].
      simpl. rewrite (IH p Hin Hp). apply orb_true_r.
    + destruct (JsString.split sep s) as [|q qs] eqn:Hs.
      * destruct Hin as [<-|[]]. simpl in Hp. simpl.
        rewrite orb_false_r in Hp. now rewrite Hp.
      * destruct Hin as [<-|Hin].
        -- simpl in Hp. simpl.
           destruct (Ascii.eqb a c); [reflexivity|].
           simpl in Hp. simpl. apply (IH q); [now left|exact Hp].
        -- simpl. rewrite (IH p); [apply orb_true_r|now right|exact Hp].
Qed.

Lemma split_piece_free (sep : ascii) (s : string) :
  Forall (fun p => occurs sep p = false) (JsString.split sep s).
Proof.
  induction s as [|a s IH]; simpl.
  - repeat constructor.
  - destruct (Ascii.eqb a sep) eqn:Ha.
    + constructor; [reflexivity|exact IH].
    + destruct (JsString.split sep s) as [|q qs].
      * constructor; [|constructor]. simpl. now rewrite Ha.
      * inversion IH as [|? ? Hq Hqs]; subst.
        constructor; [|exact Hqs]. simpl. now rewrite Ha, Hq.
Qed.

Lemma occurs_trimStart (c : ascii) (s : string) :
  occurs c (JsString.trimStart s) = true -> occurs c s = true.
Proof.
  induction s as [|a s IH]; [discriminate|].
  simpl. destruct (JsString.is_white a).
  - intros H. rewrite (IH H). apply orb_true_r.
  - auto.
Qed.

Lemma occurs_trimEnd (c : ascii) (s : string) :
  occurs c (JsString.trimEnd s) = true -> occurs c s = true.
Proof.
  induction s as [|a s IH]; [discriminate|].
  simpl. destruct (JsString.trimEnd s) as [|b r].
  - destruct (JsString.is_white a); [discriminate|].
    simpl. rewrite orb_false_r. intros ->. reflexivity.
  - intros H. simpl in H.
    destruct (Ascii.eqb a c); [reflexivity|].
    simpl in H. simpl. apply IH. exact H.
Qed.

Lemma occurs_trim (c : ascii) (s : string) :
  occurs c (JsString.trim s) = true -> occurs c s = true.
Proof.
  intros H. apply occurs_trimStart, occurs_trimEnd, H.
Qed.

Lemma entryHost_in_split (entry : string) :
  In (entryHost entry) (JsString.split ":" entry).
Proof.
  unfold entryHost.
  destruct (JsString.split ":" entry) as [|p ps] eqn:Hs.
  - destruct entry as [|a s]; simpl in Hs; [discriminate|].
    destruct (Ascii.eqb a ":"); [discriminate|].
    destruct (JsString.split ":" s); discriminate.
  - now left.
Qed.

(** Every node of a registry read from an explicit list has a non-empty
    end point that contains neither a colon nor a comma, and the registry
    has at most one node per comma-separated piece of the variable. *)
Theorem parseMinioNodes_endpoints (env : Env) (raw : string) (nodes : list NodeConfig) :
  MINIO_NODES env = Some raw ->
  JsString.trim raw <> ""%string ->
  parseMinioNodes env = Returned nodes ->
  Forall (fun n => endpoint n <> ""%string /\
                   occurs ":" (endpoint n) = false /\
                   occurs "," (endpoint n) = false) nodes /\
  List.length nodes <= List.length (JsString.split "," (JsString.trim raw)).
Proof.
  intros Hraw Hblank Hrun.
  unfold parseMinioNodes in Hrun. rewrite Hraw in Hrun.
  destruct (JsString.truthy (JsString.trim raw)) eqn:Ht;
    [|apply truthy_true in Hblank; congruence].
  apply mapOutcome_returned in Hrun.
  split.
  - assert (Hentries : Forall (fun e => occurs "," e = false)
                         (explicitEntries (JsString.trim raw))).
    { unfold explicitEntries. apply Forall_forall. intros e He.
      apply filter_In in He. destruct He as [He _].
      apply in_map_iff in He. destruct He as [p [<- Hp]].
      pose proof (split_piece_free "," (JsString.trim raw)) as Hfree.
      rewrite Forall_forall in Hfree. specialize (Hfree p Hp).
      destruct (occurs "," (JsString.trim p)) eqn:Ho; [|reflexivity].
      apply occurs_trim in Ho. congruence. }
    revert Hentries. induction Hrun as [|e n es ns Hen _ IH]; intros Hentries.
    + constructor.
    + inversion Hentries as [|? ? He Hes]; subst.
      constructor; [|apply IH; exact Hes].
      unfold parseEntry in Hen.
      destruct (JsString.parseInt (entryPortStr e)) as [p|]; [|discriminate].
      destruct (JsString.truthy (entryHost e)) eqn:Hh; simpl in Hen; [|discriminate].
      injection Hen as <-. simpl.
      split; [now apply truthy_true|].
      pose proof (entryHost_in_split e) as Hin.
      split.
      * pose proof (split_piece_free ":" e) as Hfree.
        rewrite Forall_forall in Hfree. now apply Hfree.
      * destruct (occurs "," (entryHost e)) eqn:Ho; [|reflexivity].
        rewrite (occurs_split_piece ":" "," e _ Hin Ho) in He. discriminate.
  - rewrite <- (Forall2_length Hrun). unfold explicitEntries.
    etransitivity; [apply filter_length_le|]. now rewrite length_map.
Qed.

Lemma parseMinioNodes_endpoints_witness :
  Forall (fun n => endpoint n <> ""%string /\
                   occurs ":" (endpoint n) = false /\
                   occurs "," (endpoint n) = false)
         [ {| endpoint := "h"; port := 12 |}; {| endpoint := "g"; port := 7 |} ]%Z.
Proof.
  apply (parseMinioNodes_endpoints (mkEnv (Some "h:12ab , g:7:8"%string) None None)
           (raw := "h:12ab , g:7:8"%string)).
  - reflexivity.
  - vm_compute. discriminate.
  - reflexivity.
Defined.

Lemma digit_char (d : nat) :
  d < 10 ->
  let c := ascii_of_nat (48 + d) in
  JsString.is_digit c = true /\ JsString.digit_val c = Z.of_nat d /\
  JsString.is_white c = false /\ Ascii.eqb c ":" = false /\
  Ascii.eqb c "-" = false /\ Ascii.eqb c "+" = false.
Proof.
  intros Hd.
  do 10 (destruct d as [|d]; [repeat split; reflexivity|]). lia.
Qed.

Lemma digits_nat_digits (fuel : nat) :
  forall n acc,
    n < fuel ->
    JsString.digits None (JsString.nat_digits fuel n acc)
    = JsString.digits (Some (Z.of_nat n)) acc.
Proof.
  induction fuel as [|fuel IH]; intros n acc Hn; [lia|].
  assert (Hd : n mod 10 < 10) by (apply Nat.mod_upper_bound; lia).
  destruct (digit_char Hd) as [Hdig [Hval _]].
  pose proof (Nat.div_mod_eq n 10) as Hdm.
  cbn [JsString.nat_digits].
  remember (ascii_of_nat (48 + n mod 10)) as c eqn:Hc.
  destruct (n / 10) as [|q] eqn:Hq.
  - cbn [JsString.digits]. rewrite Hdig, Hval. do 2 f_equal. lia.
  - rewrite IH by lia.
    cbn [JsString.digits]. rewrite Hdig, Hval. do 2 f_equal. lia.
Qed.

Lemma nat_digits_head (fuel n : nat) (acc : string) :
  exists d rest, d < 10 /\
    JsString.nat_digits (S fuel) n acc = String (ascii_of_nat (48 + d)) rest.
Proof.
  revert n acc. induction fuel as [|fuel IH]; intros n acc.
  - exists (n mod 10), acc. split; [apply Nat.mod_upper_bound; lia|].
    cbn [JsString.nat_digits]. now destruct (n / 10).
  - change (JsString.nat_digits (S (S fuel)) n acc)
      with (match n / 10 with
            | O => String (ascii_of_nat (48 + n mod 10)) acc
            | q => JsString.nat_digits (S fuel) q
                     (String (ascii_of_nat (48 + n mod 10)) acc)
            end).
    destruct (n / 10) as [|q].
    + exists (n mod 10), acc. split; [apply Nat.mod_upper_bound; lia|reflexivity].
    + apply IH.
Qed.

Lemma nat_digits_no_colon (fuel : nat) :
  forall n acc, occurs ":" acc = false ->
                occurs ":" (JsString.nat_digits fuel n acc) = false.
Proof.
  induction fuel as [|fuel IH]; intros n acc Hacc; [exact Hacc|].
  assert (Hd : n mod 10 < 10) by (apply Nat.mod_upper_bound; lia).
  destruct (digit_char Hd) as [_ [_ [_ [Hcolon _]]]].
  assert (Hacc' : occurs ":" (String (ascii_of_nat (48 + n mod 10)) acc) = false).
  { cbn [occurs]. now rewrite Hcolon, Hacc. }
  cbn [JsString.nat_digits].
  destruct (n / 10); [exact Hacc'|now apply IH].
Qed.

Lemma parseInt10_digit_head (c : ascii) (rest : string) :
  JsString.is_white c = false ->
  Ascii.eqb c "-" = false ->
  Ascii.eqb c "+" = false ->
  JsString.parseInt10 (String c rest) = JsString.digits None (String c rest).
Proof.
  intros Hwhite Hminus Hplus.
  unfold JsString.parseInt10. cbn [JsString.trimStart]. rewrite Hwhite.
  destruct c as [[|] [|] [|] [|] [|] [|] [|] [|]];
    try reflexivity; discriminate.
Qed.

Lemma parseInt10_of_nat (n : nat) :
  JsString.parseInt10 (JsString.of_nat n) = Some (Z.of_nat n).
Proof.
  unfold JsString.of_nat.
  pose proof (digits_nat_digits (fuel := S n) (n := n) ""%string
                ltac:(lia)) as Hdigits.
  destruct (nat_digits_head n n ""%string) as [d [rest [Hd Hhead]]].
  destruct (digit_char Hd) as [_ [_ [Hwhite [_ [Hminus Hplus]]]]].
  rewrite Hhead in *.
  rewrite (@parseInt10_digit_head _ _ Hwhite Hminus Hplus). exact Hdigits.
Qed.

Lemma parseInt10_of_Z (z : Z) :
  JsString.parseInt10 (JsString.of_Z z) = Some z.
Proof.
  destruct z as [|p|p]; cbn [JsString.of_Z].
  - reflexivity.
  - rewrite parseInt10_of_nat. now rewrite positive_nat_Z.
  - pose proof (parseInt10_of_nat (Pos.to_nat p)) as Hp.
    unfold JsString.of_nat in *.
    destruct (nat_digits_head (Pos.to_nat p) (Pos.to_nat p) ""%string)
      as [d [rest [Hd Hhead]]].
    destruct (digit_char Hd) as [_ [_ [Hwhite [_ [Hminus Hplus]]]]].
    rewrite Hhead in *.
    rewrite (@parseInt10_digit_head _ _ Hwhite Hminus Hplus) in Hp.
    change (("-" ++ String (ascii_of_nat (48 + d)) rest)%string)
      with (String "-" (String (ascii_of_nat (48 + d)) rest)).
    unfold JsString.parseInt10.
    change (JsString.trimStart (String "-" (String (ascii_of_nat (48 + d)) rest)))
      with (String "-" (String (ascii_of_nat (48 + d)) rest)).
    cbv iota beta. rewrite Hp. cbn [option_map]. now rewrite positive_nat_Z.
Qed.

Lemma of_Z_no_colon (z : Z) : occurs ":" (JsString.of_Z z) = false.
Proof.
  destruct z as [|p|p]; simpl JsString.of_Z; [reflexivity| |].
  - apply nat_digits_no_colon. reflexivity.
  - simpl. apply nat_digits_no_colon. reflexivity.
Qed.

Lemma split_no_separator (sep : ascii) (s : string) :
  occurs sep s = false -> JsString.split sep s = [s].
Proof.
  induction s as [|a s IH]; [reflexivity|].
  simpl. destruct (Ascii.eqb a sep); [discriminate|].
  simpl. intros H. now rewrite (IH H).
Qed.

Lemma split_host_port (h r : string) :
  occurs ":" h = false ->
  JsString.split ":" (h ++ ":" ++ r)%string = h :: JsString.split ":" r.
Proof.
  induction h as [|a h IH]; intros Hh.
  - reflexivity.
  - simpl in Hh. destruct (Ascii.eqb a ":") eqn:Ha; [discriminate|].
    simpl in Hh. simpl. rewrite Ha.
    change (String ":" r) with (":" ++ r)%string.
    now rewrite (IH Hh).
Qed.

Lemma parseEntry_label (n : NodeConfig) :
  endpoint n <> ""%string ->
  occurs ":" (endpoint n) = false ->
  parseEntry (labelOf n) = Returned n.
Proof.
  intros Hne Hcolon.
  unfold labelOf, parseEntry, entryHost, entryPortStr.
  rewrite (@split_host_port _ (JsString.of_Z (port n)) Hcolon).
  rewrite (@split_no_separator _ _ (of_Z_no_colon (port n))).
  cbn [nth nth_error]. unfold JsString.parseInt.
  rewrite parseInt10_of_Z.
  destruct n as [h p]. cbn [endpoint port] in *.
  destruct h as [|a h]; [congruence|reflexivity].
Qed.

Lemma node_labels (l : list NodeConfig) :
  forall pre,
    map (node_label (pre ++ l)) (seq (List.length pre) (List.length l))
    = map labelOf l.
Proof.
  induction l as [|n l IH]; intros pre; [reflexivity|].
  cbn [List.length seq map]. f_equal.
  - unfold node_label, endpoint_at, port_at.
    rewrite nth_error_app2 by lia. rewrite Nat.sub_diag. reflexivity.
  - specialize (IH (pre ++ [n])).
    rewrite <- app_assoc, length_app in IH. cbn [List.length app] in IH.
    rewrite Nat.add_1_r in IH. exact IH.
Qed.

Lemma str_app_assoc (a b c : string) :
  ((a ++ b) ++ c = a ++ (b ++ c))%string.
Proof.
  induction a as [|x a IH]; [reflexivity|]. cbn [append]. now rewrite IH.
Qed.

Lemma occurs_app (c : ascii) (a b : string) :
  occurs c (a ++ b)%string = (occurs c a || occurs c b)%bool.
Proof.
  induction a as [|x a IH]; [reflexivity|].
  cbn [append occurs]. rewrite IH. apply orb_assoc.
Qed.

Lemma trimStart_length (s : string) :
  String.length (JsString.trimStart s) <= String.length s.
Proof.
  induction s as [|c s IH]; [apply le_n|].
  cbn [JsString.trimStart]. destruct (JsString.is_white c).
  - cbn [String.length]. lia.
  - apply le_n.
Qed.

Lemma trimStart_app (a b : string) :
  a <> ""%string -> JsString.trimStart a = a ->
  JsString.trimStart (a ++ b)%string = (a ++ b)%string.
Proof.
  destruct a as [|c a]; [congruence|]. intros _.
  cbn [append JsString.trimStart].
  destruct (JsString.is_white c); [|reflexivity].
  intros H. pose proof (trimStart_length a) as Hlen.
  rewrite H in Hlen. cbn [String.length] in Hlen. lia.
Qed.

Lemma trimEnd_app (a b : string) :
  b <> ""%string -> JsString.trimEnd b = b ->
  JsString.trimEnd (a ++ b)%string = (a ++ b)%string.
Proof.
  intros Hb Ht. induction a as [|c a IH]; [exact Ht|].
  cbn [append JsString.trimEnd]. rewrite IH.
  destruct (a ++ b)%string eqn:Hab; [|reflexivity].
  destruct a; cbn [append] in Hab; [congruence|discriminate].
Qed.

Lemma trimEnd_nowhite (s : string) :
  Forall (fun c => JsString.is_white c = false) (list_ascii_of_string s) ->
  JsString.trimEnd s = s.
Proof.
  induction s as [|c s IH]; [reflexivity|].
  cbn [list_ascii_of_string]. intros H. inversion H as [|? ? Hc Hs]; subst.
  cbn [JsString.trimEnd]. rewrite (IH Hs).
  destruct s; [now rewrite Hc|reflexivity].
Qed.

Lemma nowhite_tidy (s : string) :
  s <> ""%string ->
  Forall (fun c => JsString.is_white c = false) (list_ascii_of_string s) ->
  tidy s.
Proof.
  intros Hne Hall. split; [|split; [now apply trimEnd_nowhite|exact Hne]].
  destruct s as [|c s]; [congruence|].
  cbn [list_ascii_of_string] in Hall. inversion Hall as [|? ? Hc _]; subst.
  cbn [JsString.trimStart]. now rewrite Hc.
Qed.

Lemma tidy_trim (s : string) : tidy s -> JsString.trim s = s.
Proof.
  intros [Hs [He _]]. unfold JsString.trim. now rewrite Hs, He.
Qed.

Lemma tidy_between (a m b : string) :
  tidy a -> tidy b -> tidy (a ++ m ++ b)%string.
Proof.
  intros [Has [_ Hane]] [_ [Hbe Hbne]]. split; [|split].
  - now apply trimStart_app.
  - rewrite <- str_app_assoc. now apply trimEnd_app.
  - destruct a; [congruence|discriminate].
Qed.

Lemma digit_not_comma (d : nat) :
  d < 10 -> Ascii.eqb (ascii_of_nat (48 + d)) "," = false.
Proof.
  intros Hd. do 10 (destruct d as [|d]; [reflexivity|]). lia.
Qed.

Lemma nat_digits_no_comma (fuel : nat) :
  forall n acc, occurs "," acc = false ->
                occurs "," (JsString.nat_digits fuel n acc) = false.
Proof.
  induction fuel as [|fuel IH]; intros n acc Hacc; [exact Hacc|].
  assert (Hd : n mod 10 < 10) by (apply Nat.mod_upper_bound; lia).
  assert (Hacc' : occurs "," (String (ascii_of_nat (48 + n mod 10)) acc) = false).
  { cbn [occurs]. now rewrite (digit_not_comma Hd), Hacc. }
  cbn [JsString.nat_digits].
  destruct (n / 10); [exact Hacc'|now apply IH].
Qed.

Lemma of_Z_no_comma (z : Z) : occurs "," (JsString.of_Z z) = false.
Proof.
  destruct z as [|p|p]; cbn [JsString.of_Z]; [reflexivity| |].
  - apply nat_digits_no_comma. reflexivity.
  - change ("-" ++ JsString.of_nat (Pos.to_nat p))%string
      with (String "-" (JsString.of_nat (Pos.to_nat p))).
    cbn [occurs]. change (Ascii.eqb "-" ",") with false. cbn [orb].
    apply nat_digits_no_comma. reflexivity.
Qed.

Lemma nat_digits_nowhite (fuel : nat) :
  forall n acc,
    Forall (fun c => JsString.is_white c = false) (list_ascii_of_string acc) ->
    Forall (fun c => JsString.is_white c = false)
           (list_ascii_of_string (JsString.nat_digits fuel n acc)).
Proof.
  induction fuel as [|fuel IH]; intros n acc Hacc; [exact Hacc|].
  assert (Hd : n mod 10 < 10) by (apply Nat.mod_upper_bound; lia).
  destruct (digit_char Hd) as [_ [_ [Hwhite _]]].
  assert (Hacc' : Forall (fun c => JsString.is_white c = false)
                    (list_ascii_of_string
                       (String (ascii_of_nat (48 + n mod 10)) acc))).
  { cbn [list_ascii_of_string]. constructor; [exact Hwhite|exact Hacc]. }
  cbn [JsString.nat_digits].
  destruct (n / 10); [exact Hacc'|now apply IH].
Qed.

Lemma of_Z_tidy (z : Z) : tidy (JsString.of_Z z).
Proof.
  apply nowhite_tidy.
  - destruct z as [|p|p]; cbn [JsString.of_Z]; try discriminate.
    unfold JsString.of_nat.
    destruct (nat_digits_head (Pos.to_nat p) (Pos.to_nat p) ""%string)
      as [d [rest [_ Hhead]]].
    rewrite Hhead. discriminate.
  - destruct z as [|p|p]; cbn [JsString.of_Z].
    + repeat constructor.
    + apply nat_digits_nowhite. constructor.
    + change ("-" ++ JsString.of_nat (Pos.to_nat p))%string
        with (String "-" (JsString.of_nat (Pos.to_nat p))).
      cbn [list_ascii_of_string]. constructor; [reflexivity|].
      apply nat_digits_nowhite. constructor.
Qed.

Lemma plainHost_spec (h : string) :
  plainHost h = true ->
  h <> ""%string /\ JsString.trimStart h = h /\
  occurs ":" h = false /\ occurs "," h = false.
Proof.
  unfold plainHost. intros H.
  apply andb_true_iff in H. destruct H as [H Hcomma].
  apply andb_true_iff in H. destruct H as [Hhead Hcolon].
  apply negb_true_iff in Hcomma. apply negb_true_iff in Hcolon.
  destruct h as [|c h]; [discriminate|].
  apply negb_true_iff in Hhead.
  repeat split; auto; [discriminate|].
  cbn [JsString.trimStart]. now rewrite Hhead.
Qed.

Lemma labelOf_tidy (n : NodeConfig) :
  plainHost (endpoint n) = true ->
  tidy (labelOf n) /\ occurs "," (labelOf n) = false.
Proof.
  intros Hhost.
  destruct (plainHost_spec _ Hhost) as [Hne [Hstart [_ Hcomma]]].
  destruct (of_Z_tidy (port n)) as [_ [Hend Hdigits]].
  unfold labelOf. split; [split; [|split]|].
  - now apply trimStart_app.
  - rewrite <- str_app_assoc. now apply trimEnd_app.
  - destruct (endpoint n); [congruence|discriminate].
  - rewrite !occurs_app, Hcomma, of_Z_no_comma. reflexivity.
Qed.

Lemma joinWith_tidy (l : list string) :
  l <> [] -> Forall tidy l -> tidy (joinWith "," l).
Proof.
  induction l as [|p l IH]; [congruence|]. intros _ Hall.
  inversion Hall as [|? ? Hp Hl]; subst.
  destruct l as [|q l]; [exact Hp|].
  change (joinWith "," (p :: q :: l))
    with (p ++ "," ++ joinWith "," (q :: l))%string.
  apply tidy_between; [exact Hp|]. apply IH; [discriminate|exact Hl].
Qed.

Lemma split_at_separator (sep : ascii) (h r : string) :
  occurs sep h = false ->
  JsString.split sep (h ++ String sep r)%string = h :: JsString.split sep r.
Proof.
  induction h as [|a h IH]; intros Hh.
  - cbn [append JsString.split]. now rewrite Ascii.eqb_refl.
  - cbn [occurs] in Hh. destruct (Ascii.eqb a sep) eqn:Ha; [discriminate|].
    cbn [orb] in Hh. cbn [append JsString.split]. rewrite Ha.
    now rewrite (IH Hh).
Qed.

Lemma split_joinWith (l : list string) :
  l <> [] -> Forall (fun p => occurs "," p = false) l ->
  JsString.split "," (joinWith "," l) = l.
Proof.
  induction l as [|p l IH]; [congruence|]. intros _ Hall.
  inversion Hall as [|? ? Hp Hl]; subst.
  destruct l as [|q l]; [now apply split_no_separator|].
  change (joinWith "," (p :: q :: l))
    with (p ++ String "," (joinWith "," (q :: l)))%string.
  rewrite (@split_at_separator "," p _ Hp). f_equal.
  apply IH; [discriminate|exact Hl].
Qed.

Lemma explicitEntries_tidy (l : list string) :
  Forall tidy l -> filter JsString.truthy (map JsString.trim l) = l.
Proof.
  induction 1 as [|p l Hp _ IH]; [reflexivity|].
  cbn [map filter]. rewrite (@tidy_trim _ Hp), IH.
  destruct Hp as [_ [_ Hne]]. destruct p; [congruence|reflexivity].
Qed.

Lemma mapOutcome_labels (nodes : list NodeConfig) :
  Forall (fun n => plainHost (endpoint n) = true) nodes ->
  mapOutcome parseEntry (map labelOf nodes) = Returned nodes.
Proof.
  induction 1 as [|n nodes Hn _ IH]; [reflexivity|].
  destruct (plainHost_spec _ Hn) as [Hne [_ [Hcolon _]]].
  cbn [map mapOutcome]. rewrite (@parseEntry_label _ Hne Hcolon), IH. reflexivity.
Qed.

(** The registry reads back from its own text.  Write a non-empty registry
    in the format of [MINIO_NODES], one label [endpoint:port] per node as
    the services log it, separated by commas: when every end point is a
    host name the format can carry (not empty, not beginning with white
    space, free of colons and commas) and every port is a positive integer
    below 2^53, [parseMinioNodes] returns that registry from that text. *)
Theorem parseMinioNodes_reads_registryText (env : Env) (nodes : list NodeConfig) :
  nodes <> [] ->
  Forall (fun n => plainHost (endpoint n) = true /\ (0 < port n < 2 ^ 53)%Z) nodes ->
  MINIO_NODES env = Some (registryText nodes) ->
  parseMinioNodes env = Returned nodes.
Proof.
  intros Hne Hall Henv.
  assert (Hhosts : Forall (fun n => plainHost (endpoint n) = true) nodes).
  { eapply Forall_impl; [|exact Hall]. now intros n [Hn _]. }
  assert (Htext : registryText nodes = joinWith "," (map labelOf nodes)).
  { unfold registryText. exact (f_equal (joinWith ",") (node_labels nodes [])). }
  assert (Htidy : Forall tidy (map labelOf nodes)).
  { apply Forall_map. eapply Forall_impl; [|exact Hhosts].
    intros n Hn. apply (@labelOf_tidy n Hn). }
  assert (Hfree : Forall (fun p => occurs "," p = false) (map labelOf nodes)).
  { apply Forall_map. eapply Forall_impl; [|exact Hhosts].
    intros n Hn. apply (@labelOf_tidy n Hn). }
  assert (Hsome : map labelOf nodes <> []).
  { destruct nodes; [congruence|discriminate]. }
  pose proof (@joinWith_tidy _ Hsome Htidy) as Hjoined.
  unfold parseMinioNodes. rewrite Henv, Htext, (@tidy_trim _ Hjoined).
  destruct Hjoined as [_ [_ Hnonempty]].
  destruct (joinWith "," (map labelOf nodes)) as [|c text] eqn:Hj; [congruence|].
  cbn [JsString.truthy]. rewrite <- Hj.
  unfold explicitEntries.
  rewrite (@split_joinWith _ Hsome Hfree), (@explicitEntries_tidy _ Htidy).
  now apply mapOutcome_labels.
Qed.

Lemma parseMinioNodes_reads_registryText_witness :
  registryText [ {| endpoint := "10.0.0.5"; port := 9000 |};
                 {| endpoint := "store b"; port := 9002 |};
                 {| endpoint := "localhost"; port := 1 |} ]%Z
  = "10.0.0.5:9000,store b:9002,localhost:1"%string /\
  parseMinioNodes
    (mkEnv (Some "10.0.0.5:9000,store b:9002,localhost:1"%string) None None)
  = Returned [ {| endpoint := "10.0.0.5"; port := 9000 |};
               {| endpoint := "store b"; port := 9002 |};
               {| endpoint := "localhost"; port := 1 |} ]%Z.
Proof.
  split; [reflexivity|].
  apply (parseMinioNodes_reads_registryText
           (mkEnv (Some "10.0.0.5:9000,store b:9002,localhost:1"%string) None None)
           (nodes := [ {| endpoint := "10.0.0.5"; port := 9000 |};
                       {| endpoint := "store b"; port := 9002 |};
                       {| endpoint := "localhost"; port := 1 |} ]%Z)).
  - discriminate.
  - repeat constructor.
  - reflexivity.
Defined.

(** ** Life cycle of the healing service, continued *)

Lemma reachable_flagMatchesTimer (rt : Runtime) :
  reachable rt -> flagMatchesTimer rt.
Proof.
  intros [inputs Hrun].
  eapply run_preserves_flagMatchesTimer; [|exact Hrun].
  right. repeat split.
Qed.

(** In every state the service can reach, [stop] leaves the service
    stopped with no interval timer registered, so that no tick can follow;
    it does not touch the cycles in flight, which run to their end. *)
Theorem stop_cancels_timer_only (rt : Runtime) :
  reachable rt ->
  isRunning (this (stop rt)) = false /\
  intervalId (this (stop rt)) = None /\
  timers (stop rt) = [] /\
  cyclesInFlight (stop rt) = cyclesInFlight rt /\
  (forall t, step (stop rt) (TimerFires t) = None) /\
  (isRunning (this rt) = false ->
   journal (stop rt) = journal rt /\
   output (stop rt)
   = output rt ++ [ {| level := LogInfo; text := "Healing service not running" |} ]).
Proof.
  intros Hreach. apply reachable_flagMatchesTimer in Hreach.
  assert (Hmain : isRunning (this (stop rt)) = false /\
                  intervalId (this (stop rt)) = None /\
                  timers (stop rt) = [] /\
                  cyclesInFlight (stop rt) = cyclesInFlight rt).
  { destruct Hreach as [[Hr [t [Hi Ht]]]|[Hr [Hi Ht]]]; unfold stop; rewrite Hr.
    - cbn. rewrite Hi. cbn. rewrite Ht. cbn. rewrite Nat.eqb_refl. auto.
    - cbn. auto. }
  destruct Hmain as [H1 [H2 [H3 H4]]].
  repeat split; auto.
  - intros t. simpl. now rewrite H3.
  - unfold stop. rewrite H. reflexivity.
  - unfold stop. rewrite H. reflexivity.
Qed.

Lemma stop_cancels_timer_only_witness :
  timers (stop (start initial)) = [] /\
  cyclesInFlight (stop (start initial)) = 1.
Proof.
  destruct (stop_cancels_timer_only (rt := start initial))
    as [_ [_ [Htimers [Hcycles _]]]].
  - exists [CallStart]. reflexivity.
  - split; [exact Htimers|exact Hcycles].
Defined.

Lemma filter_length_app {A} (f : A -> bool) (l l' : list A) :
  List.length (filter f (l ++ l'))
  = List.length (filter f l) + List.length (filter f l').
Proof. now rewrite filter_app, length_app. Qed.

Lemma step_preserves_journalBalanced (rt rt' : Runtime) (i : Input) :
  flagMatchesTimer rt -> journalBalanced rt -> step rt i = Some rt' ->
  journalBalanced rt'.
Proof.
  unfold journalBalanced, intervalsSet, intervalsCleared, cyclesLaunched.
  intros Hflag [Hbal Hcyc] Hstep.
  destruct i as [| |t|]; simpl in Hstep.
  - injection Hstep as <-. unfold start.
    destruct (isRunning (this rt)); cbn.
    + auto.
    + rewrite <- !app_assoc, !filter_length_app, !length_app. cbn. lia.
  - injection Hstep as <-.
    destruct Hflag as [[Hr [t [Hi Ht]]]|[Hr [Hi Ht]]]; unfold stop; rewrite Hr.
    + cbn. rewrite Hi. cbn. rewrite Ht in *. cbn. rewrite Nat.eqb_refl. cbn.
      rewrite !filter_length_app. cbn in *. lia.
    + cbn. auto.
  - destruct (existsb (Nat.eqb t) (timers rt)); [|discriminate].
    injection Hstep as <-. cbn.
    rewrite !filter_length_app. cbn. lia.
  - destruct (cyclesInFlight rt) as [|n] eqn:Hn; [discriminate|].
    injection Hstep as <-. cbn. lia.
Qed.

Lemma run_preserves_journalBalanced (inputs : list Input) :
  forall rt rt',
    flagMatchesTimer rt -> journalBalanced rt -> run rt inputs = Some rt' ->
    journalBalanced rt'.
Proof.
  induction inputs as [|i inputs IH]; intros rt rt' Hflag Hbal Hrun; simpl in Hrun.
  - now injection Hrun as <-.
  - destruct (step rt i) as [rt1|] eqn:Hstep; [|discriminate].
    eapply IH; [| |exact Hrun].
    + eapply step_preserves_flagMatchesTimer; eauto.
    + eapply step_preserves_journalBalanced; eauto.
Qed.

(** No timer leaks and no cycle comes from nowhere: in every reachable
    state the intervals set so far are the intervals cleared plus the ones
    still registered, and the cycles in flight are at most the cycles
    launched. *)
Theorem journal_accounts_for_timers (rt : Runtime) :
  reachable rt ->
  intervalsSet (journal rt) = intervalsCleared (journal rt) + List.length (timers rt) /\
  cyclesInFlight rt <= cyclesLaunched (journal rt).
Proof.
  intros [inputs Hrun].
  eapply (run_preserves_journalBalanced inputs (rt := initial)); [| |exact Hrun].
  - right. repeat split.
  - split; cbn; lia.
Qed.

Lemma journal_accounts_for_timers_witness :
  exists rt,
    run initial [CallStart; CallStop; CallStart; TimerFires 2; CycleSettles] = Some rt /\
    intervalsSet (journal rt) = intervalsCleared (journal rt) + List.length (timers rt) /\
    cyclesInFlight rt <= cyclesLaunched (journal rt).
Proof.
  destruct (run initial [CallStart; CallStop; CallStart; TimerFires 2; CycleSettles])
    as [rt|] eqn:Hrun; [|vm_compute in Hrun; discriminate].
  exists rt. split; [reflexivity|].
  apply journal_accounts_for_timers.
  exists [CallStart; CallStop; CallStart; TimerFires 2; CycleSettles]. exact Hrun.
Defined.

(** ** Healing cycle, continued *)

(** The calls of one copy: a get on the source, then at most one put, on
    the target. *)
Lemma copyFileToNode_calls
    {W : Type} {store : ObjectStore W} (env : Env) (src : Client)
    (target : option Client) (key : string) (contentType : option string)
    (st : State W) :
  exists r st' g,
    copyFileToNode env src target key contentType st = (r, st') /\
    isCallOf OpGet key g /\ ev_client g = src /\
    ((exists e, r = Thrown e /\ calls st' = calls st ++ [g]) \/
     (exists p t, target = Some t /\ ev_ok g = true /\
                  isCallOf OpPut key p /\ ev_client p = t /\
                  calls st' = calls st ++ [g; p] /\
                  thrown_error r = ev_error p)) /\
    (ev_ok g = false -> calls st' = calls st ++ [g]).
Proof.
  unfold copyFileToNode. unfold bind at 1. unfold await at 1.
  destruct (getObject src (BUCKET_NAME env) key (world st)) as [rg wg].
  set (g := eventOf OpGet src key rg).
  set (st1 := afterCall st wg (latency rg) g).
  assert (Hg : isCallOf OpGet key g) by (split; reflexivity).
  destruct (settled rg) as [s|e] eqn:Hrg.
  - assert (Hok : ev_ok g = true).
    { unfold g, ev_ok, eventOf. simpl. now rewrite Hrg. }
    unfold bind at 1. unfold readAll.
    destruct (failure s) as [e|].
    + exists (Thrown e), st1, g. unfold throw.
      repeat split; auto; try congruence.
      left. exists e. auto.
    + unfold ret. destruct target as [t|].
      * unfold await.
        destruct (putObject t (BUCKET_NAME env) key (List.concat (chunks s))
                    (or_default contentType "application/octet-stream")
                    (world st1)) as [rp wp].
        eexists. eexists. exists g.
        split; [reflexivity|]. repeat split; auto; try congruence.
        right. exists (eventOf OpPut t key rp), t.
        repeat split; auto.
        unfold afterCall, st1. simpl. now rewrite <- app_assoc.
      * unfold throw. eexists. eexists. exists g.
        split; [reflexivity|]. repeat split; auto; try congruence.
        left. eexists. split; reflexivity.
  - exists (Thrown e), st1, g.
    repeat split; auto.
    left. exists e. auto.
Qed.

(** One copy, for a given answer of the source to the get.  The get is the
    only call when it is rejected, when the stream read from it breaks, or
    when there is no target client: the copy then throws and the world is
    as the get left it.  Otherwise the copy makes one more call, a put on
    the target, of the bytes read (the chunks of the stream, concatenated)
    under the given content type, "application/octet-stream" when there is
    none; it ends as that put does and leaves the world as that put
    does. *)
Theorem copyFileToNode_reads_before_writing
    {W : Type} {store : ObjectStore W} (env : Env) (src : Client)
    (target : option Client) (key : string) (contentType : option string)
    (st : State W) (rg : Reply Stream) (wg : W) :
  getObject src (BUCKET_NAME env) key (world st) = (rg, wg) ->
  exists r st',
    copyFileToNode env src target key contentType st = (r, st') /\
    match settled rg, target with
    | Returned s, Some t =>
        match failure s with
        | None =>
            exists rp,
              putObject t (BUCKET_NAME env) key (List.concat (chunks s))
                (or_default contentType "application/octet-stream") wg
              = (rp, world st') /\
              r = settled rp /\
              calls st' = calls st ++ [eventOf OpGet src key rg; eventOf OpPut t key rp]
        | Some e =>
            r = Thrown e /\ calls st' = calls st ++ [eventOf OpGet src key rg] /\
            world st' = wg
        end
    | Returned s, None =>
        is_returned r = false /\ calls st' = calls st ++ [eventOf OpGet src key rg] /\
        world st' = wg
    | Thrown e, _ =>
        r = Thrown e /\ calls st' = calls st ++ [eventOf OpGet src key rg] /\
        world st' = wg
    end.
Proof.
  intros Hget.
  unfold copyFileToNode. unfold bind at 1. unfold await at 1. rewrite Hget.
  destruct (settled rg) as [s|e].
  - unfold bind at 1. unfold readAll.
    destruct (failure s) as [e|].
    + unfold throw. eexists. eexists. split; [reflexivity|].
      destruct target; repeat split; reflexivity.
    + unfold ret. destruct target as [t|].
      * unfold await. cbn [world afterCall].
        destruct (putObject t (BUCKET_NAME env) key (List.concat (chunks s))
                    (or_default contentType "application/octet-stream") wg)
          as [rp wp].
        eexists. eexists. split; [reflexivity|].
        exists rp. cbn [world calls afterCall].
        repeat split. now rewrite <- app_assoc.
      * unfold throw. eexists. eexists. split; [reflexivity|].
        repeat split; reflexivity.
  - eexists. eexists. split; [reflexivity|].
    destruct target; repeat split; reflexivity.
Qed.

(** On the in-memory cluster: a copy from node 1, which holds the object,
    to node 2 returns, and node 2 then holds the same bytes under the
    default content type. *)
Lemma copyFileToNode_reads_before_writing_witness :
  let w := storeOn threeNodes node1
             [("f1"%string, ([Byte.x68; Byte.x69], "text/plain"%string))] in
  exists st',
    copyFileToNode localEnv node1 (Some node2) "f1" None (freshState w None)
    = (Returned tt, st') /\
    option_map (fun ns => lookupObject (objects ns) "f1")
      (nodeState (members (world st')) node2)
    = Some (Some ([Byte.x68; Byte.x69], "application/octet-stream"%string)) /\
    map ev_op (calls st') = [OpGet; OpPut].
Proof.
  intros w.
  destruct (copyFileToNode_reads_before_writing localEnv node1 (Some node2) "f1" None
              (freshState w None)
              (rg := fst (getObject node1 (BUCKET_NAME localEnv) "f1" w))
              (wg := snd (getObject node1 (BUCKET_NAME localEnv) "f1" w)))
    as [r [st' [Hrun Hshape]]].
  - reflexivity.
  - remember (world st') as final eqn:Hfinal.
    remember (calls st') as made eqn:Hmade.
    vm_compute in Hshape. destruct Hshape as [rp [Hput [Hr Hcalls]]].
    injection Hput as <- Hworld. subst r.
    exists st'. split; [exact Hrun|].
    rewrite <- Hfinal, <- Hmade, <- Hworld, Hcalls.
    split; reflexivity.
Defined.

(** Events a copy loop may issue: a get on the source, or a put on the
    client of one of the indices it was given. *)
Lemma healLoop_trace
    {W : Type} {store : ObjectStore W} {con : Console}
    (env : Env) (nodes : list NodeConfig)
    (clients : list Client) (fileId : string) (metadata : FileRecord)
    (src : Client) (todo : list nat) :
  forall st,
    exists st' evs,
      healLoop env nodes clients fileId metadata src todo st = (Returned tt, st') /\
      calls st' = calls st ++ evs /\
      List.length (filter (fun ev => match ev_op ev with OpGet => true | _ => false end) evs)
      = List.length todo /\
      Forall (fun ev =>
                ev_key ev = objectName metadata /\
                ((ev_op ev = OpGet /\ ev_client ev = src) \/
                 (ev_op ev = OpPut /\
                  exists i, In i todo /\ nth_error clients i = Some (ev_client ev))))
             evs.
Proof.
  induction todo as [|n todo IH]; intros st.
  - exists st, []. simpl. rewrite app_nil_r. repeat split; auto.
  - simpl healLoop. unfold bind at 1. unfold attempt. unfold bind at 1.
    destruct (copyFileToNode_calls env src (nth_error clients n)
                (objectName metadata) (mimetype metadata) st)
      as [r [st1 [g [Hcopy [[Hgop Hgkey] [Hgc [Hshape _]]]]]]].
    rewrite Hcopy.
    assert (Hstep : exists evs1,
              calls st1 = calls st ++ evs1 /\
              List.length (filter (fun ev => match ev_op ev with
                                             | OpGet => true | _ => false end) evs1) = 1 /\
              Forall (fun ev =>
                        ev_key ev = objectName metadata /\
                        ((ev_op ev = OpGet /\ ev_client ev = src) \/
                         (ev_op ev = OpPut /\
                          exists i, In i (n :: todo) /\
                                    nth_error clients i = Some (ev_client ev))))
                     evs1).
    { destruct Hshape as [[e [_ Hc]]|[p [t [Ht [_ [[Hpop Hpkey] [Hpc [Hc _]]]]]]]].
      - exists [g]. split; [exact Hc|]. simpl. rewrite Hgop. split; [reflexivity|].
        repeat constructor; auto.
      - exists [g; p]. split; [exact Hc|]. simpl. rewrite Hgop, Hpop.
        split; [reflexivity|].
        constructor; [split; auto|].
        constructor; [|constructor].
        split; [exact Hpkey|]. right. split; [exact Hpop|].
        exists n. split; [now left|]. now rewrite Hpc. }
    destruct Hstep as [evs1 [Hc1 [Hn1 Hall1]]].
    assert (Hrest : forall st2, calls st2 = calls st1 ->
              exists st' evs,
                healLoop env nodes clients fileId metadata src todo st2
                = (Returned tt, st') /\
                calls st' = calls st ++ evs /\
                List.length (filter (fun ev => match ev_op ev with
                                               | OpGet => true | _ => false end) evs)
                = List.length (n :: todo) /\
                Forall (fun ev =>
                          ev_key ev = objectName metadata /\
                          ((ev_op ev = OpGet /\ ev_client ev = src) \/
                           (ev_op ev = OpPut /\
                            exists i, In i (n :: todo) /\
                                      nth_error clients i = Some (ev_client ev))))
                       evs).
    { intros st2 Hst2.
      destruct (IH st2) as [st' [evs [Hrun [Hc [Hn Hall]]]]].
      exists st', (evs1 ++ evs).
      split; [exact Hrun|].
      split; [rewrite Hc, Hst2, Hc1; now rewrite <- app_assoc|].
      split; [rewrite filter_length_app, Hn1, Hn; reflexivity|].
      apply Forall_app. split; [exact Hall1|].
      eapply Forall_impl; [|exact Hall].
      intros ev [Hk [Hget|[Hput [i [Hi Hnth]]]]]; split; auto.
      right. split; auto. exists i. split; [now right|exact Hnth]. }
    destruct r as [u|e].
    + unfold log at 1. apply Hrest. reflexivity.
    + unfold bind at 1. unfold log at 1. apply Hrest. reflexivity.
Qed.

(** Every index handed to the copy loop gets its copy attempt, whatever
    happened to the copies before it: the loop returns, has read the source
    once per index, and has put to no client other than those of the
    indices it was given. *)
Theorem healLoop_attempts_every_target
    {W : Type} {store : ObjectStore W} {con : Console}
    (env : Env) (nodes : list NodeConfig)
    (clients : list Client) (fileId : string) (metadata : FileRecord)
    (src : Client) (todo : list nat) (st : State W) :
  exists st' evs,
    healLoop env nodes clients fileId metadata src todo st = (Returned tt, st') /\
    calls st' = calls st ++ evs /\
    map ev_client (filter (fun ev => match ev_op ev with OpGet => true | _ => false end) evs)
    = repeat src (List.length todo) /\
    Forall (fun ev =>
              ev_op ev = OpPut ->
              exists i, In i todo /\ nth_error clients i = Some (ev_client ev))
           evs /\
    Forall (fun ev => ev_op ev = OpGet \/ ev_op ev = OpPut) evs.
Proof.
  destruct (healLoop_trace env nodes clients fileId metadata src todo st)
    as [st' [evs [Hrun [Hc [Hn Hall]]]]].
  exists st', evs. split; [exact Hrun|]. split; [exact Hc|].
  split; [|split].
  - rewrite <- Hn. clear Hn Hc Hrun.
    induction Hall as [|ev evs [_ Hev] _ IH]; [reflexivity|].
    simpl. destruct Hev as [[Hop Hcl]|[Hop _]]; rewrite Hop; simpl.
    + now rewrite Hcl, IH.
    + exact IH.
  - eapply Forall_impl; [|exact Hall].
    intros ev [_ [[Hop _]|[_ Hi]]] Hput; [congruence|exact Hi].
  - eapply Forall_impl; [|exact Hall].
    intros ev [_ [[Hop _]|[Hop _]]]; auto.
Qed.

Lemma sourceLoop_trace
    {W : Type} {store : ObjectStore W} (env : Env) (key : string)
    (missingNodes : list nat) (rest : list Client) :
  forall i st,
    exists found st' evs,
      sourceLoop env key missingNodes i rest st = (Returned found, st') /\
      calls st' = calls st ++ evs /\
      console st' = console st /\
      Forall (isCallOf OpStat key) evs.
Proof.
  induction rest as [|c rest IH]; intros i st.
  - exists None, st, []. simpl. rewrite app_nil_r. repeat split; auto.
  - simpl. destruct (negb (existsb (Nat.eqb i) missingNodes)); [|apply IH].
    unfold bind at 1. unfold attempt, await.
    destruct (statObject c (BUCKET_NAME env) key (world st)) as [r w'].
    destruct (settled r) as [[]|e].
    + do 2 eexists. exists [eventOf OpStat c key r].
      split; [reflexivity|]. repeat split; auto. repeat constructor.
    + match goal with
      | |- context [sourceLoop _ _ _ _ _ ?st1] =>
          destruct (IH (S i) st1) as [found [st' [evs [Hrun [Hc [Hl Hall]]]]]]
      end.
      exists found, st', (eventOf OpStat c key r :: evs).
      split; [exact Hrun|].
      split; [rewrite Hc; simpl; now rewrite <- app_assoc|].
      split; [exact Hl|].
      constructor; [split; reflexivity|exact Hall].
Qed.

Section StaticProbes.

Context {W : Type} {store : ObjectStore W} {con : Console}.
Variable env : Env.
Variable nodes : list NodeConfig.
Variable key : string.
Variable answer : Client -> Outcome unit.

Hypothesis stat_static :
  forall c w, settled (fst (statObject c (BUCKET_NAME env) key w)) = answer c.

Lemma detectLoop_static (rest : list Client) :
  forall i missingNodes st,
    exists r st' evs,
      detectLoop env nodes key i rest missingNodes st = (r, st') /\
      calls st' = calls st ++ evs /\
      Forall (isCallOf OpStat key) evs /\
      Forall (fun line => level line = LogInfo)
             (skipn (List.length (console st)) (console st')) /\
      firstn (List.length (console st)) (console st') = console st /\
      forall m, r = Returned m ->
        map ev_client evs = rest /\
        exists added,
          m = missingNodes ++ added /\
          (forall j, In j added <->
                     exists c, i <= j /\ nth_error rest (j - i) = Some c /\
                               reportsMissing answer c = true).
Proof.
  induction rest as [|c rest IH]; intros i missingNodes st.
  - exists (Returned missingNodes), st, []. simpl. rewrite app_nil_r.
    rewrite skipn_all, firstn_all.
    split; [reflexivity|]. split; [reflexivity|].
    split; [constructor|]. split; [constructor|]. split; [reflexivity|].
    intros m Hm. injection Hm as <-. split; [reflexivity|].
    exists []. rewrite app_nil_r. split; [reflexivity|].
    intros j. split; [intros []|].
    intros [c [_ [Hn _]]]. destruct (j - i); discriminate.
  - simpl detectLoop. unfold bind at 1. unfold attempt, await.
    pose proof (stat_static c (world st)) as Hc.
    destruct (statObject c (BUCKET_NAME env) key (world st)) as [r w'].
    simpl in Hc. rewrite Hc.
    set (ev := eventOf OpStat c key r).
    set (st1 := afterCall st w' (latency r) ev).
    assert (Hev : isCallOf OpStat key ev) by (split; reflexivity).
    assert (Hcontinue : forall missing' st2 (extra : list LogLine),
              calls st2 = calls st1 ->
              console st2 = console st ++ extra ->
              Forall (fun line => level line = LogInfo) extra ->
              (forall j, In j missing' <-> In j missingNodes \/
                         (j = i /\ reportsMissing answer c = true)) ->
              (exists tail, missing' = missingNodes ++ tail /\
                            forall j, In j tail <-> (j = i /\ reportsMissing answer c = true)) ->
              exists r' st' evs,
                detectLoop env nodes key (S i) rest missing' st2 = (r', st') /\
                calls st' = calls st ++ evs /\
                Forall (isCallOf OpStat key) evs /\
                Forall (fun line => level line = LogInfo)
                       (skipn (List.length (console st)) (console st')) /\
                firstn (List.length (console st)) (console st') = console st /\
                forall m, r' = Returned m ->
                  map ev_client evs = c :: rest /\
                  exists added,
                    m = missingNodes ++ added /\
                    (forall j, In j added <->
                               exists c0, i <= j /\
                                          nth_error (c :: rest) (j - i) = Some c0 /\
                                          reportsMissing answer c0 = true)).
    { intros missing' st2 extra Hcalls Hcons Hextra _ [tail [Htail Hin]].
      destruct (IH (S i) missing' st2) as [r' [st' [evs [Hrun [Hcl [Hall [Hlog [Hpre Hres]]]]]]]].
      exists r', st', (ev :: evs).
      split; [exact Hrun|].
      split; [rewrite Hcl, Hcalls; unfold st1; simpl; now rewrite <- app_assoc|].
      split; [constructor; assumption|].
      assert (Hsplit : console st' = console st ++ extra
                         ++ skipn (List.length (console st2)) (console st')).
      { rewrite <- (firstn_skipn (List.length (console st2)) (console st')) at 1.
        rewrite Hpre, Hcons. now rewrite <- app_assoc. }
      split.
      { rewrite Hsplit, skipn_app, skipn_all, Nat.sub_diag. simpl.
        apply Forall_app. split; [exact Hextra|exact Hlog]. }
      split.
      { rewrite Hsplit, firstn_app, firstn_all, Nat.sub_diag. simpl.
        apply app_nil_r. }
      intros m Hm. destruct (Hres m Hm) as [Hmap [added [Hadded Hiff]]].
      split; [simpl; now rewrite Hmap|].
      exists (tail ++ added). split; [rewrite Hadded, Htail; now rewrite <- app_assoc|].
      intros j. rewrite in_app_iff, Hin, Hiff. split.
      - intros [[-> Hrep]|[c0 [Hle [Hn Hrep]]]].
        + exists c. rewrite Nat.sub_diag. auto.
        + exists c0. split; [lia|]. split; [|exact Hrep].
          replace (j - i) with (S (j - S i)) by lia. exact Hn.
      - intros [c0 [Hle [Hn Hrep]]].
        destruct (Nat.eq_dec j i) as [->|Hneq].
        + rewrite Nat.sub_diag in Hn. injection Hn as <-. auto.
        + right. exists c0. split; [lia|]. split; [|exact Hrep].
          replace (j - i) with (S (j - S i)) in Hn by lia. exact Hn. }
    destruct (answer c) as [[]|e] eqn:Hanswer.
    + apply (Hcontinue missingNodes st1 []); auto.
      * now rewrite app_nil_r.
      * intros j. unfold reportsMissing. rewrite Hanswer.
        split; [auto|intros [H|[_ H]]; [exact H|discriminate]].
      * exists []. rewrite app_nil_r. split; [reflexivity|].
        intros j. unfold reportsMissing. rewrite Hanswer.
        split; [intros []|intros [_ H]; discriminate].
    + unfold bind at 1. unfold liftOutcome.
      destruct (isNotFound e) as [[|]|te] eqn:Hnf.
      * apply (Hcontinue (missingNodes ++ [i]) st1 []); auto.
        -- now rewrite app_nil_r.
        -- intros j. rewrite in_app_iff. unfold reportsMissing.
           rewrite Hanswer, Hnf. simpl. intuition.
        -- exists [i]. split; [reflexivity|].
           intros j. unfold reportsMissing. rewrite Hanswer, Hnf. simpl. intuition.
      * unfold bind at 1. unfold log at 1.
        match goal with
        | |- context [detectLoop _ _ _ _ _ _ ?st2] =>
            apply (Hcontinue missingNodes st2
                     [ {| level := LogInfo;
                          text := ("Node " ++ node_label nodes i
                                   ++ " appears down, skipping healing to it")%string |} ])
        end; auto.
        -- intros j. unfold reportsMissing. rewrite Hanswer, Hnf.
           split; [auto|intros [H|[_ H]]; [exact H|discriminate]].
        -- exists []. rewrite app_nil_r. split; [reflexivity|].
           intros j. unfold reportsMissing. rewrite Hanswer, Hnf.
           split; [intros []|intros [_ H]; discriminate].
      * exists (Thrown te), st1, [ev].
        split; [reflexivity|]. split; [reflexivity|].
        split; [repeat constructor; apply Hev|].
        unfold st1, afterCall. simpl.
        rewrite skipn_all, firstn_all.
        split; [constructor|]. split; [reflexivity|].
        intros m Hm. discriminate.
Qed.

End StaticProbes.

(** While healing one object, whose stat outcome on each node is given, the
    service calls the storage for that object only, never removes anything,
    and puts only to nodes whose stat call was rejected as not-found: a node
    that holds the object, or that failed in another way ("appears down"),
    is never written to. *)
Theorem healFileIfNeeded_writes_to_missing_only
    {W : Type} {store : ObjectStore W} {con : Console}
    (env : Env) (file : FileRecord)
    (nodes : list NodeConfig) (answer : Client -> Outcome unit) (st : State W) :
  getMinioClients env = Returned nodes ->
  (forall c w, settled (fst (statObject c (BUCKET_NAME env) (objectName file) w))
               = answer c) ->
  exists r st' evs,
    healFileIfNeeded env (id file) file st = (r, st') /\
    calls st' = calls st ++ evs /\
    Forall (fun ev => ev_key ev = objectName file /\ ev_op ev <> OpRemove) evs /\
    Forall (fun ev => ev_op ev = OpPut -> reportsMissing answer (ev_client ev) = true)
           evs.
Proof.
  intros Hclients Hstat.
  unfold healFileIfNeeded.
  rewrite Hclients, (getMinioClients_registry _ Hclients).
  unfold bind at 1 2 3, liftOutcome.
  destruct (detectLoop_static env nodes (objectName file) answer Hstat nodes 0 [] st)
    as [r1 [st1 [evs1 [Hdetect [Hc1 [Hall1 [_ [_ Hres1]]]]]]]].
  rewrite Hdetect.
  assert (Hstats : forall evs,
            Forall (isCallOf OpStat (objectName file)) evs ->
            Forall (fun ev => ev_key ev = objectName file /\ ev_op ev <> OpRemove) evs /\
            Forall (fun ev => ev_op ev = OpPut ->
                              reportsMissing answer (ev_client ev) = true) evs).
  { intros evs Hevs. split; eapply Forall_impl; try exact Hevs.
    - intros ev [Hop Hk]. split; [exact Hk|congruence].
    - intros ev [Hop _] Hput. congruence. }
  destruct r1 as [m|e].
  2:{ exists (Thrown e), st1, evs1. split; [reflexivity|]. split; [exact Hc1|].
      now apply Hstats. }
  destruct (Hres1 m eq_refl) as [_ [added [Hm Hadded]]]. simpl in Hm. subst m.
  destruct (Nat.eqb (List.length added) 0).
  { exists (Returned false), st1, evs1. split; [reflexivity|]. split; [exact Hc1|].
    now apply Hstats. }
  unfold bind at 1. unfold log at 1. unfold bind at 1.
  match goal with
  | |- context [sourceLoop _ _ _ _ _ ?stl] =>
      destruct (sourceLoop_trace env (objectName file) added nodes 0 stl)
        as [found [st2 [evs2 [Hsource [Hc2 [_ Hall2]]]]]]
  end.
  rewrite Hsource. simpl in Hc2.
  destruct found as [src|].
  - unfold bind at 1.
    destruct (healLoop_trace env nodes nodes (id file) file src added st2)
      as [st3 [evs3 [Hheal [Hc3 [_ Hall3]]]]].
    rewrite Hheal. unfold ret.
    exists (Returned true), st3, (evs1 ++ evs2 ++ evs3).
    split; [reflexivity|].
    split; [rewrite Hc3, Hc2, Hc1; now rewrite <- !app_assoc|].
    destruct (Hstats _ Hall1) as [Ha1 Hb1].
    destruct (Hstats _ Hall2) as [Ha2 Hb2].
    split; repeat (apply Forall_app; split); auto.
    + eapply Forall_impl; [|exact Hall3].
      intros ev [Hk [[Hop _]|[Hop _]]]; split; auto; congruence.
    + eapply Forall_impl; [|exact Hall3].
      intros ev [_ [[Hop _]|[_ [i [Hi Hnth]]]]] Hput; [congruence|].
      apply Hadded in Hi. destruct Hi as [c [_ [Hn Hrep]]].
      rewrite Nat.sub_0_r in Hn. unfold Client in *.
      rewrite Hnth in Hn. injection Hn as <-. exact Hrep.
  - unfold bind, log, ret.
    eexists. eexists. exists (evs1 ++ evs2).
    split; [reflexivity|].
    split; [simpl; rewrite Hc2, Hc1; now rewrite <- app_assoc|].
    destruct (Hstats _ Hall1) as [Ha1 Hb1].
    destruct (Hstats _ Hall2) as [Ha2 Hb2].
    split; apply Forall_app; split; auto.
Qed.

Lemma healFileIfNeeded_writes_to_missing_only_witness :
  exists st' evs,
    healFileIfNeeded (store := scripted (play oneMissingOneDown)) localEnv "f1" fileF1
      (freshState tt None) = (Returned true, st') /\
    calls st' = evs /\
    map (fun ev => (ev_client ev, ev_ok ev))
        (filter (fun ev => match ev_op ev with OpPut => true | _ => false end) evs)
    = [(node1, true)] /\
    Forall (fun ev => ev_op ev = OpPut ->
                      reportsMissing
                        (fun c => settled (on_stat (play oneMissingOneDown) c
                                             (objectName fileF1)))
                        (ev_client ev) = true) evs.
Proof.
  destruct (healFileIfNeeded_writes_to_missing_only
              (store := scripted (play oneMissingOneDown)) localEnv fileF1
              (nodes := [node0; node1; node2])
              (fun c => settled (on_stat (play oneMissingOneDown) c (objectName fileF1)))
              (freshState tt None))
    as [r [st' [evs [Hrun [Hc [_ Hput]]]]]].
  - reflexivity.
  - intros c w. reflexivity.
  - cbn [calls freshState app] in Hc. subst evs.
    assert (Hvalue : healFileIfNeeded (store := scripted (play oneMissingOneDown))
                       localEnv (id fileF1) fileF1 (freshState tt None)
                     = (r, st')) by exact Hrun.
    vm_compute in Hvalue. injection Hvalue as <- Hst.
    exists st', (calls st'). split; [exact Hrun|]. split; [reflexivity|].
    split; [|exact Hput].
    rewrite <- Hst. reflexivity.
Defined.




(** The loop over the listed files never throws, and each file moves at
    most one of the two counters, by one: the counters only grow, and
    together they grow by at most the number of files. *)
Lemma cycleLoop_counts
    {W : Type} {store : ObjectStore W} {con : Console}
    (env : Env) (files : list FileRecord) :
  forall healedCount errorCount (st : State W),
    exists healed errors st',
      cycleLoop env files healedCount errorCount st = (Returned (healed, errors), st') /\
      healedCount <= healed /\ errorCount <= errors /\
      (healed - healedCount) + (errors - errorCount) <= List.length files.
Proof.
  induction files as [|file files IH]; intros h e st.
  - exists h, e, st. simpl. repeat split; auto; lia.
  - rewrite cycleLoop_cons.
    destruct (healFileIfNeeded env (id file) file st) as [[wasHealed|err] st1].
    + destruct (IH (if wasHealed then S h else h) e st1)
        as [h' [e' [st' [Hrun [Hh [He Hsum]]]]]].
      exists h', e', st'. split; [exact Hrun|].
      simpl List.length. destruct wasHealed; repeat split; lia.
    + match goal with
      | |- context [cycleLoop _ _ _ _ ?st2] =>
          destruct (IH h (S e) st2) as [h' [e' [st' [Hrun [Hh [He Hsum]]]]]]
      end.
      exists h', e', st'. split; [exact Hrun|].
      simpl List.length. repeat split; lia.
Qed.

(** A healing cycle never throws.  When the listing of the files fails, the
    cycle ends at once: no storage node is called and the console gets the
    start line and one error line, the text "Error in healing cycle:"
    followed by the error object as the console renders it.  When the
    listing succeeds, the last line written is the summary, whose two
    counts add up to at most the number of files listed. *)
Theorem runHealingCycle_absorbs_failures
    {W : Type} {store : ObjectStore W} {con : Console}
    (env : Env) (st : State W) :
  exists st',
    runHealingCycle env st = (Returned tt, st') /\
    match settled (fst (listAllFiles (world st))) with
    | Thrown error =>
        calls st' = calls st /\
        console st'
        = console st
          ++ [ {| level := LogInfo; text := "Starting healing cycle..." |};
               {| level := LogError;
                  text := ("Error in healing cycle: " ++ inspect error)%string |} ]
    | Returned files =>
        exists healed errors,
          healed + errors <= List.length files /\
          last (console st') {| level := LogError; text := "" |}
          = {| level := LogInfo; text := summaryLine healed errors |}
    end.
Proof.
  unfold runHealingCycle.
  unfold bind at 1. unfold attempt. unfold bind at 1. unfold log at 1.
  unfold bind at 1. unfold awaitMetadata. cbn [world].
  destruct (listAllFiles (world st)) as [reply w'].
  cbn [fst].
  destruct (settled reply) as [files|error].
  - unfold bind at 1. unfold log at 1. unfold bind at 1.
    match goal with
    | |- context [cycleLoop _ _ _ _ ?st2] =>
        destruct (cycleLoop_counts env files 0 0 st2)
          as [h [e [st3 [Hrun [_ [_ Hsum]]]]]]
    end.
    rewrite Hrun. unfold log, ret. cbn [fst snd].
    eexists. split; [reflexivity|].
    exists h, e. split; [lia|].
    cbn [console]. apply last_last.
  - unfold log. eexists. split; [reflexivity|].
    cbn [calls console]. rewrite <- app_assoc. split; reflexivity.
Qed.

(** ** Initialisation of the storage service *)

Lemma last_cons_shift {A} (x : A) (l : list A) (d : A) :
  last (x :: l) d = last l x.
Proof.
  destruct l as [|y l]; [reflexivity|].
  change (last (x :: y :: l) d) with (last (y :: l) d).
  apply last_cons_default.
Qed.

Lemma prefix_append (s t : string) : prefix s (s ++ t)%string = true.
Proof.
  induction s as [|a s IH]; [now destruct t|].
  cbn. destruct (ascii_dec a a) as [_|Hne]; [exact IH|now contradiction Hne].
Qed.

Lemma isAttemptLine_attemptLine (node : NodeConfig) :
  isAttemptLine (attemptLine node) = true.
Proof. unfold isAttemptLine, attemptLine. cbn [text]. apply prefix_append. Qed.

Section Startup.

Context {W : Type} {store : ObjectStore W} {admin : BucketAdmin W}.
Variable env : Env.
Variable exists_ : Client -> Reply bool.
Variable made : Client -> Outcome unit.

Hypothesis exists_static :
  forall c w, fst (bucketExists c (BUCKET_NAME env) w) = exists_ c.
Hypothesis made_static :
  forall c w, settled (fst (makeBucket c (BUCKET_NAME env) "us-east-1" w)) = made c.

Lemma connectLoop_skips (node : NodeConfig) (rest : list NodeConfig)
    (lastError : option Error) (st : State W) :
  canBePrimary exists_ made node = false ->
  exists e st2 failed,
    connectLoop env (node :: rest) lastError st = connectLoop env rest (Some e) st2 /\
    console st2 = console st ++ [attemptLine node; failed] /\
    isAttemptLine failed = false /\
    calls st2 = calls st /\
    minioClient st2
    = (if answersInTime exists_ node then Some node else minioClient st).
Proof.
  unfold canBePrimary, answersInTime. intros Hno.
  cbn [connectLoop]. unfold bind at 1. unfold attempt.
  unfold bind at 1. unfold log at 1. unfold bind at 1. unfold liftOutcome, newClient.
  destruct (clientConfigError node) as [ce|].
  { unfold bind at 1. unfold log at 1.
    do 2 eexists.
    exists {| level := LogInfo;
              text := ("Failed to connect to MinIO at " ++ nodeText node ++ ": "
                       ++ show_opt (message ce))%string |}.
    split; [reflexivity|]. cbn. rewrite <- app_assoc. repeat split; reflexivity. }
  unfold bind at 1. unfold awaitRaceQuiet. cbn [world].
  pose proof (exists_static node (world st)) as Hex.
  destruct (bucketExists node (BUCKET_NAME env) (world st)) as [rb wb].
  cbn [fst] in Hex. subst rb.
  destruct (Nat.ltb (latency (exists_ node)) CONNECT_TIMEOUT).
  2:{ unfold bind at 1. unfold log at 1.
      do 2 eexists.
      exists {| level := LogInfo;
                text := ("Failed to connect to MinIO at " ++ nodeText node ++ ": "
                         ++ show_opt (message (newError "Connection timeout")))%string |}.
      split; [reflexivity|]. cbn. rewrite <- app_assoc. repeat split; reflexivity. }
  destruct (settled (exists_ node)) as [[|]|eb].
  - discriminate.
  - cbn [andb is_returned] in Hno.
    unfold bind at 1. unfold setMinioClient at 1. cbn [negb].
    unfold bind at 1. unfold bind at 1. unfold awaitQuiet. cbn [world].
    pose proof (made_static node wb) as Hmade.
    destruct (makeBucket node (BUCKET_NAME env) "us-east-1" wb) as [rm wm].
    cbn [fst] in Hmade. rewrite Hmade.
    destruct (made node) as [[]|em]; [discriminate|].
    unfold bind at 1. unfold log at 1.
    do 2 eexists.
    exists {| level := LogInfo;
              text := ("Failed to connect to MinIO at " ++ nodeText node ++ ": "
                       ++ show_opt (message em))%string |}.
    split; [reflexivity|]. cbn. rewrite <- app_assoc. repeat split; reflexivity.
  - unfold bind at 1. unfold log at 1.
    do 2 eexists.
    exists {| level := LogInfo;
              text := ("Failed to connect to MinIO at " ++ nodeText node ++ ": "
                       ++ show_opt (message eb))%string |}.
    split; [reflexivity|]. cbn. rewrite <- app_assoc. repeat split; reflexivity.
Qed.

Lemma connectLoop_connects (node : NodeConfig) (rest : list NodeConfig)
    (lastError : option Error) (st : State W) :
  canBePrimary exists_ made node = true ->
  exists st' lines,
    connectLoop env (node :: rest) lastError st = (Returned node, st') /\
    console st' = console st ++ attemptLine node :: lines /\
    filter isAttemptLine lines = [] /\
    calls st' = calls st /\
    minioClient st' = Some node.
Proof.
  unfold canBePrimary, answersInTime. intros Hyes.
  cbn [connectLoop]. unfold bind at 1. unfold attempt.
  unfold bind at 1. unfold log at 1. unfold bind at 1. unfold liftOutcome, newClient.
  destruct (clientConfigError node) as [ce|]; [discriminate|].
  unfold bind at 1. unfold awaitRaceQuiet. cbn [world].
  pose proof (exists_static node (world st)) as Hex.
  destruct (bucketExists node (BUCKET_NAME env) (world st)) as [rb wb].
  cbn [fst] in Hex. subst rb.
  destruct (Nat.ltb (latency (exists_ node)) CONNECT_TIMEOUT); [|discriminate].
  destruct (settled (exists_ node)) as [[|]|eb]; [| |discriminate].
  - unfold bind at 1. unfold setMinioClient at 1. cbn [negb].
    unfold bind, log, ret.
    do 2 eexists. split; [reflexivity|]. cbn.
    rewrite <- app_assoc. repeat split; reflexivity.
  - cbn [andb is_returned] in Hyes.
    unfold bind at 1. unfold setMinioClient at 1. cbn [negb].
    unfold bind at 1. unfold bind at 1. unfold awaitQuiet. cbn [world].
    pose proof (made_static node wb) as Hmade.
    destruct (makeBucket node (BUCKET_NAME env) "us-east-1" wb) as [rm wm].
    cbn [fst] in Hmade. rewrite Hmade.
    destruct (made node) as [[]|em]; [|discriminate].
    unfold bind, log, ret.
    do 2 eexists. split; [reflexivity|]. cbn.
    rewrite <- !app_assoc. repeat split; reflexivity.
Qed.

Lemma connectLoop_first (pre : list NodeConfig) :
  forall c post lastError st,
    (forall n, In n pre -> canBePrimary exists_ made n = false) ->
    canBePrimary exists_ made c = true ->
    exists st' lines,
      connectLoop env (pre ++ c :: post) lastError st = (Returned c, st') /\
      console st' = console st ++ lines /\
      filter isAttemptLine lines = map attemptLine (pre ++ [c]) /\
      calls st' = calls st /\
      minioClient st' = Some c.
Proof.
  induction pre as [|n pre IH]; intros c post lastError st Hpre Hc.
  - destruct (connectLoop_connects c post lastError st Hc)
      as [st' [lines [Hrun [Hcons [Hfilter [Hcalls Hclient]]]]]].
    exists st', (attemptLine c :: lines).
    repeat split; auto.
    cbn [filter]. rewrite isAttemptLine_attemptLine. now rewrite Hfilter.
  - destruct (connectLoop_skips n (pre ++ c :: post) lastError st
                (Hpre n (or_introl eq_refl)))
      as [e [st2 [failed [Hstep [Hcons2 [Hfailed [Hcalls2 _]]]]]]].
    destruct (IH c post (Some e) st2) as [st' [lines [Hrun [Hcons [Hfilter [Hcalls Hclient]]]]]];
      [intros; apply Hpre; now right|exact Hc|].
    exists st', ([attemptLine n; failed] ++ lines).
    split; [cbn [app]; rewrite Hstep; exact Hrun|].
    split; [rewrite Hcons, Hcons2; now rewrite <- app_assoc|].
    split; [|split; [congruence|exact Hclient]].
    cbn [app filter]. rewrite isAttemptLine_attemptLine, Hfailed, Hfilter. reflexivity.
Qed.

Lemma connectLoop_none (rest : list NodeConfig) :
  forall lastError st,
    (forall n, In n rest -> canBePrimary exists_ made n = false) ->
    exists detail st' lines,
      connectLoop env rest lastError st
      = (Thrown (newError ("Failed to connect to any MinIO node. Last error: "
                           ++ detail)%string), st') /\
      console st' = console st ++ lines /\
      filter isAttemptLine lines = map attemptLine rest /\
      calls st' = calls st /\
      minioClient st'
      = last (map Some (filter (answersInTime exists_) rest)) (minioClient st).
Proof.
  induction rest as [|n rest IH]; intros lastError st Hnone.
  - do 2 eexists. exists []. cbn. unfold throw. rewrite app_nil_r.
    repeat split; reflexivity.
  - destruct (connectLoop_skips n rest lastError st (Hnone n (or_introl eq_refl)))
      as [e [st2 [failed [Hstep [Hcons2 [Hfailed [Hcalls2 Hclient2]]]]]]].
    destruct (IH (Some e) st2) as [detail [st' [lines [Hrun [Hcons [Hfilter [Hcalls Hclient]]]]]]];
      [intros; apply Hnone; now right|].
    exists detail, st', ([attemptLine n; failed] ++ lines).
    split; [rewrite Hstep; exact Hrun|].
    split; [rewrite Hcons, Hcons2; now rewrite <- app_assoc|].
    split; [|split; [congruence|]].
    + cbn [app filter]. rewrite isAttemptLine_attemptLine, Hfailed, Hfilter. reflexivity.
    + rewrite Hclient, Hclient2. cbn [filter].
      destruct (answersInTime exists_ n); [|reflexivity].
      cbn [map]. now rewrite last_cons_shift.
Qed.

(** [initializeMinIO] makes primary the first node of the registry, in
    registry order, that answers the bucket test within the timeout and
    whose bucket is there or can be made: it returns that client, stores it
    in [minioClient], and has attempted exactly the nodes up to it. *)
Theorem initializeMinIO_first_usable_node
    (pre post : list NodeConfig) (c : NodeConfig) (st : State W) :
  parseMinioNodes env = Returned (pre ++ c :: post) ->
  (forall n, In n pre -> canBePrimary exists_ made n = false) ->
  canBePrimary exists_ made c = true ->
  exists st' lines,
    initializeMinIO env st = (Returned c, st') /\
    minioClient st' = Some c /\
    console st' = console st ++ lines /\
    filter isAttemptLine lines = map attemptLine (pre ++ [c]) /\
    calls st' = calls st.
Proof.
  intros Hparse Hpre Hc.
  destruct (connectLoop_first pre c post None st Hpre Hc)
    as [st' [lines [Hrun [Hcons [Hfilter [Hcalls Hclient]]]]]].
  exists st', lines. unfold initializeMinIO. rewrite Hparse.
  unfold bind, liftOutcome. repeat split; assumption.
Qed.

(** When no node of the registry can become the primary, [initializeMinIO]
    throws after attempting every node.  The variable [minioClient] is then
    not reset: it holds the client of the last node that answered the
    bucket test in time (a node whose bucket could not be made), and keeps
    its former value only when no node answered. *)
Theorem initializeMinIO_failure_keeps_client
    (nodes : list NodeConfig) (st : State W) :
  parseMinioNodes env = Returned nodes ->
  (forall n, In n nodes -> canBePrimary exists_ made n = false) ->
  exists detail st' lines,
    initializeMinIO env st
    = (Thrown (newError ("Failed to connect to any MinIO node. Last error: "
                         ++ detail)%string), st') /\
    console st' = console st ++ lines /\
    filter isAttemptLine lines = map attemptLine nodes /\
    minioClient st'
    = last (map Some (filter (answersInTime exists_) nodes)) (minioClient st).
Proof.
  intros Hparse Hnone.
  destruct (connectLoop_none nodes None st Hnone)
    as [detail [st' [lines [Hrun [Hcons [Hfilter [_ Hclient]]]]]]].
  exists detail, st', lines. unfold initializeMinIO. rewrite Hparse.
  unfold bind, liftOutcome. repeat split; assumption.
Qed.

End Startup.

Lemma initializeMinIO_first_usable_node_witness :
  exists st',
    initializeMinIO (store := scripted (play primaryDown))
      (admin := scriptedAdmin startupExists startupMade) localEnv (freshState tt None)
    = (Returned node2, st') /\
    minioClient st' = Some node2.
Proof.
  destruct (initializeMinIO_first_usable_node
              (store := scripted (play primaryDown))
              (admin := scriptedAdmin startupExists startupMade)
              localEnv startupExists startupMade
              (fun c w => eq_refl) (fun c w => eq_refl)
              [node0; node1] [] node2 (freshState tt None))
    as [st' [lines [Hrun [Hclient _]]]].
  - reflexivity.
  - intros n [<-|[<-|[]]]; reflexivity.
  - reflexivity.
  - exists st'. split; assumption.
Defined.

Lemma initializeMinIO_failure_keeps_client_witness :
  exists e st',
    initializeMinIO (store := scripted (play primaryDown))
      (admin := scriptedAdmin startupExistsNone startupMade) localEnv (freshState tt None)
    = (Thrown e, st') /\
    minioClient st' = Some node1.
Proof.
  destruct (initializeMinIO_failure_keeps_client
              (store := scripted (play primaryDown))
              (admin := scriptedAdmin startupExistsNone startupMade)
              localEnv startupExistsNone startupMade
              (fun c w => eq_refl) (fun c w => eq_refl)
              (nodes := [node0; node1; node2]) (freshState tt None))
    as [detail [st' [lines [Hrun [_ [_ Hclient]]]]]].
  - reflexivity.
  - intros n [<-|[<-|[<-|[]]]]; reflexivity.
  - eexists. exists st'. split; [exact Hrun|exact Hclient].
Defined.

(** ** Primary-only read against the failover read *)

(** With the get outcome of every node fixed and the primary client one of
    the registered nodes: whenever the read through the primary client
    alone succeeds, the failover read succeeds too, and it is served by a
    node at or before the primary's place in the registry. *)
Theorem getFileStreamFromReplica_covers_primary
    {W : Type} {store : ObjectStore W} (env : Env) (key : string)
    (assigned : Client -> Outcome Stream) (nodes : list NodeConfig)
    (primary : Client) (place : nat) (s : Stream) (st st1 st2 : State W) :
  getMinioClients env = Returned nodes ->
  (forall c w, settled (fst (getObject c (BUCKET_NAME env) key w)) = assigned c) ->
  minioClient st = Some primary ->
  nth_error nodes place = Some primary ->
  getFileStream env key st = (Returned s, st1) ->
  exists res st',
    getFileStreamFromReplica env key st2 = (Returned res, st') /\
    nodeIndex res <= place.
Proof.
  intros Hclients Hget Hprimary Hplace Hrun.
  assert (Hserves : is_returned (assigned primary) = true).
  { unfold getFileStream, bind, getMinioClient, await in Hrun.
    rewrite Hprimary in Hrun.
    pose proof (Hget primary (world st)) as Hp.
    destruct (getObject primary (BUCKET_NAME env) key (world st)) as [r w'].
    simpl in Hp. injection Hrun as Hr _. rewrite <- Hp, Hr. reflexivity. }
  destruct (readLoop_assigned env nodes key assigned Hget nodes 0 None st2)
    as [r [st' [evs [Hloop [_ [_ Hres]]]]]].
  assert (Hsame : getFileStreamFromReplica env key st2 = (r, st')).
  { unfold getFileStreamFromReplica.
    rewrite Hclients, (getMinioClients_registry _ Hclients).
    unfold bind, liftOutcome. exact Hloop. }
  destruct r as [res|e].
  - exists res, st'. split; [exact Hsame|].
    destruct Hres as [k [c [Hk [Hi [_ [Hlow _]]]]]].
    change (0 + k) with k in Hi. rewrite Hi.
    destruct (Nat.le_gt_cases k place) as [Hle|Hgt]; [exact Hle|].
    rewrite (Hlow place primary Hgt Hplace) in Hserves. discriminate.
  - destruct Hres as [Hfail _].
    rewrite (Hfail primary (nth_error_In _ _ Hplace)) in Hserves. discriminate.
Qed.

Lemma getFileStreamFromReplica_covers_primary_witness :
  exists res st',
    getFileStreamFromReplica (store := scripted (play degraded)) localEnv "f1"
      (freshState tt None) = (Returned res, st') /\
    nodeIndex res <= 2.
Proof.
  pose (st := freshState tt (Some node2)).
  apply (getFileStreamFromReplica_covers_primary
           (store := scripted (play degraded)) localEnv "f1"
           (fun c => settled (on_get (play degraded) c "f1"))
           (nodes := [node0; node1; node2]) (primary := node2) 2
           (s := helloStream) st
           (st1 := snd (getFileStream (store := scripted (play degraded)) localEnv "f1" st))
           (freshState tt None)).
  - reflexivity.
  - intros c w. reflexivity.
  - reflexivity.
  - reflexivity.
  - vm_compute. reflexivity.
Defined.

(** The converse fails: with the primary down and another node holding the
    object, the primary-only read throws where the failover read serves. *)
Example primary_only_read_has_no_failover :
  let st := freshState tt (Some node0) in
  fst (getFileStream (store := scripted (play degraded)) localEnv "f1" st)
  = Thrown (refused node0) /\
  is_returned (fst (getFileStreamFromReplica (store := scripted (play degraded))
                      localEnv "f1" st)) = true.
Proof. vm_compute. split; reflexivity. Qed.

(** ** The user store *)

Lemma find_append {A} (f : A -> bool) (l l' : list A) :
  find f (l ++ l') = match find f l with Some x => Some x | None => find f l' end.
Proof.
  induction l as [|x l IH]; [reflexivity|].
  simpl. now destruct (f x).
Qed.

(** [create] appends: every lookup (by name, by e-mail, by id) that found a
    user before finds the same user afterwards, so that among users with
    equal keys the earliest wins; the new user is found under its own id
    exactly when that id was free. *)
Theorem userDB_create_keeps_earlier_users
    (now : Z) (iso : string) (userData : UserDB.UserData) (users : list UserDB.User) :
  let created := fst (UserDB.create now iso userData users) in
  let users' := snd (UserDB.create now iso userData users) in
  (forall name old, UserDB.findByUsername users name = Some old ->
                    UserDB.findByUsername users' name = Some old) /\
  (forall mail old, UserDB.findByEmail users mail = Some old ->
                    UserDB.findByEmail users' mail = Some old) /\
  (forall ident old, UserDB.findById users ident = Some old ->
                     UserDB.findById users' ident = Some old) /\
  UserDB.findById users' (UserDB.id created)
  = match UserDB.findById users (UserDB.id created) with
    | Some old => Some old
    | None => Some created
    end /\
  UserDB.findAll users' = users ++ [created].
Proof.
  cbn zeta. unfold UserDB.create. cbn [fst snd].
  unfold UserDB.findByUsername, UserDB.findByEmail, UserDB.findById, UserDB.findAll.
  repeat split.
  - intros name old H. now rewrite find_append, H.
  - intros mail old H. now rewrite find_append, H.
  - intros ident old H. now rewrite find_append, H.
  - rewrite find_append.
    match goal with |- context [find ?f users] => destruct (find f users) end;
      [reflexivity|].
    cbn [find]. now rewrite String.eqb_refl.
Qed.

(** Generated ids are the millisecond of creation: of two users created in
    the same millisecond without an id of their own, both get the same id,
    and a lookup by that id returns the first one only. *)
Theorem userDB_same_millisecond_ids_collide
    (now : Z) (iso1 iso2 : string) (data1 data2 : UserDB.UserData)
    (users : list UserDB.User) :
  UserDB.given_id data1 = None ->
  UserDB.given_id data2 = None ->
  UserDB.findById users ("user-" ++ JsString.of_Z now)%string = None ->
  let first := UserDB.create now iso1 data1 users in
  let second := UserDB.create now iso2 data2 (snd first) in
  UserDB.id (fst second) = UserDB.id (fst first) /\
  UserDB.findById (snd second) (UserDB.id (fst second)) = Some (fst first).
Proof.
  intros H1 H2 Hfree. cbn zeta. unfold UserDB.create. cbn [fst snd UserDB.id].
  rewrite H1, H2. split; [reflexivity|].
  unfold UserDB.findById in *. rewrite !find_append, Hfree.
  cbn [find UserDB.id]. now rewrite String.eqb_refl.
Qed.

Lemma userDB_same_millisecond_ids_collide_witness :
  let first := UserDB.create 42 "t1" (registration "carol") [alice; bob] in
  let second := UserDB.create 42 "t2" (registration "dave") (snd first) in
  UserDB.findById (snd second) (UserDB.id (fst second)) = Some (fst first).
Proof.
  exact (proj2 (userDB_same_millisecond_ids_collide 42 "t1" "t2"
                  (registration "carol") (registration "dave") [alice; bob]
                  eq_refl eq_refl eq_refl)).
Defined.

(** ** Permission checks of the file routes *)

(** The check of the info route is the strictest of the three: whoever may
    read the info of a file may also download it and delete it. *)
Theorem info_access_implies_download_and_delete
    (user : UserDB.User) (md : FilesRoute.Access) :
  FilesRoute.infoAllowed user md = true ->
  FilesRoute.hasReadPermission user md = true /\
  FilesRoute.hasDeletePermission user md = true.
Proof.
  unfold FilesRoute.infoAllowed, FilesRoute.hasReadPermission,
    FilesRoute.hasDeletePermission.
  destruct (FilesRoute.isAdmin user), (FilesRoute.isOwner user md);
    simpl; intros H; try discriminate; split; reflexivity.
Qed.

Lemma info_access_implies_download_and_delete_witness :
  FilesRoute.hasReadPermission alice (FilesRoute.uploadedAccess alice) = true /\
  FilesRoute.hasDeletePermission alice (FilesRoute.uploadedAccess alice) = true.
Proof.
  apply info_access_implies_download_and_delete. reflexivity.
Defined.

(** The converse fails: a user listed under [permissions.read] who is
    neither the owner nor an administrator may download the file, and is
    refused its info. *)
Example reader_downloads_without_info :
  let shared :=
    {| FilesRoute.ownerId := Some (UserDB.id alice);
       FilesRoute.permissions :=
         Some {| FilesRoute.perm_read := Some [UserDB.id alice; UserDB.id bob];
                 FilesRoute.perm_delete := Some [UserDB.id alice] |} |} in
  FilesRoute.hasReadPermission bob shared = true /\
  FilesRoute.infoAllowed bob shared = false /\
  FilesRoute.hasDeletePermission bob shared = false.
Proof. repeat split; reflexivity. Qed.

(** On the metadata the upload route writes, the three checks agree: a
    user passes each of them exactly when it is an administrator or the
    uploader. *)
Theorem uploaded_file_access (owner user : UserDB.User) :
  FilesRoute.hasReadPermission user (FilesRoute.uploadedAccess owner)
  = FilesRoute.infoAllowed user (FilesRoute.uploadedAccess owner) /\
  FilesRoute.hasDeletePermission user (FilesRoute.uploadedAccess owner)
  = FilesRoute.infoAllowed user (FilesRoute.uploadedAccess owner) /\
  (FilesRoute.infoAllowed user (FilesRoute.uploadedAccess owner) = true <->
   UserDB.role user = Some "admin"%string \/ UserDB.id user = UserDB.id owner).
Proof.
  unfold FilesRoute.hasReadPermission, FilesRoute.hasDeletePermission,
    FilesRoute.infoAllowed, FilesRoute.uploadedAccess, FilesRoute.isOwner,
    FilesRoute.isAdmin, FilesRoute.listed, UserDB.sameText.
  cbn [FilesRoute.ownerId FilesRoute.permissions FilesRoute.perm_read
       FilesRoute.perm_delete existsb].
  rewrite (String.eqb_sym (UserDB.id owner) (UserDB.id user)).
  assert (Hadmin : match UserDB.role user with
                   | Some s => String.eqb s "admin"
                   | None => false
                   end = true <-> UserDB.role user = Some "admin"%string).
  { destruct (UserDB.role user) as [r|]; [|split; discriminate].
    rewrite String.eqb_eq. split; [now intros ->|now intros [= ->]]. }
  destruct (match UserDB.role user with
            | Some s => String.eqb s "admin"
            | None => false
            end);
    destruct (String.eqb_spec (UserDB.id user) (UserDB.id owner)) as [Hid|Hid];
    cbn; repeat split; auto; try discriminate.
  - intros _. left. now apply Hadmin.
  - intros [H|H]; [|contradiction]. apply Hadmin in H. discriminate.
Qed.

(** ** Listings of the metadata service *)

Section ListingProperties.

Context {W : Type} {etcd : EtcdService.Etcd W} {con : Console}.
Variable JSON_parse : string -> Outcome EtcdService.Json.
Variable userId : string.

Lemma ownerIs_ownedBy (key : string) (metadata : EtcdService.Json) :
  EtcdService.ownedBy userId
    {| EtcdService.l_id := EtcdService.listedId key metadata;
       EtcdService.l_value := metadata |}
  = match EtcdService.ownerIs metadata userId with
    | Returned b => b
    | Thrown _ => false
    end.
Proof.
  unfold EtcdService.ownedBy, EtcdService.ownerIs. cbn.
  destruct metadata as [| |own [owner|] content]; reflexivity.
Qed.

Lemma collect_related (kvs : list (string * string)) :
  forall (allFiles : list EtcdService.Listed) (stA stU : State W),
    exists all stA' stU',
      EtcdService.collectAll JSON_parse kvs allFiles stA = (Returned all, stA') /\
      EtcdService.collectOwned JSON_parse userId kvs
        (filter (EtcdService.ownedBy userId) allFiles) stU
      = (Returned (filter (EtcdService.ownedBy userId) all), stU') /\
      world stA' = world stA /\ world stU' = world stU /\
      calls stA' = calls stA /\ calls stU' = calls stU /\
      all = allFiles ++ EtcdService.parsedRecords JSON_parse kvs.
Proof.
  induction kvs as [|[key value] kvs IH]; intros allFiles stA stU.
  - exists allFiles, stA, stU. cbn. rewrite app_nil_r. repeat split; auto.
  - cbn [EtcdService.collectAll EtcdService.collectOwned].
    unfold EtcdService.parsedRecords. cbn [flat_map fst snd].
    fold (EtcdService.parsedRecords JSON_parse kvs).
    destruct (JSON_parse value) as [metadata|error].
    + pose proof (ownerIs_ownedBy key metadata) as Hown.
      set (entry := {| EtcdService.l_id := EtcdService.listedId key metadata;
                       EtcdService.l_value := metadata |}) in *.
      destruct (EtcdService.ownerIs metadata userId) as [[|]|te].
      * destruct (IH (allFiles ++ [entry]) stA stU)
          as [all [stA' [stU' [HA [HU [H1 [H2 [H3 [H4 Hlen]]]]]]]]].
        rewrite filter_app in HU. cbn [filter] in HU. rewrite Hown in HU.
        exists all, stA', stU'.
        repeat split; auto. rewrite Hlen, <- app_assoc. reflexivity.
      * destruct (IH (allFiles ++ [entry]) stA stU)
          as [all [stA' [stU' [HA [HU [H1 [H2 [H3 [H4 Hlen]]]]]]]]].
        rewrite filter_app in HU. cbn [filter] in HU. rewrite Hown in HU.
        rewrite app_nil_r in HU.
        exists all, stA', stU'.
        repeat split; auto. rewrite Hlen, <- app_assoc. reflexivity.
      * unfold bind at 1. unfold log at 1.
        match goal with
        | |- context [EtcdService.collectOwned _ _ _ _ ?st2] =>
            destruct (IH (allFiles ++ [entry]) stA st2)
              as [all [stA' [stU' [HA [HU [H1 [H2 [H3 [H4 Hlen]]]]]]]]]
        end.
        rewrite filter_app in HU. cbn [filter] in HU. rewrite Hown in HU.
        rewrite app_nil_r in HU.
        exists all, stA', stU'.
        repeat split; auto. rewrite Hlen, <- app_assoc. reflexivity.
    + unfold bind at 1 2. unfold log at 1 2.
      match goal with
      | |- context [EtcdService.collectAll _ _ _ ?stA2] =>
          match goal with
          | |- context [EtcdService.collectOwned _ _ _ _ ?stU2] =>
              destruct (IH allFiles stA2 stU2)
                as [all [stA' [stU' [HA [HU [H1 [H2 [H3 [H4 Hlen]]]]]]]]]
          end
      end.
      exists all, stA', stU'. repeat split; auto.
Qed.

(** Once the etcd client is set, neither listing throws.  The listing of
    all files holds one record for each pair that etcd returns under the
    prefix and whose value parses, in the order of the pairs, and nothing
    for a pair whose value does not parse; it is empty when the read of
    etcd fails.  On the same answer of etcd, the listing of a user is the
    listing of all files restricted to the records that name the user as
    owner, in the same order. *)
Theorem listUserFiles_filters_listAllFiles (st : State W) :
  exists all stA stU,
    EtcdService.listAllFiles true JSON_parse st = (Returned all, stA) /\
    EtcdService.listUserFiles true JSON_parse userId st
    = (Returned (filter (EtcdService.ownedBy userId) all), stU) /\
    world stA = world stU /\
    all = match settled (fst (EtcdService.getAllPrefix "files/" (world st))) with
          | Returned kvs => EtcdService.parsedRecords JSON_parse kvs
          | Thrown _ => []
          end.
Proof.
  unfold EtcdService.listAllFiles, EtcdService.listUserFiles,
    EtcdService.getEtcdClient, bind, attempt, awaitQuiet, ret.
  destruct (EtcdService.getAllPrefix "files/" (world st)) as [reply w'].
  cbn [fst].
  destruct (settled reply) as [kvs|error].
  - match goal with
    | |- context [EtcdService.collectAll _ _ _ ?st1] =>
        destruct (collect_related kvs [] st1 st1)
          as [all [stA [stU [HA [HU [H1 [H2 [_ [_ Hlen]]]]]]]]]
    end.
    cbn [filter] in HU. rewrite HA, HU.
    exists all, stA, stU. repeat split; auto.
    now rewrite H1, H2.
  - unfold log. do 3 eexists.
    split; [reflexivity|]. split; [reflexivity|]. split; reflexivity.
Qed.

End ListingProperties.

(** Before [initializeEtcd] has set the client, a listing throws: the call
    of [getEtcdClient] stands outside the [try] of the function. *)
Example listAllFiles_requires_client :
  fst (EtcdService.listAllFiles (etcd := scriptedEtcd (fulfilled 5 storedFiles))
         false toyParse (freshState tt None))
  = Thrown (newError "etcd client not initialized. Call initializeEtcd() first.").
Proof. reflexivity. Qed.

Example listings_of_stored_files :
  let etcd := scriptedEtcd (fulfilled 5 storedFiles) in
  let all := fst (EtcdService.listAllFiles (etcd := etcd) true toyParse
                    (freshState tt None)) in
  let mine := fst (EtcdService.listUserFiles (etcd := etcd) true toyParse "user-1"
                     (freshState tt None)) in
  option_map (map EtcdService.l_id)
    (match all with Returned l => Some l | Thrown _ => None end)
  = Some ["a1"; "a3"; "a4"; "a5"]%string /\
  option_map (map EtcdService.l_id)
    (match mine with Returned l => Some l | Thrown _ => None end)
  = Some ["a1"; "a5"]%string.
Proof. vm_compute. split; reflexivity. Qed.

(** ** Discovery and healing together *)

Lemma filter_full_length {A} (f : A -> bool) (l : list A) :
  List.length (filter f l) = List.length l -> forall x, In x l -> f x = true.
Proof.
  induction l as [|a l IH]; intros Hlen x Hin; [destruct Hin|].
  simpl in Hlen. destruct (f a) eqn:Hfa.
  - simpl in Hlen. destruct Hin as [<-|Hin]; [exact Hfa|].
    apply IH; [lia|exact Hin].
  - pose proof (filter_length_le f l). simpl in Hlen. lia.
Qed.

Lemma locateLoop_static
    {W : Type} {store : ObjectStore W} (env : Env) (nodes : list NodeConfig)
    (key : string) (reply : Client -> Reply unit) (rest : list Client) :
  (forall c w, fst (statObject c (BUCKET_NAME env) key w) = reply c) ->
  forall i locations st,
    exists added st',
      locateLoop env nodes key i rest locations st = (Returned (locations ++ added), st') /\
      List.length added
      = List.length (filter (fun c => (Nat.ltb (latency (reply c)) PROBE_TIMEOUT
                                       && is_returned (settled (reply c)))%bool) rest).
Proof.
  intros Hstat.
  induction rest as [|c rest IH]; intros i locations st.
  - exists [], st. cbn. now rewrite app_nil_r.
  - cbn [locateLoop filter]. unfold bind at 1. unfold attempt, awaitRace.
    pose proof (Hstat c (world st)) as Hc.
    destruct (statObject c (BUCKET_NAME env) key (world st)) as [r w'].
    cbn [fst] in Hc. subst r.
    destruct (Nat.ltb (latency (reply c)) PROBE_TIMEOUT).
    + destruct (settled (reply c)) as [[]|e]; cbn [andb is_returned].
      * match goal with
        | |- context [locateLoop _ _ _ _ _ ?acc ?st1] =>
            destruct (IH (S i) acc st1) as [added [st' [Hrun Hlen]]]
        end.
        eexists (_ :: added), st'. rewrite Hrun, <- app_assoc.
        split; [reflexivity|]. cbn [List.length]. now rewrite Hlen.
      * apply IH.
    + cbn [andb]. apply IH.
Qed.

Lemma detectLoop_all_present
    {W : Type} {store : ObjectStore W} (env : Env) (nodes : list NodeConfig)
    (key : string) (rest : list Client) :
  (forall c w, In c rest ->
     is_returned (settled (fst (statObject c (BUCKET_NAME env) key w))) = true) ->
  forall i missingNodes st,
    exists st' evs,
      detectLoop env nodes key i rest missingNodes st = (Returned missingNodes, st') /\
      calls st' = calls st ++ evs /\
      Forall (isCallOf OpStat key) evs /\
      console st' = console st.
Proof.
  induction rest as [|c rest IH]; intros Hok i missingNodes st.
  - exists st, []. cbn. rewrite app_nil_r. repeat split; auto.
  - cbn [detectLoop]. unfold bind at 1. unfold attempt, await.
    pose proof (Hok c (world st) (or_introl eq_refl)) as Hc.
    destruct (statObject c (BUCKET_NAME env) key (world st)) as [r w'].
    cbn [fst] in Hc.
    destruct (settled r) as [[]|e] eqn:Hr; [|discriminate].
    match goal with
    | |- context [detectLoop _ _ _ _ _ _ ?st1] =>
        destruct (IH (fun c0 w Hin => Hok c0 w (or_intror Hin)) (S i) missingNodes st1)
          as [st' [evs [Hrun [Hcalls [Hall Hcons]]]]]
    end.
    exists st', (eventOf OpStat c key r :: evs).
    split; [exact Hrun|].
    split; [rewrite Hcalls; cbn; now rewrite <- app_assoc|].
    split; [constructor; [split; reflexivity|exact Hall]|exact Hcons].
Qed.

(** With the stat answer of every node fixed: an object that discovery
    reports on every registered node is left alone by healing, which
    returns [false] after its own probes, reads and writes nothing and
    logs nothing. *)
Theorem located_everywhere_needs_no_healing
    {W : Type} {store : ObjectStore W} {con : Console}
    (env : Env) (file : FileRecord)
    (nodes : list NodeConfig) (reply : Client -> Reply unit)
    (locations : list Location) (st st1 st2 : State W) :
  getMinioClients env = Returned nodes ->
  (forall c w, fst (statObject c (BUCKET_NAME env) (objectName file) w) = reply c) ->
  getStorageLocations env (objectName file) st = (Returned locations, st1) ->
  List.length locations = List.length nodes ->
  exists st' evs,
    healFileIfNeeded env (id file) file st2 = (Returned false, st') /\
    calls st' = calls st2 ++ evs /\
    Forall (isCallOf OpStat (objectName file)) evs /\
    console st' = console st2.
Proof.
  intros Hclients Hstat Hlocate Hall.
  assert (Hok : forall c, In c nodes -> is_returned (settled (reply c)) = true).
  { unfold getStorageLocations in Hlocate.
    rewrite Hclients, (getMinioClients_registry _ Hclients) in Hlocate.
    unfold bind, liftOutcome in Hlocate.
    destruct (locateLoop_static env nodes (objectName file) reply nodes Hstat 0 [] st)
      as [added [st' [Hrun Hlen]]].
    rewrite Hrun in Hlocate. injection Hlocate as <- _. cbn [app] in Hall.
    unfold Client in *. rewrite Hall in Hlen. symmetry in Hlen.
    intros c Hin. pose proof (filter_full_length _ _ Hlen c Hin) as Hc.
    apply andb_true_iff in Hc. apply Hc. }
  destruct (detectLoop_all_present env nodes (objectName file) nodes) with
    (i := 0) (missingNodes := @nil nat) (st := st2)
    as [st' [evs [Hrun [Hcalls [Hstats Hcons]]]]].
  { intros c w Hin. rewrite Hstat. now apply Hok. }
  exists st', evs.
  unfold healFileIfNeeded.
  rewrite Hclients, (getMinioClients_registry _ Hclients).
  unfold bind at 1 2 3, liftOutcome. rewrite Hrun. cbn.
  repeat split; auto.
Qed.

Lemma located_everywhere_needs_no_healing_witness :
  exists st' evs,
    healFileIfNeeded
      (store := scripted (play {| down := []; holding := [node0; node1; node2];
                                  writeProtected := []; slow := [];
                                  listed := [fileF1] |}))
      localEnv "f1" fileF1 (freshState tt None) = (Returned false, st') /\
    calls st' = evs /\
    List.length evs = 3 /\
    console st' = [].
Proof.
  pose (sc := {| down := []; holding := [node0; node1; node2];
                 writeProtected := []; slow := []; listed := [fileF1] |}).
  pose (found := getStorageLocations (store := scripted (play sc)) localEnv
                   (objectName fileF1) (freshState tt None)).
  destruct (located_everywhere_needs_no_healing
              (store := scripted (play sc))
              localEnv fileF1 (nodes := [node0; node1; node2])
              (fun c => on_stat (play sc) c (objectName fileF1))
              (locations := match fst found with Returned l => l | Thrown _ => [] end)
              (st1 := snd found)
              (freshState tt None) (freshState tt None))
    as [st' [evs [Hrun [Hcalls [_ Hcons]]]]].
  - reflexivity.
  - intros c w. reflexivity.
  - vm_compute. reflexivity.
  - vm_compute. reflexivity.
  - exists st', evs. split; [exact Hrun|]. split; [exact Hcalls|].
    split; [|exact Hcons].
    vm_compute in Hrun. injection Hrun as <-. vm_compute in Hcalls. now subst evs.
Defined.

(** ** Instances of the supplements *)

Lemma getStorageLocationsPlain_agrees_witness :
  getStorageLocationsPlain (store := scripted (play primaryDown)) localEnv "f1"
    (freshState tt None)
  = getStorageLocations (store := scripted (play primaryDown)) localEnv "f1"
      (freshState tt None).
Proof.
  apply (getStorageLocationsPlain_agrees (store := scripted (play primaryDown))
           localEnv "f1" (freshState tt None)).
  intros c w. apply Nat.ltb_lt.
  change (Nat.ltb (latency (on_stat (play primaryDown) c "f1")) PROBE_TIMEOUT = true).
  unfold play, on_stat, primaryDown, down, holding, delay, slow.
  destruct (among c [node0]); vm_compute; reflexivity.
Defined.

Lemma deleteFileFromAllReplicas_removes_witness :
  let st := freshState (storeOn threeNodes node1 [("f1"%string, ([Byte.x68], "text/plain"%string))])
              (Some node1) in
  let run := deleteFileFromAllReplicas localEnv "f1" st in
  absentWhereDeleted [node0; node1; node2] "f1"
    (match fst run with Returned rs => rs | Thrown _ => [] end)
    (world (snd run)).
Proof.
  intros st run.
  apply (deleteFileFromAllReplicas_removes localEnv "f1" st
           (nodes := [node0; node1; node2])
           (results := match fst run with Returned rs => rs | Thrown _ => [] end)
           (st' := snd run)).
  - reflexivity.
  - vm_compute. reflexivity.
Defined.
